(** * PyGUI2: the address bus and the element tree

    A shallow embedding of [bus.py], [elements.py] and the parts of
    [core.py] that the element tree calls into ([UIRoot]), followed by the
    properties of the message pump, of the node life cycle and of the
    geometry accessors.

    Python objects live in an object store indexed by object identity
    ([oid]); a method [C.m(self, a)] becomes a function [m self a] over the
    [World].  Code that can raise, or whose recursion follows the object
    graph, runs in the monad [M]: a state transformer with three outcomes,
    normal return, a raised [Exception] (the state written so far is kept),
    and [Timeout] when the recursion budget is used up.

    What the embedding leaves out or fixes:
    - there is one [AddressBus], the one [UIRoot.__init__] creates; the
      slot [has_bus] of a node says whether its [bus] attribute is set;
    - nothing is garbage collected, so a weak reference of the registry
      never dies and [_cleanup] finds nothing to purge;
    - exceptions are the subclasses of [Exception], which is what
      [_call_handler] catches; a recursion that Python would cut with
      [RecursionError] is a [Timeout] here;
    - a [pygame.Rect] is its four integers; drawing, input events and the
      frame loop are not part of the embedding. *)

From Stdlib Require Import ZArith List String Bool Lia Permutation.
Import ListNotations.
Open Scope string_scope.
Open Scope list_scope.
Open Scope Z_scope.

Set Implicit Arguments.

(** ** Python dictionaries

    A [dict] keeps its keys in insertion order; assigning to a key that is
    present keeps its position.  The broadcast order of the bus is the order
    of [_handler_cache.items()], so the order is part of the model. *)

Section Dict.
Variables (K V : Type).
Variable eqb : K -> K -> bool.

Fixpoint dict_get (k : K) (d : list (K * V)) : option V :=
  match d with
  | [] => None
  | (k', v) :: rest => if eqb k k' then Some v else dict_get k rest
  end.

Fixpoint dict_set (k : K) (v : V) (d : list (K * V)) : list (K * V) :=
  match d with
  | [] => [(k, v)]
  | (k', v') :: rest =>
      if eqb k k' then (k', v) :: rest else (k', v') :: dict_set k v rest
  end.

Fixpoint dict_pop (k : K) (d : list (K * V)) : list (K * V) :=
  match d with
  | [] => []
  | (k', v') :: rest =>
      if eqb k k' then rest else (k', v') :: dict_pop k rest
  end.

(** [d.update(other)] for a dictionary [other]. *)
Definition dict_merge (d other : list (K * V)) : list (K * V) :=
  fold_left (fun acc kv => dict_set (fst kv) (snd kv) acc) other d.
End Dict.

(** ** bus.py: messages *)

Definition BROADCAST : Z := -1.

Inductive Response : Type :=
  | R_OK | R_ERROR | R_DISPOSED
  | R_RESET | R_TERMINATE
  | R_CLEAR | R_FONT | R_VIS
  | R_GET | R_DATA.

(** Object identity of a [UIElement]. *)
Definition oid := nat.

(** Values that travel as [Packet.data] or sit in a node's [store]. *)
Inductive Atom : Type :=
  | ANone
  | AInt (z : Z)
  | ABool (b : bool)
  | AStr (s : string)
  | AFloat (millis : Z)
  | AInts (l : list Z)
  | AObj (o : oid)
  | AExt (tag : string).

Definition Dict := list (string * Atom).

Inductive PyVal : Type :=
  | VAtom (a : Atom)
  | VDict (d : Dict).

Record Packet : Type := mkPacket {
  receiver : Z;
  sender : Z;
  rs : Response;
  data : PyVal
}.

(** What [except Exception] catches. *)
Inductive Exc : Type :=
  | TypeError
  | ValueError
  | OtherError (what : string).

(** ** elements.py: the slots of a node *)

Inductive Class : Type :=
  | UIElement | UIRoot | UIFont | UIVisuals.

Definition class_name (c : Class) : string :=
  match c with
  | UIElement => "UIElement"
  | UIRoot => "UIRoot"
  | UIFont => "UIFont"
  | UIVisuals => "UIVisuals"
  end.

Record Rect : Type := mkRect { rx : Z; ry : Z; rwidth : Z; rheight : Z }.

Record Node : Type := mkNode {
  cls : Class;
  name : string;
  rect : Rect;
  parent : option oid;
  children : list oid;
  address : Z;
  visible : bool;
  redraw : bool;
  disposed : bool;
  passthrough : bool;
  cache : option oid;
  cache_r : option Rect;
  depth : Z;
  depth_max : Z;
  store : Dict;
  (* UIRoot only *)
  has_bus : bool;
  running : bool;
  fps : Z;
  bus_freq : Z;
  current_fps : Z;
  frame_count : Z
}.

Definition with_rect (v : Rect) (n : Node) : Node :=
  mkNode (cls n) (name n) v (parent n) (children n) (address n) (visible n)
    (redraw n) (disposed n) (passthrough n) (cache n) (cache_r n) (depth n)
    (depth_max n) (store n) (has_bus n) (running n) (fps n) (bus_freq n)
    (current_fps n) (frame_count n).

Definition with_parent (v : option oid) (n : Node) : Node :=
  mkNode (cls n) (name n) (rect n) v (children n) (address n) (visible n)
    (redraw n) (disposed n) (passthrough n) (cache n) (cache_r n) (depth n)
    (depth_max n) (store n) (has_bus n) (running n) (fps n) (bus_freq n)
    (current_fps n) (frame_count n).

Definition with_children (v : list oid) (n : Node) : Node :=
  mkNode (cls n) (name n) (rect n) (parent n) v (address n) (visible n)
    (redraw n) (disposed n) (passthrough n) (cache n) (cache_r n) (depth n)
    (depth_max n) (store n) (has_bus n) (running n) (fps n) (bus_freq n)
    (current_fps n) (frame_count n).

Definition with_address (v : Z) (n : Node) : Node :=
  mkNode (cls n) (name n) (rect n) (parent n) (children n) v (visible n)
    (redraw n) (disposed n) (passthrough n) (cache n) (cache_r n) (depth n)
    (depth_max n) (store n) (has_bus n) (running n) (fps n) (bus_freq n)
    (current_fps n) (frame_count n).

Definition with_redraw (v : bool) (n : Node) : Node :=
  mkNode (cls n) (name n) (rect n) (parent n) (children n) (address n)
    (visible n) v (disposed n) (passthrough n) (cache n) (cache_r n) (depth n)
    (depth_max n) (store n) (has_bus n) (running n) (fps n) (bus_freq n)
    (current_fps n) (frame_count n).

Definition with_disposed (v : bool) (n : Node) : Node :=
  mkNode (cls n) (name n) (rect n) (parent n) (children n) (address n)
    (visible n) (redraw n) v (passthrough n) (cache n) (cache_r n) (depth n)
    (depth_max n) (store n) (has_bus n) (running n) (fps n) (bus_freq n)
    (current_fps n) (frame_count n).

Definition with_cache (v : option oid) (n : Node) : Node :=
  mkNode (cls n) (name n) (rect n) (parent n) (children n) (address n)
    (visible n) (redraw n) (disposed n) (passthrough n) v (cache_r n) (depth n)
    (depth_max n) (store n) (has_bus n) (running n) (fps n) (bus_freq n)
    (current_fps n) (frame_count n).

Definition with_cache_r (v : option Rect) (n : Node) : Node :=
  mkNode (cls n) (name n) (rect n) (parent n) (children n) (address n)
    (visible n) (redraw n) (disposed n) (passthrough n) (cache n) v (depth n)
    (depth_max n) (store n) (has_bus n) (running n) (fps n) (bus_freq n)
    (current_fps n) (frame_count n).

Definition with_depth (v : Z) (n : Node) : Node :=
  mkNode (cls n) (name n) (rect n) (parent n) (children n) (address n)
    (visible n) (redraw n) (disposed n) (passthrough n) (cache n) (cache_r n) v
    (depth_max n) (store n) (has_bus n) (running n) (fps n) (bus_freq n)
    (current_fps n) (frame_count n).

Definition with_store (v : Dict) (n : Node) : Node :=
  mkNode (cls n) (name n) (rect n) (parent n) (children n) (address n)
    (visible n) (redraw n) (disposed n) (passthrough n) (cache n) (cache_r n)
    (depth n) (depth_max n) v (has_bus n) (running n) (fps n) (bus_freq n)
    (current_fps n) (frame_count n).

Definition with_running (v : bool) (n : Node) : Node :=
  mkNode (cls n) (name n) (rect n) (parent n) (children n) (address n)
    (visible n) (redraw n) (disposed n) (passthrough n) (cache n) (cache_r n)
    (depth n) (depth_max n) (store n) (has_bus n) v (fps n) (bus_freq n)
    (current_fps n) (frame_count n).

(** ** bus.py: the bus object

    A cached handler is the bound method [e.handle_message]; it is
    represented by the identity of [e].  The bound method holds a strong
    reference to [e], so an element with a cache entry is never collected
    and the weak reference stored next to it never dies. *)

Record AddressBus : Type := mkBus {
  _queue : list Packet;
  _elements : list (Z * oid);
  _handler_cache : list (Z * option oid);
  _next_addr : Z;
  _cleanup_count : Z;
  _processed : Z
}.

(** What [print] writes. *)
Inductive CompName : Type :=
  | CName (s : string)
  | CElementAt (addr : Z).

Inductive Line : Type :=
  | LRegister (who : string) (addr : Z)
  | LUnregister (who : string) (addr : Z)
  | LBroadcast (from : Z) (kind : Response)
  | LMessage (from to : Z) (kind : Response)
  | LError (comp : CompName) (kind : Response) (exc : Exc)
  | LParenting (who child : string) (child_depth : Z)
  | LSendingMetadata (who : string).

(** ** The world: object store, the bus of the root, standard output and
    the wall clock read by [time.time()]. *)

Record World : Type := mkWorld {
  nodes : oid -> Node;
  next_oid : oid;
  bus : AddressBus;
  stdout : list Line;
  now : Z
}.

Definition upd (o : oid) (f : Node -> Node) (w : World) : World :=
  mkWorld (fun o' => if Nat.eqb o' o then f (nodes w o') else nodes w o')
    (next_oid w) (bus w) (stdout w) (now w).

Definition upd_bus (f : AddressBus -> AddressBus) (w : World) : World :=
  mkWorld (nodes w) (next_oid w) (f (bus w)) (stdout w) (now w).

Definition print (l : Line) (w : World) : World :=
  mkWorld (nodes w) (next_oid w) (bus w) (stdout w ++ [l]) (now w).

Definition with_queue (v : list Packet) (b : AddressBus) : AddressBus :=
  mkBus v (_elements b) (_handler_cache b) (_next_addr b) (_cleanup_count b)
    (_processed b).

Definition with_elements (v : list (Z * oid)) (b : AddressBus) : AddressBus :=
  mkBus (_queue b) v (_handler_cache b) (_next_addr b) (_cleanup_count b)
    (_processed b).

Definition with_handler_cache (v : list (Z * option oid)) (b : AddressBus)
  : AddressBus :=
  mkBus (_queue b) (_elements b) v (_next_addr b) (_cleanup_count b)
    (_processed b).

Definition with_next_addr (v : Z) (b : AddressBus) : AddressBus :=
  mkBus (_queue b) (_elements b) (_handler_cache b) v (_cleanup_count b)
    (_processed b).

Definition with_processed (v : Z) (b : AddressBus) : AddressBus :=
  mkBus (_queue b) (_elements b) (_handler_cache b) (_next_addr b)
    (_cleanup_count b) v.

(** ** The monad of effectful code *)

Inductive Outcome (A : Type) : Type :=
  | Ok (w : World) (a : A)
  | Raise (w : World) (e : Exc)
  | Timeout.

Arguments Raise {A} w e.
Arguments Timeout {A}.

Definition M (A : Type) : Type := World -> Outcome A.

Definition ret {A} (a : A) : M A := fun w => Ok w a.

Definition bind {A B} (m : M A) (k : A -> M B) : M B :=
  fun w =>
    match m w with
    | Ok w' a => k a w'
    | Raise w' e => Raise w' e
    | Timeout => Timeout
    end.

Definition modify (f : World -> World) : M unit := fun w => Ok (f w) tt.

Definition raise {A} (e : Exc) : M A := fun w => Raise w e.

Definition timeout {A} : M A := fun _ => Timeout.

Notation "x <- m ;; k" := (bind m (fun x => k))
  (at level 61, m at next level, right associativity).
Notation "m ;;; k" := (bind m (fun _ => k))
  (at level 61, right associativity).

(** [for x in xs: body(x)] *)
Fixpoint for_each {A} (xs : list A) (body : A -> M unit) : M unit :=
  match xs with
  | [] => ret tt
  | x :: rest => body x ;;; for_each rest body
  end.

(** ** bus.py: [AddressBus] *)

Definition new_bus (cleanup_threshold : Z) : AddressBus :=
  mkBus [] [] [] 1 cleanup_threshold 0.

(** [register]: allocates an address on first registration only, stores the
    weak reference, prints, caches the bound [handle_message]. *)
Definition register (e : oid) (w : World) : World * Z :=
  let w1 :=
    if address (nodes w e) <? 0
    then upd_bus (with_next_addr (_next_addr (bus w) + 1))
           (upd e (with_address (_next_addr (bus w))) w)
    else w in
  let addr := address (nodes w1 e) in
  let w2 := upd_bus (fun b => with_elements (dict_set Z.eqb addr e (_elements b)) b) w1 in
  let w3 := print (LRegister (name (nodes w2 e)) addr) w2 in
  let w4 := upd_bus (fun b => with_handler_cache
                                (dict_set Z.eqb addr (Some e) (_handler_cache b)) b) w3 in
  (w4, addr).

Definition unregister (e : oid) (w : World) : World :=
  let addr := address (nodes w e) in
  let w1 := print (LUnregister (name (nodes w e)) addr) w in
  let w2 := upd_bus (fun b => with_elements (dict_pop Z.eqb addr (_elements b)) b) w1 in
  upd_bus (fun b => with_handler_cache (dict_pop Z.eqb addr (_handler_cache b)) b) w2.

Definition _write_debug (msg : Packet) (w : World) : World :=
  if receiver msg =? BROADCAST
  then print (LBroadcast (sender msg) (rs msg)) w
  else print (LMessage (sender msg) (receiver msg) (rs msg)) w.

(** [post] on the bus; it returns [True] always. *)
Definition bus_post (msg : Packet) (w : World) : World :=
  _write_debug msg (upd_bus (fun b => with_queue (_queue b ++ [msg]) b) w).

(** [ref() is None].  Elements are registered together with their bound
    handler, which keeps them alive: no registered element is collected. *)
Definition collected (w : World) (o : oid) : bool := false.

Definition _cleanup (w : World) : World :=
  fold_left
    (fun w' (item : Z * oid) =>
       if collected w' (snd item)
       then upd_bus (fun b => with_handler_cache
                                (dict_pop Z.eqb (fst item) (_handler_cache b))
                                (with_elements (dict_pop Z.eqb (fst item) (_elements b)) b))
              w'
       else w')
    (_elements (bus w)) w.

Definition clear (w : World) : World := upd_bus (with_queue []) w.

(** One call of [_call_handler], kept for the statements about [pump]: the
    address, the handler, the message and whether the handler returned
    ([true]) or raised ([false]). *)
Record Delivery : Type := mkDelivery {
  d_addr : Z;
  d_handler : oid;
  d_msg : Packet;
  d_ok : bool
}.

Section Pump.

(** Calling a cached handler: any callable, reading and writing the world,
    returning, raising or not coming back. *)
Variable invoke : oid -> Packet -> M unit.

Definition comp_name (w : World) (addr : Z) : CompName :=
  match dict_get Z.eqb addr (_elements (bus w)) with
  | Some comp => CName (name (nodes w comp))
  | None => CElementAt addr
  end.

(** [try: handler(msg) except Exception as exc: print(...)] *)
Definition _call_handler (handler : oid) (msg : Packet) (addr : Z) : M unit :=
  fun w =>
    match invoke handler msg w with
    | Ok w' _ => Ok w' tt
    | Raise w' exc => Ok (print (LError (comp_name w' addr) (rs msg) exc) w') tt
    | Timeout => Timeout
    end.

(** The inner loop of a broadcast, over the copied [items()]. *)
Fixpoint pump_broadcast (items : list (Z * option oid)) (msg : Packet)
    (processed : Z) : M Z :=
  match items with
  | [] => ret processed
  | (addr, Some handler) :: rest =>
      _call_handler handler msg addr ;;;
      pump_broadcast rest msg (processed + 1)
  | (addr, None) :: rest => pump_broadcast rest msg processed
  end.

(** The loop over the detached messages. *)
Fixpoint pump_messages (messages : list Packet) (processed : Z) : M Z :=
  match messages with
  | [] => ret processed
  | msg :: rest =>
      fun w =>
        if receiver msg =? BROADCAST then
          (p <- pump_broadcast (_handler_cache (bus w)) msg processed ;;
           pump_messages rest p) w
        else
          match dict_get Z.eqb (receiver msg) (_handler_cache (bus w)) with
          | Some (Some handler) =>
              (_call_handler handler msg (receiver msg) ;;;
               pump_messages rest (processed + 1)) w
          | _ => pump_messages rest processed w
          end
  end.

Definition pump : M Z :=
  fun w =>
    match _queue (bus w) with
    | [] => Ok w 0
    | messages =>
        (processed <- pump_messages messages 0 ;;
         modify (fun w1 =>
           let w2 := upd_bus (fun b => with_processed (_processed b + processed) b) w1 in
           if _cleanup_count (bus w2) <=? _processed (bus w2)
           then upd_bus (with_processed 0) (_cleanup w2)
           else w2) ;;;
         ret processed) (upd_bus (with_queue []) w)
    end.

(** The same two loops, returning the calls of [_call_handler] they make
    instead of their number. *)
Definition call_logged (handler : oid) (msg : Packet) (addr : Z)
  : M Delivery :=
  fun w =>
    match invoke handler msg w with
    | Ok w' _ => Ok w' (mkDelivery addr handler msg true)
    | Raise w' exc =>
        Ok (print (LError (comp_name w' addr) (rs msg) exc) w')
          (mkDelivery addr handler msg false)
    | Timeout => Timeout
    end.

Fixpoint broadcast_log (items : list (Z * option oid)) (msg : Packet)
  : M (list Delivery) :=
  match items with
  | [] => ret []
  | (addr, Some handler) :: rest =>
      d <- call_logged handler msg addr ;;
      ds <- broadcast_log rest msg ;;
      ret (d :: ds)
  | (addr, None) :: rest => broadcast_log rest msg
  end.

(** The calls made for one message: the body of the outer loop. *)
Definition deliver_log (msg : Packet) : M (list Delivery) :=
  fun w =>
    if receiver msg =? BROADCAST then
      broadcast_log (_handler_cache (bus w)) msg w
    else
      match dict_get Z.eqb (receiver msg) (_handler_cache (bus w)) with
      | Some (Some handler) =>
          (d <- call_logged handler msg (receiver msg) ;; ret [d]) w
      | _ => Ok w []
      end.

Fixpoint messages_log (messages : list Packet) : M (list Delivery) :=
  match messages with
  | [] => ret []
  | msg :: rest =>
      ds <- deliver_log msg ;;
      ds' <- messages_log rest ;;
      ret (ds ++ ds')
  end.

(** The deliveries of one [pump()]. *)
Definition pump_log : M (list Delivery) :=
  fun w => messages_log (_queue (bus w)) (upd_bus (with_queue []) w).

End Pump.

(** ** elements.py: [UIElement]

    The recursions of this class follow the [children] and [parent] links
    of the object store.  They take a budget [fuel]: one unit per level of
    the tree they descend or climb, and per nested call of [destroy] or
    [handle_message]. *)

Definition is_root_class (c : Class) : bool :=
  match c with UIRoot => true | _ => false end.

Fixpoint list_remove (x : oid) (l : list oid) : list oid :=
  match l with
  | [] => []
  | y :: rest => if Nat.eqb x y then rest else y :: list_remove x rest
  end.

Definition is_in (x : oid) (l : list oid) : bool := existsb (Nat.eqb x) l.

Definition same_obj (a : option oid) (b : oid) : bool :=
  match a with Some a' => Nat.eqb a' b | None => false end.

Fixpoint _update_depth (fuel : nat) (self : oid) (new_depth : Z) : M unit :=
  fun w =>
    let depth_change := new_depth - depth (nodes w self) in
    (modify (upd self (with_depth new_depth)) ;;;
     for_each (children (nodes w self))
       (fun child =>
          match fuel with
          | O => timeout
          | S f => fun w' =>
              _update_depth f child (depth (nodes w' child) + depth_change) w'
          end)) w.

Fixpoint reset_graphics (fuel : nat) (self : oid) (recursive : bool) : M unit :=
  modify (upd self (fun n => with_cache_r None (with_redraw true n))) ;;;
  if recursive then
    fun w =>
      for_each (children (nodes w self))
        (fun child =>
           match fuel with
           | O => timeout
           | S f => reset_graphics f child recursive
           end) w
  else ret tt.

Fixpoint reset (fuel : nat) (self : oid) : M unit :=
  reset_graphics fuel self false ;;;
  modify (upd self (with_cache None)) ;;;
  (* reset_branch *)
  fun w =>
    for_each (children (nodes w self))
      (fun child =>
         match fuel with
         | O => timeout
         | S f => reset f child
         end) w.

Fixpoint reset_db (fuel : nat) (self : oid) (recursive : bool) : M unit :=
  modify (upd self (with_store [])) ;;;
  if recursive then
    fun w =>
      for_each (children (nodes w self))
        (fun child =>
           match fuel with
           | O => timeout
           | S f => reset_db f child recursive
           end) w
  else ret tt.

(** [while node.parent is not None: node = node.parent] *)
Fixpoint root_walk (fuel : nat) (node : oid) (w : World) : option oid :=
  match parent (nodes w node) with
  | None => Some node
  | Some p =>
      match fuel with
      | O => None
      | S f => root_walk f p w
      end
  end.

Definition UIElement_root (fuel : nat) (self : oid) : M oid :=
  fun w =>
    match cache (nodes w self) with
    | Some r => Ok w r
    | None =>
        match root_walk fuel self w with
        | Some node => Ok (upd self (with_cache (Some node)) w) node
        | None => Timeout
        end
    end.

(** [UIRoot.root] returns [self]. *)
Definition root (fuel : nat) (self : oid) : M oid :=
  fun w =>
    if is_root_class (cls (nodes w self)) then Ok w self
    else UIElement_root fuel self w.

(** [hasattr(rt, "bus") and rt.bus is not None] *)
Definition connected (rt : oid) (w : World) : bool := has_bus (nodes w rt).

Definition UIElement_get_metadata (self : oid) (w : World) : Dict :=
  let n := nodes w self in
  let metadata :=
    [ ("name", AStr (name n));
      ("type", AStr (class_name (cls n)));
      ("address", AInt (address n));
      ("timeframe", AFloat (now w));
      ("x", AInt (rx (rect n)));
      ("y", AInt (ry (rect n)));
      ("width", AInt (rwidth (rect n)));
      ("height", AInt (rheight (rect n)));
      ("visible", ABool (visible n));
      ("passthrough", ABool (passthrough n));
      ("disposed", ABool (disposed n));
      ("length", AInt (Z.of_nat (List.length (children n))));
      ("container", AInts (map (fun c => address (nodes w c)) (children n))) ] in
  match parent n with
  | Some p => dict_set String.eqb "parent:address" (AInt (address (nodes w p))) metadata
  | None => metadata
  end.

Definition UIRoot_get_metadata (self : oid) (w : World) : Dict :=
  let n := nodes w self in
  let md := UIElement_get_metadata self w in
  let md := dict_set String.eqb "fps" (AInt (fps n)) md in
  let md := dict_set String.eqb "bus_freq" (AFloat (bus_freq n)) md in
  let md := dict_set String.eqb "current_fps" (AFloat (current_fps n)) md in
  dict_set String.eqb "frame_count" (AInt (frame_count n)) md.

Definition get_metadata (self : oid) (w : World) : Dict :=
  if is_root_class (cls (nodes w self)) then UIRoot_get_metadata self w
  else UIElement_get_metadata self w.

Definition UIElement_add (fuel : nat) (self child : oid) : M unit :=
  fun w =>
    if Nat.eqb child self || same_obj (parent (nodes w child)) self then Ok w tt
    else if depth (nodes w child) <? depth_max (nodes w self) then
      (modify (upd self (fun n => with_children (children n ++ [child]) n)) ;;;
       modify (upd child (with_parent (Some self))) ;;;
       (fun w1 => _update_depth fuel child (depth (nodes w1 self) + 1) w1) ;;;
       modify (fun w1 => print (LParenting (name (nodes w1 self))
                                   (name (nodes w1 child))
                                   (depth (nodes w1 child))) w1) ;;;
       reset fuel self ;;;
       rt <- root fuel self ;;
       fun w1 =>
         if connected rt w1 then Ok (fst (register child w1)) tt else Ok w1 tt) w
    else Ok w tt.

Definition UIRoot_add (fuel : nat) (self child : oid) : M unit :=
  UIElement_add fuel self child ;;;
  modify (upd child (with_parent (Some self))).

Definition add (fuel : nat) (self child : oid) : M unit :=
  fun w =>
    if is_root_class (cls (nodes w self)) then UIRoot_add fuel self child w
    else UIElement_add fuel self child w.

Definition remove (fuel : nat) (self child : oid) : M unit :=
  fun w =>
    if is_in child (children (nodes w self)) then
      (modify (upd self (fun n => with_children (list_remove child (children n)) n)) ;;;
       modify (upd child (with_parent None)) ;;;
       reset fuel self) w
    else Ok w tt.

(** [self.store.update(msg.data)]: a dictionary is merged, an empty
    sequence changes nothing, anything else is refused by [dict.update]. *)
Definition store_update (d : Dict) (v : PyVal) : Exc + Dict :=
  match v with
  | VDict other => inr (dict_merge String.eqb d other)
  | VAtom (AInts []) => inr d
  | VAtom (AStr EmptyString) => inr d
  | VAtom (AStr _) => inl ValueError
  | VAtom _ => inl TypeError
  end.

Section Methods.

(** The methods below call each other through the bus: [destroy] posts
    with priority, the pump calls [handle_message], which calls [destroy].
    [handle_rec] and [destroy_rec] are those two methods with one unit of
    budget less. *)
Variable handle_rec : oid -> Packet -> M unit.
Variable destroy_rec : oid -> M unit.
Variable fuel : nat.

Definition post (self : oid) (recv : Z) (resp : Response)
    (attachment : PyVal) (priority : bool) : M unit :=
  rt <- root fuel self ;;
  fun w =>
    if connected rt w then
      let packet := mkPacket recv (address (nodes w self)) resp attachment in
      (modify (bus_post packet) ;;;
       if priority then pump handle_rec ;;; ret tt else ret tt) w
    else Ok w tt.

Definition UIElement_destroy (self : oid) : M unit :=
  fun w =>
    if disposed (nodes w self) then Ok w tt
    else
      (for_each (children (nodes w self)) destroy_rec ;;;
       rt <- root fuel self ;;
       (fun w1 => if connected rt w1 then Ok (unregister self w1) tt else Ok w1 tt) ;;;
       post self BROADCAST R_DISPOSED (VAtom (AObj self)) true ;;;
       modify (upd self (with_disposed true)) ;;;
       (fun w1 =>
          match parent (nodes w1 self) with
          | Some p => remove fuel p self w1
          | None => Ok w1 tt
          end) ;;;
       modify (upd self (with_children [])) ;;;
       modify (upd self (with_parent None))) w.

Definition UIRoot_destroy (self : oid) : M unit :=
  post self BROADCAST R_CLEAR (VAtom ANone) true ;;;
  post self BROADCAST R_RESET (VAtom ANone) true ;;;
  post self BROADCAST R_TERMINATE (VAtom ANone) true ;;;
  modify (upd self (with_running false)).

Definition destroy_body (self : oid) : M unit :=
  fun w =>
    if is_root_class (cls (nodes w self)) then UIRoot_destroy self w
    else UIElement_destroy self w.

(** [UIRoot.handle_message] only calls this one. *)
Definition handle_message_body (self : oid) (msg : Packet) : M unit :=
  fun w =>
    if disposed (nodes w self) || (sender msg =? address (nodes w self))
    then Ok w tt
    else
      match rs msg with
      | R_GET =>
          (modify (print (LSendingMetadata (name (nodes w self)))) ;;;
           fun w1 => post self (sender msg) R_DATA
                       (VDict (get_metadata self w1)) false w1) w
      | R_FONT | R_VIS =>
          match store_update (store (nodes w self)) (data msg) with
          | inr d => Ok (upd self (with_store d) w) tt
          | inl e => Raise w e
          end
      | R_RESET => reset fuel self w
      | R_TERMINATE => destroy_rec self w
      | R_CLEAR => reset_db fuel self false w
      | _ => Ok w tt
      end.

End Methods.

Fixpoint destroy (fuel : nat) (self : oid) {struct fuel} : M unit :=
  match fuel with
  | O => timeout
  | S f => destroy_body (handle_message f) (destroy f) f self
  end
with handle_message (fuel : nat) (self : oid) (msg : Packet) {struct fuel} : M unit :=
  match fuel with
  | O => timeout
  | S f => handle_message_body (handle_message f) (destroy f) f self msg
  end.

(** [root.bus.pump()] as the frame loop calls it. *)
Definition bus_pump (fuel : nat) : M Z := pump (handle_message fuel).

Definition bus_pump_log (fuel : nat) : M (list Delivery) :=
  pump_log (handle_message fuel).

(** [self.post(...)] from outside a handler. *)
Definition element_post (fuel : nat) (self : oid) (recv : Z) (resp : Response)
    (attachment : PyVal) (priority : bool) : M unit :=
  post (handle_message fuel) fuel self recv resp attachment priority.

(** ** The geometry setters *)

Definition set_x (fuel : nat) (self : oid) (value : Z) : M unit :=
  modify (upd self (fun n =>
    with_rect (mkRect value (ry (rect n)) (rwidth (rect n)) (rheight (rect n))) n)) ;;;
  reset_graphics fuel self true ;;;
  reset fuel self.

Definition set_y (fuel : nat) (self : oid) (value : Z) : M unit :=
  modify (upd self (fun n =>
    with_rect (mkRect (rx (rect n)) value (rwidth (rect n)) (rheight (rect n))) n)) ;;;
  reset_graphics fuel self true ;;;
  reset fuel self.

Definition set_width (fuel : nat) (self : oid) (value : Z) : M unit :=
  modify (upd self (fun n =>
    with_rect (mkRect (rx (rect n)) (ry (rect n)) (Z.max 1 value) (rheight (rect n))) n)) ;;;
  reset_graphics fuel self true ;;;
  reset fuel self.

Definition set_height (fuel : nat) (self : oid) (value : Z) : M unit :=
  modify (upd self (fun n =>
    with_rect (mkRect (rx (rect n)) (ry (rect n)) (rwidth (rect n)) (Z.max 1 value)) n)) ;;;
  reset_graphics fuel self true ;;;
  reset fuel self.

Definition set_position (fuel : nat) (self : oid) (value : Z * Z) : M unit :=
  modify (upd self (fun n =>
    with_rect (mkRect (fst value) (snd value) (rwidth (rect n)) (rheight (rect n))) n)) ;;;
  reset_graphics fuel self true ;;;
  reset fuel self.

Definition set_size (fuel : nat) (self : oid) (value : Z * Z) : M unit :=
  modify (upd self (fun n =>
    with_rect (mkRect (rx (rect n)) (ry (rect n))
                 (Z.max 1 (fst value)) (Z.max 1 (snd value))) n)) ;;;
  reset_graphics fuel self true ;;;
  reset fuel self.

(** The six mutating accessors as one type. *)
Inductive Setter : Type :=
  | SetX (value : Z)
  | SetY (value : Z)
  | SetWidth (value : Z)
  | SetHeight (value : Z)
  | SetPosition (value : Z * Z)
  | SetSize (value : Z * Z).

Definition apply_setter (fuel : nat) (self : oid) (s : Setter) : M unit :=
  match s with
  | SetX v => set_x fuel self v
  | SetY v => set_y fuel self v
  | SetWidth v => set_width fuel self v
  | SetHeight v => set_height fuel self v
  | SetPosition v => set_position fuel self v
  | SetSize v => set_size fuel self v
  end.

(** ** Constructors *)

(** [UIChassis.__init__] after [UIElement.__init__] has set the name. *)
Definition fresh_node (c : Class) (x y width height : Z) : Node :=
  mkNode c "UIElement" (mkRect x y width height) None [] (-1) true true false
    false None None 0 255 [] false false 0 0 0 0.

Definition alloc (n : Node) (w : World) : World * oid :=
  (mkWorld (fun o => if Nat.eqb o (next_oid w) then n else nodes w o)
     (S (next_oid w)) (bus w) (stdout w) (now w),
   next_oid w).

Definition new_UIElement (x y width height : Z) (w : World) : World * oid :=
  alloc (fresh_node UIElement x y width height) w.

(** [UIRoot.__init__]: creates the bus and registers itself on it. *)
Definition new_UIRoot (width height fps_ bus_freq_ : Z) (w : World) : World * oid :=
  let n := fresh_node UIRoot 0 0 width height in
  let n := mkNode (cls n) "UIRoot" (rect n) (parent n) (children n) (address n)
             (visible n) (redraw n) (disposed n) (passthrough n) (cache n)
             (cache_r n) (depth n) (depth_max n) (store n)
             true false fps_ bus_freq_ 0 0 in
  let (w1, self) := alloc n w in
  let w2 := upd_bus (fun _ => new_bus 1000) w1 in
  (fst (register self w2), self).

Definition blank : World :=
  mkWorld (fun _ => fresh_node UIElement 0 0 1 1) 0%nat (new_bus 1000) [] 0.

(** ** elements.py: geometry, z-order and the local store *)

(** [get_absolute_rect]: the local rect moved by the absolute position of
    the parent, kept in [cache_r] until the next [reset]. *)
Fixpoint get_absolute_rect (fuel : nat) (self : oid) : M Rect :=
  fun w =>
    match cache_r (nodes w self) with
    | Some r => Ok w r
    | None =>
        let x := rx (rect (nodes w self)) in
        let y := ry (rect (nodes w self)) in
        (xy <- match parent (nodes w self) with
               | Some p =>
                   match fuel with
                   | O => timeout
                   | S f =>
                       p_abs <- get_absolute_rect f p ;;
                       ret (x + rx p_abs, y + ry p_abs)
                   end
               | None => ret (x, y)
               end ;;
         fun w1 =>
           let r := mkRect (fst xy) (snd xy)
                      (rwidth (rect (nodes w1 self)))
                      (rheight (rect (nodes w1 self))) in
           Ok (upd self (with_cache_r (Some r)) w1) r) w
    end.

(** [bring_to_front]; [lst.remove(self)] raises [ValueError] when the
    parent does not list the node, and the method swallows it. *)
Definition bring_to_front (fuel : nat) (self : oid) : M unit :=
  fun w =>
    match parent (nodes w self) with
    | None => Ok w tt
    | Some p =>
        if is_in self (children (nodes w p)) then
          (modify (upd p (fun n =>
             with_children (list_remove self (children n) ++ [self]) n)) ;;;
           reset fuel p) w
        else Ok w tt
    end.

Definition send_to_back (fuel : nat) (self : oid) : M unit :=
  fun w =>
    match parent (nodes w self) with
    | None => Ok w tt
    | Some p =>
        if is_in self (children (nodes w p)) then
          (modify (upd p (fun n =>
             with_children (self :: list_remove self (children n)) n)) ;;;
           reset fuel p) w
        else Ok w tt
    end.

Definition has_local (self : oid) (name_ : string) (w : World) : bool :=
  match dict_get String.eqb name_ (store (nodes w self)) with
  | Some _ => true
  | None => false
  end.

(** [read_local] answers [None] for a name that is not in the store. *)
Definition read_local (self : oid) (name_ : string) (w : World) : Atom :=
  match dict_get String.eqb name_ (store (nodes w self)) with
  | Some v => v
  | None => ANone
  end.

Definition write_local (self : oid) (name_ : string) (value : Atom) (w : World)
  : World :=
  upd self (fun n => with_store (dict_set String.eqb name_ value (store n)) n) w.

Definition get_db_length (self : oid) (w : World) : Z :=
  Z.of_nat (List.length (store (nodes w self))).

(** ** core.py: [UIVisuals] *)

Definition new_UIVisuals (w : World) : World * oid :=
  let n := fresh_node UIVisuals 1 1 10 10 in
  alloc (mkNode (cls n) "UIVisuals" (rect n) (parent n) (children n)
           (address n) false (redraw n) (disposed n) (passthrough n)
           (cache n) (cache_r n) (depth n) (depth_max n) (store n)
           (has_bus n) (running n) (fps n) (bus_freq n) (current_fps n)
           (frame_count n)) w.

(** The palette [UIVisuals.initialize] writes, in the order of its
    assignments. *)
Definition palette : Dict :=
  [ ("frame.active", AInts [0; 60; 116]);
    ("frame.inactive", AInts [161; 161; 146]);
    ("frame.border", AInts [200; 200; 146]);
    ("font.color", AInts [255; 255; 255]);
    ("bevel.high", AInts [255; 255; 255]);
    ("bevel.face", AInts [236; 233; 216]);
    ("bevel.shadow", AInts [172; 168; 153]);
    ("bevel.dark", AInts [128; 128; 112]);
    ("title.active", AInts [0; 60; 116]);
    ("title.inactive", AInts [161; 161; 146]);
    ("title.text", AInts [255; 255; 255]);
    ("content.bg", AInts [236; 233; 216]);
    ("button.face", AInts [236; 233; 216]);
    ("button.hover", AInts [220; 220; 205]);
    ("button.pressed", AInts [180; 180; 170]);
    ("button.disabled", AInts [200; 200; 200]);
    ("button.text", AInts [0; 0; 0]);
    ("button.text.disabled", AInts [128; 128; 128]);
    ("input.bg", AInts [255; 255; 255]);
    ("input.border", AInts [128; 128; 112]);
    ("input.text", AInts [0; 0; 0]);
    ("input.placeholder", AInts [160; 160; 160]);
    ("selection.bg", AInts [0; 60; 116]);
    ("selection.text", AInts [255; 255; 255]) ].

(** [UIVisuals.initialize]: the assignments [self.store[k] = v], then the
    announcement with the store as attachment. *)
Definition UIVisuals_initialize (fuel : nat) (self : oid) : M unit :=
  modify (fun w =>
    fold_left (fun w' kv => write_local self (fst kv) (snd kv) w') palette w) ;;;
  fun w =>
    element_post fuel self BROADCAST R_VIS (VDict (store (nodes w self))) false w.

(** * Vocabulary of the statements *)

(** Number of deliveries whose handler returned. *)
Definition successes (ds : list Delivery) : Z :=
  Z.of_nat (List.length (filter d_ok ds)).

(** The handlers of a copied [items()], in order. *)
Fixpoint cached_handlers (items : list (Z * option oid)) : list (Z * oid) :=
  match items with
  | [] => []
  | (addr, Some h) :: rest => (addr, h) :: cached_handlers rest
  | (addr, None) :: rest => cached_handlers rest
  end.

Definition target (d : Delivery) : Z * oid := (d_addr d, d_handler d).

(** Some call of a handler does not come back. *)
Definition diverges (invoke : oid -> Packet -> M unit) : Prop :=
  exists h m w, invoke h m w = Timeout.

(** Whom [pump] has to call for one message, given the cache at the moment
    the message is taken up. *)
Definition targets (msg : Packet) (w : World) : list (Z * oid) :=
  if receiver msg =? BROADCAST then cached_handlers (_handler_cache (bus w))
  else
    match dict_get Z.eqb (receiver msg) (_handler_cache (bus w)) with
    | Some (Some handler) => [(receiver msg, handler)]
    | _ => []
    end.

(** Starting in [w], every message of [messages] in turn had all its
    targets called; [ds] are the calls and [w'] the world they leave. *)
Fixpoint all_dispatched (invoke : oid -> Packet -> M unit)
    (messages : list Packet) (w : World) (ds : list Delivery) (w' : World)
  : Prop :=
  match messages with
  | [] => ds = [] /\ w' = w
  | msg :: rest =>
      exists w1 ds1 ds2,
        deliver_log invoke msg w = Ok w1 ds1 /\
        map target ds1 = targets msg w /\
        Forall (fun d => d_msg d = msg) ds1 /\
        ds = ds1 ++ ds2 /\
        all_dispatched invoke rest w1 ds2 w'
  end.

(** Running a call for its effect on the world. *)
Definition run {A} (m : M A) (w : World) : World :=
  match m w with
  | Ok w' _ => w'
  | Raise w' _ => w'
  | Timeout => w
  end.

(** A root with the children [a] (object 1, which has the child [c],
    object 3) and [b] (object 2), built as [app.py] builds its tree.  The
    addresses are 1 for the root, 2 for [a], 3 for [b] and 4 for [c]. *)
Definition demo_tree : World :=
  let (w, r) := new_UIRoot 800 600 60 300 blank in
  let (w, a) := new_UIElement 10 10 100 50 w in
  let (w, b) := new_UIElement 20 20 100 50 w in
  let (w, c) := new_UIElement 5 5 10 10 w in
  let w := run (add 5 r a) w in
  let w := run (add 5 r b) w in
  run (add 5 a c) w.

(** [b] announces a font without attaching one: [b.post(BROADCAST, R_FONT)]. *)
Definition font_without_payload : World :=
  run (element_post 5 2%nat BROADCAST R_FONT (VAtom ANone) false) demo_tree.

(** The root sends [R_TERMINATE] to everybody, not yet pumped. *)
Definition terminate_pending : World :=
  run (element_post 5 0%nat BROADCAST R_TERMINATE (VAtom ANone) false) demo_tree.

(** The root that [root()] finds, without the memo it leaves behind. *)
Definition find_root (fuel : nat) (self : oid) (w : World) : option oid :=
  if is_root_class (cls (nodes w self)) then Some self
  else
    match cache (nodes w self) with
    | Some r => Some r
    | None => root_walk fuel self w
    end.

(** A dictionary value is a reference to an element. *)
Definition is_object (a : Atom) : bool :=
  match a with AObj _ => true | _ => false end.

(** [a] (address 2) asks the root (address 1) for its metadata. *)
Definition get_pending : World :=
  run (element_post 5 1%nat 1 R_GET (VAtom ANone) false) demo_tree.

(** Three detached elements, objects 0, 1 and 2. *)
Definition three_elements : World :=
  let (w, p1) := new_UIElement 0 0 128 64 blank in
  let (w, p2) := new_UIElement 0 0 128 64 w in
  fst (new_UIElement 0 0 128 64 w).

(** [b] (address 3) sends [R_TERMINATE] to [a] (address 2), not yet pumped. *)
Definition terminate_a_pending : World :=
  run (element_post 5 2%nat 2 R_TERMINATE (VAtom ANone) false) demo_tree.

(** The subtree of [n] has at most [k] levels below [n]. *)
Fixpoint height_le (k : nat) (w : World) (n : oid) : Prop :=
  match k with
  | O => children (nodes w n) = []
  | S k' => forall c, In c (children (nodes w n)) -> height_le k' w c
  end.

(** [n] has at most [k] ancestors. *)
Fixpoint up_le (k : nat) (w : World) (n : oid) : Prop :=
  match parent (nodes w n) with
  | None => True
  | Some p =>
      match k with
      | O => False
      | S k' => up_le k' w p
      end
  end.

(** [m] is [n] or below it. *)
Inductive reach (w : World) : oid -> oid -> Prop :=
  | reach_self n : reach w n n
  | reach_child n c m :
      In c (children (nodes w n)) -> reach w c m -> reach w n m.

(** A node without the three slots that [reset] writes. *)
Definition strip (n : Node) : Node :=
  with_cache None (with_cache_r None (with_redraw true n)).

(** From [w] to [w'] only caches were dropped: nothing but [cache],
    [cache_r] and [redraw] differs, and no [cache_r] was filled. *)
Definition invalidates (w w' : World) : Prop :=
  bus w' = bus w /\ stdout w' = stdout w /\
  forall o,
    strip (nodes w' o) = strip (nodes w o) /\
    (cache_r (nodes w o) = None -> cache_r (nodes w' o) = None).

(** The value a setter stores, given the rect before. *)
Definition stored_rect (s : Setter) (r : Rect) : Rect :=
  match s with
  | SetX v => mkRect v (ry r) (rwidth r) (rheight r)
  | SetY v => mkRect (rx r) v (rwidth r) (rheight r)
  | SetWidth v => mkRect (rx r) (ry r) (Z.max 1 v) (rheight r)
  | SetHeight v => mkRect (rx r) (ry r) (rwidth r) (Z.max 1 v)
  | SetPosition v => mkRect (fst v) (snd v) (rwidth r) (rheight r)
  | SetSize v => mkRect (rx r) (ry r) (Z.max 1 (fst v)) (Z.max 1 (snd v))
  end.

(** Which dimensions a setter writes. *)
Definition width_written (s : Setter) : bool :=
  match s with SetWidth _ | SetSize _ => true | _ => false end.

Definition height_written (s : Setter) : bool :=
  match s with SetHeight _ | SetSize _ => true | _ => false end.

(** [height_le] and [up_le], decided. *)
Fixpoint height_leb (k : nat) (w : World) (n : oid) : bool :=
  match k with
  | O => match children (nodes w n) with [] => true | _ => false end
  | S k' => forallb (height_leb k' w) (children (nodes w n))
  end.

Fixpoint up_leb (k : nat) (w : World) (n : oid) : bool :=
  match parent (nodes w n) with
  | None => true
  | Some p =>
      match k with
      | O => false
      | S k' => up_leb k' w p
      end
  end.

(** No message is waiting: the state between two frames. *)
Definition settled (w : World) : Prop := _queue (bus w) = [].

(** From [w] to [w'] the tree has only lost links: classes, addresses and
    bus attributes are the same, each [children] list of [w'] is within the
    one of [w], a [parent] is kept or dropped, and [disposed] is kept. *)
Definition shrinks (w w' : World) : Prop :=
  forall o,
    cls (nodes w' o) = cls (nodes w o) /\
    address (nodes w' o) = address (nodes w o) /\
    has_bus (nodes w' o) = has_bus (nodes w o) /\
    incl (children (nodes w' o)) (children (nodes w o)) /\
    (parent (nodes w' o) = parent (nodes w o) \/ parent (nodes w' o) = None) /\
    (disposed (nodes w o) = true -> disposed (nodes w' o) = true).

(** Every node has at most [H] levels below it and at most [H] above. *)
Definition bounded (H : nat) (w : World) : Prop :=
  forall o, height_le H w o /\ up_le H w o.

(** No [UIRoot] at [n] or below: [destroy] is [UIElement.destroy] there. *)
Definition plain_below (w : World) (n : oid) : Prop :=
  forall m, reach w n m -> is_root_class (cls (nodes w m)) = false.

(** The addresses of the handler cache are distinct, as the keys of a
    Python dictionary are. *)
Definition unique_keys (w : World) : Prop :=
  NoDup (map fst (_handler_cache (bus w))).

(** From [w] to [w'] the handler cache has only lost entries. *)
Definition cache_shrinks (w w' : World) : Prop :=
  unique_keys w ->
  unique_keys w' /\
  forall a,
    dict_get Z.eqb a (_handler_cache (bus w')) = None \/
    dict_get Z.eqb a (_handler_cache (bus w'))
      = dict_get Z.eqb a (_handler_cache (bus w)).

(** [w'] comes after [w] in a tear-down. *)
Definition later (w w' : World) : Prop := shrinks w w' /\ cache_shrinks w w'.

(** [plain_below], decided down to [k] levels. *)
Fixpoint plain_belowb (k : nat) (w : World) (n : oid) : bool :=
  negb (is_root_class (cls (nodes w n))) &&
  match k with
  | O => true
  | S k' => forallb (plain_belowb k' w) (children (nodes w n))
  end.

(** A call moves the world only to a [later] one, whether it returns or
    raises. *)
Definition keeps {A} (m : M A) : Prop :=
  forall w,
    match m w with
    | Ok w' _ => later w w'
    | Raise w' _ => later w w'
    | Timeout => True
    end.

(** A call never lets an exception out. *)
Definition quiet {A} (m : M A) : Prop :=
  forall w, match m w with Raise _ _ => False | _ => True end.

(** Two worlds that differ at most in the counter [_processed]. *)
Definition agree (w1 w2 : World) : Prop :=
  nodes w1 = nodes w2 /\ stdout w1 = stdout w2 /\
  _queue (bus w1) = _queue (bus w2) /\
  _handler_cache (bus w1) = _handler_cache (bus w2) /\
  _elements (bus w1) = _elements (bus w2) /\
  _next_addr (bus w1) = _next_addr (bus w2).

(** The address discipline of the bus: the allocator is positive; a node
    has no address ([-1]) or one below the allocator; no two nodes share an
    address; registry and handler cache have distinct keys and map a
    positive address to the node that carries it. *)
Definition addresses_ok (w : World) : Prop :=
  1 <= _next_addr (bus w) /\
  (forall o, address (nodes w o) = -1 \/
             1 <= address (nodes w o) < _next_addr (bus w)) /\
  (forall o1 o2, 1 <= address (nodes w o1) ->
                 address (nodes w o1) = address (nodes w o2) -> o1 = o2) /\
  NoDup (map fst (_elements (bus w))) /\
  NoDup (map fst (_handler_cache (bus w))) /\
  (forall a o, dict_get Z.eqb a (_elements (bus w)) = Some o ->
               1 <= a /\ address (nodes w o) = a) /\
  (forall a o, dict_get Z.eqb a (_handler_cache (bus w)) = Some (Some o) ->
               1 <= a /\ address (nodes w o) = a).

(** The node is on the bus: registry and cache have it at its address. *)
Definition registered (e : oid) (w : World) : Prop :=
  dict_get Z.eqb (address (nodes w e)) (_elements (bus w)) = Some e /\
  dict_get Z.eqb (address (nodes w e)) (_handler_cache (bus w)) = Some (Some e).

(** The address of the node is in neither table. *)
Definition unlisted (e : oid) (w : World) : Prop :=
  ~ In (address (nodes w e)) (map fst (_elements (bus w))) /\
  ~ In (address (nodes w e)) (map fst (_handler_cache (bus w))).

(** Every waiting message is a metadata answer. *)
Definition only_data (w : World) : Prop :=
  Forall (fun m => rs m = R_DATA) (_queue (bus w)).

(** A call that keeps [only_data], whether it returns or raises. *)
Definition keeps_only_data {A} (m : M A) : Prop :=
  forall w, only_data w ->
    match m w with
    | Ok w' _ => only_data w'
    | Raise w' _ => only_data w'
    | Timeout => True
    end.

(** The call came back normally. *)
Definition returned {A} (o : Outcome A) : bool :=
  match o with Ok _ _ => true | _ => false end.

(** The absolute rect of [n] as the parent chain gives it, caches aside:
    the local rect moved by the position of each of its ancestors, up to
    [k] of them. *)
Fixpoint absolute (k : nat) (w : World) (n : oid) : Rect :=
  let r := rect (nodes w n) in
  match parent (nodes w n), k with
  | Some p, S k' =>
      let a := absolute k' w p in
      mkRect (rx r + rx a) (ry r + ry a) (rwidth r) (rheight r)
  | _, _ => r
  end.

(** Every cached absolute rect is the one the parent chain gives. *)
Definition coherent (w : World) : Prop :=
  forall o r k,
    cache_r (nodes w o) = Some r -> up_le k w o -> r = absolute k w o.

(** The number of ways down from [n] to [m] along [children] lists, in at
    most [k] steps: 1 or 0 in a tree, according to whether [m] is [n] or
    below it. *)
Fixpoint paths (k : nat) (w : World) (n m : oid) : Z :=
  (if Nat.eqb n m then 1 else 0) +
  match k with
  | O => 0
  | S k' =>
      fold_right (fun c acc => paths k' w c m + acc) 0 (children (nodes w n))
  end.

(** The world once [add] has linked [child] under [self], by its two
    assignments [self.children.append(child)] and [child.parent = self]. *)
Definition linked (self child : oid) (w : World) : World :=
  upd child (with_parent (Some self))
    (upd self (fun n => with_children (children n ++ [child]) n) w).

(** From [w] to [w'] caches were only dropped: beyond [invalidates], no
    root memo was filled and no [redraw] flag was lowered. *)
Definition dropped (w w' : World) : Prop :=
  invalidates w w' /\
  forall o,
    (cache (nodes w o) = None -> cache (nodes w' o) = None) /\
    (redraw (nodes w o) = true -> redraw (nodes w' o) = true).

(** The three slots of [m] that [reset] writes are in their reset state. *)
Definition cleared (w : World) (m : oid) : Prop :=
  cache (nodes w m) = None /\ cache_r (nodes w m) = None /\
  redraw (nodes w m) = true.

(** [o] is the handler of one of the entries [items] of a handler cache. *)
Definition among (o : oid) (items : list (Z * option oid)) : bool :=
  existsb (fun kv => match snd kv with
                     | Some h => Nat.eqb h o
                     | None => false
                     end) items.

(** [o] would act on [msg]: it is not disposed and is not the sender. *)
Definition live (msg : Packet) (w : World) (o : oid) : bool :=
  negb (disposed (nodes w o)) && negb (sender msg =? address (nodes w o)).

(** [o] is reached by a broadcast of [msg] and acts on it. *)
Definition heeds (o : oid) (msg : Packet) (w : World) : bool :=
  among o (_handler_cache (bus w)) && live msg w o.

(** [a] (address 2) announces the palette to everybody, not yet pumped. *)
Definition palette_pending : World :=
  run (element_post 5 1%nat BROADCAST R_VIS (VDict palette) false) demo_tree.

(** The root asks everybody to drop their assets, not yet pumped. *)
Definition clear_pending : World :=
  run (element_post 5 0%nat BROADCAST R_CLEAR (VAtom ANone) false) demo_tree.

(** The world once [remove] has detached [child] from [p], by its two
    assignments [p.children.remove(child)] and [child.parent = None]. *)
Definition unlinked (p child : oid) (w : World) : World :=
  upd child (with_parent None)
    (upd p (fun n => with_children (list_remove child (children n)) n) w).

(** [a] (address 2) writes to address 99, which nobody holds; not yet
    pumped. *)
Definition lost_pending : World :=
  run (element_post 5 1%nat 99 R_GET (VAtom ANone) false) demo_tree.

(** No handler is cached under the receiver of the unicast [m]. *)
Definition unheard (w : World) (m : Packet) : Prop :=
  (receiver m =? BROADCAST) = false /\
  match dict_get Z.eqb (receiver m) (_handler_cache (bus w)) with
  | Some (Some _) => False
  | _ => True
  end.

(** Two messages wait: first the request of [a] to the root
    ([get_pending]), then a font announcement of [b] without payload. *)
Definition two_pending : World :=
  run (element_post 5 2%nat BROADCAST R_FONT (VAtom ANone) false) get_pending.

(** From [w2] to [w3] the node has been taken off the bus: both tables
    have lost the entry at its address and the line is printed; nothing
    else has changed. *)
Definition taken_off (self : oid) (w2 w3 : World) : Prop :=
  nodes w3 = nodes w2 /\
  _elements (bus w3)
    = dict_pop Z.eqb (address (nodes w2 self)) (_elements (bus w2)) /\
  _handler_cache (bus w3)
    = dict_pop Z.eqb (address (nodes w2 self)) (_handler_cache (bus w2)) /\
  _queue (bus w3) = _queue (bus w2) /\
  stdout w3
    = stdout w2 ++ [LUnregister (name (nodes w2 self))
                      (address (nodes w2 self))].

(** From [w3] to [w4] the packet has been posted and pumped at once: the
    line of the broadcast is printed, every handler of the cache of [w3]
    has been called with it, in order, and has returned; the calls have
    changed no node, and no message is left waiting. *)
Definition announced (handle : oid -> Packet -> M unit) (packet : Packet)
    (w3 w4 : World) : Prop :=
  exists wl ds,
    pump_log handle (bus_post packet w3) = Ok wl ds /\
    map target ds = cached_handlers (_handler_cache (bus w3)) /\
    Forall (fun d => d_msg d = packet /\ d_ok d = true) ds /\
    agree wl w4 /\
    nodes w4 = nodes w3 /\
    stdout w4 = stdout w3 ++ [LBroadcast (sender packet) (rs packet)] /\
    settled w4.

(** * Properties of the pump *)

Lemma cleanup_nothing w : _cleanup w = w.
Proof.
  unfold _cleanup. induction (_elements (bus w)) as [|item items IH]; simpl; auto.
Qed.

Lemma fold_left_keep (A B : Type) (l : list B) (x : A) :
  fold_left (fun a _ => a) l x = x.
Proof. induction l; simpl; auto. Qed.

Section PumpFacts.

Variable invoke : oid -> Packet -> M unit.

Lemma call_logged_spec handler msg addr w :
  match call_logged invoke handler msg addr w with
  | Ok w' d =>
      _call_handler invoke handler msg addr w = Ok w' tt /\
      target d = (addr, handler) /\ d_msg d = msg
  | Raise _ _ => False
  | Timeout =>
      _call_handler invoke handler msg addr w = Timeout /\ diverges invoke
  end.
Proof.
  unfold call_logged, _call_handler.
  destruct (invoke handler msg w) eqn:E; simpl; auto.
  split; [reflexivity | exists handler, msg, w; exact E].
Qed.

Lemma broadcast_log_spec items msg : forall processed w,
  match broadcast_log invoke items msg w with
  | Ok w' ds =>
      pump_broadcast invoke items msg processed w
        = Ok w' (processed + Z.of_nat (List.length ds)) /\
      map target ds = cached_handlers items /\
      Forall (fun d => d_msg d = msg) ds
  | Raise _ _ => False
  | Timeout =>
      pump_broadcast invoke items msg processed w = Timeout /\ diverges invoke
  end.
Proof.
  induction items as [|[addr [h|]] rest IH]; intros processed w; simpl.
  - unfold ret. rewrite Z.add_0_r. auto.
  - unfold bind.
    pose proof (call_logged_spec h msg addr w) as Hc.
    destruct (call_logged invoke h msg addr w) as [w1 d| |]; try contradiction.
    + destruct Hc as (Hc & Ht & Hm). rewrite Hc.
      specialize (IH (processed + 1) w1).
      destruct (broadcast_log invoke rest msg w1) as [w2 ds| |];
        try contradiction.
      * destruct IH as (IH & Hts & Hms). unfold ret. simpl.
        rewrite IH. repeat split.
        -- f_equal. lia.
        -- rewrite Ht, Hts. reflexivity.
        -- constructor; assumption.
      * exact IH.
    + destruct Hc as [Hc Hd]. rewrite Hc. auto.
  - apply IH.
Qed.

Lemma deliver_log_spec msg rest : forall processed w,
  match deliver_log invoke msg w with
  | Ok w' ds =>
      pump_messages invoke (msg :: rest) processed w
        = pump_messages invoke rest (processed + Z.of_nat (List.length ds)) w' /\
      map target ds = targets msg w /\
      Forall (fun d => d_msg d = msg) ds
  | Raise _ _ => False
  | Timeout =>
      pump_messages invoke (msg :: rest) processed w = Timeout /\ diverges invoke
  end.
Proof.
  intros processed w. unfold deliver_log, targets. simpl.
  destruct (receiver msg =? BROADCAST).
  - pose proof (broadcast_log_spec (_handler_cache (bus w)) msg processed w) as Hb.
    destruct (broadcast_log invoke (_handler_cache (bus w)) msg w)
      as [w1 ds| |]; try contradiction.
    + destruct Hb as (Hb & Ht & Hm). unfold bind. rewrite Hb. auto.
    + destruct Hb as [Hb Hd]. unfold bind. rewrite Hb. auto.
  - destruct (dict_get Z.eqb (receiver msg) (_handler_cache (bus w)))
      as [[h|]|].
    + unfold bind.
      pose proof (call_logged_spec h msg (receiver msg) w) as Hc.
      destruct (call_logged invoke h msg (receiver msg) w) as [w1 d| |];
        try contradiction.
      * destruct Hc as (Hc & Ht & Hm). rewrite Hc. unfold ret. simpl.
        rewrite Ht. repeat split. constructor; [assumption | constructor].
      * destruct Hc as [Hc Hd]. rewrite Hc. auto.
    + rewrite Z.add_0_r. simpl. auto.
    + rewrite Z.add_0_r. simpl. auto.
Qed.

Lemma messages_log_spec messages : forall processed w,
  match messages_log invoke messages w with
  | Ok w' ds =>
      pump_messages invoke messages processed w
        = Ok w' (processed + Z.of_nat (List.length ds))
  | Raise _ _ => False
  | Timeout =>
      pump_messages invoke messages processed w = Timeout /\ diverges invoke
  end.
Proof.
  induction messages as [|msg rest IH]; intros processed w.
  - simpl. unfold ret. rewrite Z.add_0_r. reflexivity.
  - pose proof (deliver_log_spec msg rest processed w) as Hd.
    cbn [messages_log]. unfold bind at 1.
    destruct (deliver_log invoke msg w) as [w1 ds| |]; try contradiction.
    + destruct Hd as (Hd & _ & _). rewrite Hd.
      specialize (IH (processed + Z.of_nat (List.length ds)) w1).
      unfold bind.
      destruct (messages_log invoke rest w1) as [w2 ds'| |];
        try contradiction.
      * unfold ret. rewrite IH. f_equal.
        rewrite length_app, Nat2Z.inj_add. lia.
      * exact IH.
    + exact Hd.
Qed.

(** [pump] and [pump_log] describe the same run. *)
Lemma pump_log_spec w :
  match pump_log invoke w with
  | Ok wl ds =>
      exists w', pump invoke w = Ok w' (Z.of_nat (List.length ds)) /\
                 agree wl w'
  | Raise _ _ => False
  | Timeout => pump invoke w = Timeout /\ diverges invoke
  end.
Proof.
  unfold pump_log, pump.
  destruct (_queue (bus w)) as [|m ms] eqn:Q.
  - simpl. unfold ret. exists w. split; [reflexivity|].
    repeat split; simpl; auto.
  - pose proof (messages_log_spec (m :: ms) 0 (upd_bus (with_queue []) w)) as H.
    destruct (messages_log invoke (m :: ms) (upd_bus (with_queue []) w))
      as [w1 ds| |]; try contradiction.
    + unfold bind at 1. rewrite H. unfold bind, modify, ret. cbn zeta.
      rewrite cleanup_nothing.
      eexists. split; [reflexivity|].
      match goal with |- context [if ?c then _ else _] => destruct c end;
        repeat split; reflexivity.
    + destruct H as [H Hd]. unfold bind at 1. rewrite H. auto.
Qed.

End PumpFacts.

Lemma all_dispatched_log invoke messages : forall w w' ds,
  messages_log invoke messages w = Ok w' ds ->
  all_dispatched invoke messages w ds w'.
Proof.
  induction messages as [|msg rest IH]; intros w w' ds H.
  - simpl in H. unfold ret in H. inversion H. split; reflexivity.
  - cbn [messages_log] in H. unfold bind at 1 in H.
    pose proof (deliver_log_spec invoke msg rest 0 w) as Hd.
    destruct (deliver_log invoke msg w) as [w1 ds1| |] eqn:Ed;
      try discriminate.
    destruct Hd as (_ & Ht & Hm).
    unfold bind in H.
    destruct (messages_log invoke rest w1) as [w2 ds2| |] eqn:E;
      try discriminate.
    unfold ret in H. inversion H; subst.
    exists w1, ds1, ds2. repeat split; auto.
Qed.

(** C1.  Failure isolation of [pump], for any queue, any handler cache and
    any handlers.  (1) [pump] never lets an exception out.  (2) A handler
    that raises is caught by that one delivery: [_call_handler] returns
    normally, having printed the error line with the name of the node
    registered at the address (or [Element@addr]) and the message kind; the
    writes of the handler stay.  (3) Whatever the deliveries did, every
    queued message in turn had all its targets called: the whole handler
    snapshot for a broadcast, the cached receiver for a unicast; [pump]
    returns the world these calls leave, up to its delivery counter.  The
    pump fails to return only if a handler does not return. *)
Theorem pump_isolates_handler_failures
    (invoke : oid -> Packet -> M unit) (w : World) :
  match pump invoke w with
  | Raise _ _ => False
  | _ => True
  end /\
  (forall h m a w0,
     match invoke h m w0 with
     | Ok w1 _ => _call_handler invoke h m a w0 = Ok w1 tt
     | Raise w1 e =>
         _call_handler invoke h m a w0
           = Ok (print (LError (comp_name w1 a) (rs m) e) w1) tt
     | Timeout => _call_handler invoke h m a w0 = Timeout
     end) /\
  match pump_log invoke w with
  | Ok wl ds =>
      all_dispatched invoke (_queue (bus w)) (upd_bus (with_queue []) w) ds wl /\
      exists w', pump invoke w = Ok w' (Z.of_nat (List.length ds)) /\ agree wl w'
  | Raise _ _ => False
  | Timeout => pump invoke w = Timeout /\ diverges invoke
  end.
Proof.
  pose proof (pump_log_spec invoke w) as Hp.
  split; [|split].
  - destruct (pump_log invoke w) as [w' ds| |]; try contradiction.
    + destruct Hp as (w1 & Hp & _). rewrite Hp. exact I.
    + destruct Hp as [Hp _]. rewrite Hp. exact I.
  - intros h m a w0. unfold _call_handler.
    destruct (invoke h m w0); reflexivity.
  - destruct (pump_log invoke w) as [w' ds| |] eqn:E; try contradiction.
    + split; [apply all_dispatched_log; exact E | exact Hp].
    + exact Hp.
Qed.

(** The default handler raises on a font announcement without payload
    ([dict.update(None)]): three of the four deliveries fail, each is
    logged, and all four are made. *)
Example font_without_payload_pumped :
  match bus_pump_log 5 font_without_payload with
  | Ok w' ds =>
      map target ds = [(1, 0%nat); (2, 1%nat); (3, 2%nat); (4, 3%nat)] /\
      map d_ok ds = [false; false; true; false] /\
      skipn 8 (stdout w') =
        [LError (CName "UIRoot") R_FONT TypeError;
         LError (CName "UIElement") R_FONT TypeError;
         LError (CName "UIElement") R_FONT TypeError]
  | _ => False
  end.
Proof. vm_compute. repeat split. Qed.

Lemma all_dispatched_split invoke before : forall rest w ds w',
  all_dispatched invoke (before ++ rest) w ds w' ->
  exists w1 ds0 ds1,
    all_dispatched invoke before w ds0 w1 /\
    all_dispatched invoke rest w1 ds1 w' /\
    ds = ds0 ++ ds1.
Proof.
  induction before as [|m before IH]; intros rest w ds w' H.
  - exists w, [], ds. split; [split; reflexivity|]. split; [exact H|reflexivity].
  - cbn [app all_dispatched] in H.
    destruct H as (w1 & ds1 & ds2 & E & T & F & D & A).
    destruct (IH rest w1 ds2 w' A) as (w2 & da & db & A1 & A2 & Dd).
    exists w2, (ds1 ++ da), db. split; [|split].
    + cbn [all_dispatched]. exists w1, ds1, da. repeat split; auto.
    + exact A2.
    + subst. rewrite app_assoc. reflexivity.
Qed.

(** C2.  [pump] delivers a broadcast to the snapshot of the handler
    cache.  Take any queue with a broadcast message in it, any handler
    cache and any handlers.  [pump] lets no exception out.  When the
    handlers return, [pump] returns, and its run is this one: the
    messages before the broadcast are dispatched and leave a world [w1];
    the calls made for the broadcast are the handlers of the cache as it
    is in [w1], in that order and each exactly once, all with this
    message, whatever these calls do meanwhile to the cache, to the
    registry or to each other (they leave [w2], where the cache may be
    another one); then the messages after it are dispatched.  [pump]
    returns the number of calls and the world they leave, up to its
    delivery counter.  It fails to return only if a handler does not. *)
Theorem broadcast_iterates_snapshot
    (invoke : oid -> Packet -> M unit) (from : Z) (kind : Response)
    (payload : PyVal) (before after : list Packet) (w : World) :
  let msg := mkPacket BROADCAST from kind payload in
  _queue (bus w) = before ++ msg :: after ->
  match pump invoke w with Raise _ _ => False | _ => True end /\
  match pump_log invoke w with
  | Ok wl ds =>
      (exists w', pump invoke w = Ok w' (Z.of_nat (List.length ds)) /\
                  agree wl w') /\
      exists w1 w2 ds0 ds1 ds2,
        all_dispatched invoke before (upd_bus (with_queue []) w) ds0 w1 /\
        deliver_log invoke msg w1 = Ok w2 ds1 /\
        map target ds1 = cached_handlers (_handler_cache (bus w1)) /\
        Forall (fun d => d_msg d = msg) ds1 /\
        all_dispatched invoke after w2 ds2 wl /\
        ds = ds0 ++ ds1 ++ ds2
  | Raise _ _ => False
  | Timeout => pump invoke w = Timeout /\ diverges invoke
  end.
Proof.
  intros msg Hq.
  pose proof (pump_log_spec invoke w) as Hp.
  split.
  - destruct (pump_log invoke w) as [wl ds| |]; try contradiction.
    + destruct Hp as (w' & Hp & _). rewrite Hp. exact I.
    + destruct Hp as [Hp _]. rewrite Hp. exact I.
  - destruct (pump_log invoke w) as [wl ds| |] eqn:E; try contradiction.
    + split; [exact Hp|].
      pose proof (@all_dispatched_log invoke (_queue (bus w))
                    (upd_bus (with_queue []) w) wl ds E) as A.
      rewrite Hq in A.
      destruct (@all_dispatched_split invoke before (msg :: after)
                  (upd_bus (with_queue []) w) ds wl A)
        as (w1 & ds0 & ds' & A0 & A1 & D).
      cbn [all_dispatched] in A1.
      destruct A1 as (w2 & ds1 & ds2 & E1 & T1 & F1 & D1 & A2).
      exists w1, w2, ds0, ds1, ds2.
      split; [exact A0|]. split; [exact E1|]. split; [exact T1|].
      split; [exact F1|]. split; [exact A2|]. rewrite D, D1. reflexivity.
    + exact Hp.
Qed.

Lemma broadcast_iterates_snapshot_witness :
  exists w', bus_pump 6 terminate_pending = Ok w' 4.
Proof.
  assert (Hq : _queue (bus terminate_pending)
               = [] ++ mkPacket BROADCAST 1 R_TERMINATE (VAtom ANone) :: [])
    by (vm_compute; reflexivity).
  destruct (@broadcast_iterates_snapshot (handle_message 6) 1 R_TERMINATE
              (VAtom ANone) [] [] terminate_pending Hq) as [_ H].
  assert (Hok : returned (pump_log (handle_message 6) terminate_pending) = true)
    by (vm_compute; reflexivity).
  destruct (pump_log (handle_message 6) terminate_pending)
    as [wl ds| |] eqn:E; try discriminate Hok.
  destruct H as [(w' & Hp & _) (w1 & w2 & ds0 & ds1 & ds2 & A0 & _ & T & _ & A2 & D)].
  cbn [all_dispatched] in A0, A2.
  destruct A0 as [D0 W1]. destruct A2 as [D2 _].
  assert (Hc : cached_handlers
                 (_handler_cache (bus (upd_bus (with_queue []) terminate_pending)))
               = [(1, 0%nat); (2, 1%nat); (3, 2%nat); (4, 3%nat)])
    by (vm_compute; reflexivity).
  rewrite W1, Hc in T.
  assert (L : List.length ds = 4%nat).
  { rewrite D, D0, D2, app_nil_r. cbn [app].
    rewrite <- (length_map target ds1), T. reflexivity. }
  rewrite L in Hp. exists w'. exact Hp.
Defined.

(** The root broadcasts [R_TERMINATE]: the handler of [a] destroys [a] and
    its child [c], which is unregistered and disposed before its own turn
    comes.  Nothing is raised, and [b] and [c] still get the call. *)
Example destroy_during_broadcast :
  match bus_pump_log 6 terminate_pending with
  | Ok w' ds =>
      map target ds = [(1, 0%nat); (2, 1%nat); (3, 2%nat); (4, 3%nat)] /\
      map d_ok ds = [true; true; true; true] /\
      map (fun o => disposed (nodes w' o)) [0; 1; 2; 3]%nat
        = [false; true; true; true] /\
      _handler_cache (bus w') = [(1, Some 0%nat)]
  | _ => False
  end /\
  match bus_pump 6 terminate_pending with
  | Ok w' n =>
      n = 4 /\
      map (fun o => disposed (nodes w' o)) [0; 1; 2; 3]%nat
        = [false; true; true; true] /\
      _handler_cache (bus w') = [(1, Some 0%nat)]
  | _ => False
  end.
Proof. vm_compute. repeat split. Qed.

(** C5, refuted as stated: with the font announcement without payload,
    [pump] returns 4 although only one handler returned. *)
Lemma pump_counts_failed_deliveries :
  match bus_pump 5 font_without_payload, bus_pump_log 5 font_without_payload with
  | Ok _ n, Ok _ ds => n = 4 /\ successes ds = 1 /\ n <> successes ds
  | _, _ => False
  end.
Proof. vm_compute. repeat split; discriminate. Qed.

(** C5, amended.  [pump] returns the number of handler calls it made,
    whether the handler returned or raised; a unicast whose receiver has no
    cached handler, and a cache entry without handler in a broadcast, make
    no call and are not counted. *)
Theorem pump_counts_handler_calls
    (invoke : oid -> Packet -> M unit) (w : World) :
  match pump_log invoke w with
  | Ok _ ds => exists w', pump invoke w = Ok w' (Z.of_nat (List.length ds))
  | Raise _ _ => False
  | Timeout => pump invoke w = Timeout
  end /\
  (forall msg w0,
     match targets msg w0 with
     | [] => deliver_log invoke msg w0 = Ok w0 []
     | _ => True
     end).
Proof.
  split.
  - pose proof (pump_log_spec invoke w) as Hp.
    destruct (pump_log invoke w); try contradiction.
    + destruct Hp as (w' & Hp & _). exists w'. exact Hp.
    + apply Hp.
  - intros msg w0. unfold targets, deliver_log.
    destruct (receiver msg =? BROADCAST).
    + induction (_handler_cache (bus w0)) as [|[a [h|]] items IH]; simpl; auto.
    + destruct (dict_get Z.eqb (receiver msg) (_handler_cache (bus w0)))
        as [[h|]|]; auto.
Qed.

(** * Properties of the element tree *)

Lemma bus_post_queue msg w :
  _queue (bus (bus_post msg w)) = _queue (bus w) ++ [msg].
Proof.
  unfold bus_post, _write_debug.
  destruct (receiver msg =? BROADCAST); reflexivity.
Qed.

Lemma root_walk_same_nodes w1 w2 :
  nodes w1 = nodes w2 ->
  forall fuel node, root_walk fuel node w1 = root_walk fuel node w2.
Proof.
  intros H. induction fuel as [|f IH]; intros node; simpl; rewrite H.
  - reflexivity.
  - destruct (parent (nodes w2 node)); auto.
Qed.

Lemma find_root_same_nodes w1 w2 fuel self :
  nodes w1 = nodes w2 -> find_root fuel self w1 = find_root fuel self w2.
Proof.
  intros H. unfold find_root. rewrite (root_walk_same_nodes w1 w2 H). rewrite H.
  reflexivity.
Qed.

(** [root] returns what [find_root] finds and writes at most the memo. *)
Lemma root_find fuel self w rt :
  find_root fuel self w = Some rt ->
  exists w', root fuel self w = Ok w' rt /\
    bus w' = bus w /\ stdout w' = stdout w /\
    (forall o, has_bus (nodes w' o) = has_bus (nodes w o)) /\
    (forall o, address (nodes w' o) = address (nodes w o)).
Proof.
  unfold find_root, root, UIElement_root.
  destruct (is_root_class (cls (nodes w self))).
  - intros H. inversion H; subst. exists w. auto.
  - destruct (cache (nodes w self)) as [r|].
    + intros H. inversion H; subst. exists w. auto.
    + intros H. rewrite H. eexists. split; [reflexivity|].
      simpl. repeat split; auto; intros o; destruct (Nat.eqb o self); reflexivity.
Qed.

Lemma metadata_has_no_object self w :
  forallb (fun kv => negb (is_object (snd kv))) (get_metadata self w) = true.
Proof.
  unfold get_metadata, UIRoot_get_metadata, UIElement_get_metadata.
  destruct (is_root_class (cls (nodes w self)));
    destruct (parent (nodes w self)); reflexivity.
Qed.

Lemma metadata_fields self w :
  let n := nodes w self in
  let md := get_metadata self w in
  dict_get String.eqb "address" md = Some (AInt (address n)) /\
  dict_get String.eqb "x" md = Some (AInt (rx (rect n))) /\
  dict_get String.eqb "y" md = Some (AInt (ry (rect n))) /\
  dict_get String.eqb "width" md = Some (AInt (rwidth (rect n))) /\
  dict_get String.eqb "height" md = Some (AInt (rheight (rect n))) /\
  dict_get String.eqb "visible" md = Some (ABool (visible n)) /\
  dict_get String.eqb "passthrough" md = Some (ABool (passthrough n)) /\
  dict_get String.eqb "disposed" md = Some (ABool (disposed n)) /\
  dict_get String.eqb "length" md
    = Some (AInt (Z.of_nat (List.length (children n)))) /\
  dict_get String.eqb "container" md
    = Some (AInts (map (fun c => address (nodes w c)) (children n))) /\
  dict_get String.eqb "parent:address" md
    = option_map (fun p => AInt (address (nodes w p))) (parent n) /\
  dict_get String.eqb "parent" md = None.
Proof.
  unfold get_metadata, UIRoot_get_metadata, UIElement_get_metadata.
  destruct (is_root_class (cls (nodes w self)));
    destruct (parent (nodes w self)); repeat split; reflexivity.
Qed.

(** C8.  A node [n], not disposed, registered at address [a] under a root
    that carries the bus, with one queued message [{receiver: a, sender: b,
    kind: GET}], [b <> a]: one pump makes one delivery and leaves exactly
    one message in the queue, [{receiver: b, sender: a, kind: DATA}], whose
    payload is the metadata of [n]: its address [a], the rect fields, the
    flags, the number of children and their addresses in order, and, when
    [n] has a parent, the parent's address under ["parent:address"]; no
    value of the payload is an element object. *)
Theorem get_is_answered_with_data
    (fuel : nat) (w : World) (n rt : oid) (a b : Z) (payload : PyVal) :
  _queue (bus w) = [mkPacket a b R_GET payload] ->
  dict_get Z.eqb a (_handler_cache (bus w)) = Some (Some n) ->
  address (nodes w n) = a ->
  a <> BROADCAST ->
  b <> a ->
  disposed (nodes w n) = false ->
  find_root fuel n w = Some rt ->
  has_bus (nodes w rt) = true ->
  exists w',
    bus_pump (S fuel) w = Ok w' 1 /\
    _queue (bus w') = [mkPacket b a R_DATA (VDict (get_metadata n w))] /\
    let node := nodes w n in
    let md := get_metadata n w in
    dict_get String.eqb "address" md = Some (AInt a) /\
    dict_get String.eqb "x" md = Some (AInt (rx (rect node))) /\
    dict_get String.eqb "y" md = Some (AInt (ry (rect node))) /\
    dict_get String.eqb "width" md = Some (AInt (rwidth (rect node))) /\
    dict_get String.eqb "height" md = Some (AInt (rheight (rect node))) /\
    dict_get String.eqb "visible" md = Some (ABool (visible node)) /\
    dict_get String.eqb "passthrough" md = Some (ABool (passthrough node)) /\
    dict_get String.eqb "disposed" md = Some (ABool (disposed node)) /\
    dict_get String.eqb "length" md
      = Some (AInt (Z.of_nat (List.length (children node)))) /\
    dict_get String.eqb "container" md
      = Some (AInts (map (fun c => address (nodes w c)) (children node))) /\
    dict_get String.eqb "parent:address" md
      = option_map (fun p => AInt (address (nodes w p))) (parent node) /\
    dict_get String.eqb "parent" md = None /\
    forallb (fun kv => negb (is_object (snd kv))) md = true.
Proof.
  intros Hq Hc Ha Hnb Hba Hd Hr Hb.
  assert (Hrecv : (a =? BROADCAST) = false) by (apply Z.eqb_neq; exact Hnb).
  assert (Hsend : (b =? a) = false) by (apply Z.eqb_neq; exact Hba).
  set (w0 := print (LSendingMetadata (name (nodes w n)))
               (upd_bus (with_queue []) w)).
  assert (Hr0 : find_root fuel n w0 = Some rt)
    by (rewrite <- Hr; apply find_root_same_nodes; reflexivity).
  destruct (@root_find fuel n w0 rt Hr0) as (w1 & Hroot & Hbus & Hout & Hhb & Haddr).
  eexists. split; [|split].
  - unfold bus_pump, pump. rewrite Hq.
    unfold bind at 1. cbn [pump_messages receiver]. rewrite Hrecv.
    cbn [bus upd_bus _handler_cache with_queue]. rewrite Hc.
    unfold bind at 1. unfold _call_handler.
    cbn [handle_message]. unfold handle_message_body at 1.
    cbn [nodes upd_bus sender rs]. rewrite Hd, Ha, Hsend.
    cbn [orb]. unfold bind at 1. unfold modify at 1.
    unfold post. unfold bind at 1. fold w0. rewrite Hroot.
    unfold connected. rewrite Hhb. cbn [nodes print upd_bus w0].
    rewrite Hb. unfold bind, modify, ret. cbn.
    reflexivity.
  - match goal with
    | |- _queue (bus (if ?c then _ else _)) = _ => destruct c
    end; cbn; rewrite ?fold_left_keep; cbn;
      rewrite bus_post_queue, Hbus, Haddr; cbn; rewrite Ha; reflexivity.
  - pose proof (metadata_fields n w) as Hm. cbn zeta in Hm.
    rewrite Ha in Hm.
    destruct Hm as (H1 & H2 & H3 & H4 & H5 & H6 & H7 & H8 & H9 & H10 & H11 & H12).
    cbn zeta. repeat split; try assumption.
    apply metadata_has_no_object.
Qed.

Lemma get_is_answered_with_data_witness :
  exists w',
    bus_pump 2 get_pending = Ok w' 1 /\
    _queue (bus w')
      = [mkPacket 2 1 R_DATA (VDict (get_metadata 0%nat get_pending))].
Proof.
  destruct (@get_is_answered_with_data 1 get_pending 0%nat 0%nat 1 2 (VAtom ANone))
    as (w' & Hp & Hq & _).
  - vm_compute; reflexivity.
  - vm_compute; reflexivity.
  - vm_compute; reflexivity.
  - unfold BROADCAST; lia.
  - lia.
  - vm_compute; reflexivity.
  - vm_compute; reflexivity.
  - vm_compute; reflexivity.
  - exists w'. split; assumption.
Defined.

(** The scenario of the specification, run: the queue holds the one DATA
    message for address 2, whose payload carries address 1. *)
Example get_scenario :
  match bus_pump 2 get_pending with
  | Ok w' n =>
      n = 1 /\
      match _queue (bus w') with
      | [mkPacket 2 1 R_DATA (VDict md)] =>
          dict_get String.eqb "address" md = Some (AInt 1)
      | _ => False
      end
  | _ => False
  end.
Proof. vm_compute. split; reflexivity. Qed.

(** C10.  A [post] with [priority] from a node whose root carries the bus
    appends the packet and pumps at once, inside the call: the pump it runs
    takes the queue as it is then, the new packet last, and calls every
    target of every message of that queue before [post] returns.  This holds
    for the handlers of any budget, hence also when [post] is itself called
    by a handler of an outer [pump]; the outer pump iterates the list it
    detached and never sees the packet. *)
Theorem priority_post_pumps_at_once
    (handle_rec : oid -> Packet -> M unit) (fuel : nat) (self rt : oid)
    (recv : Z) (resp : Response) (attachment : PyVal) (w : World) :
  find_root fuel self w = Some rt ->
  has_bus (nodes w rt) = true ->
  exists w1,
    root fuel self w = Ok w1 rt /\
    let packet := mkPacket recv (address (nodes w self)) resp attachment in
    post handle_rec fuel self recv resp attachment true w
      = (pump handle_rec ;;; ret tt) (bus_post packet w1) /\
    pump_log handle_rec (bus_post packet w1)
      = messages_log handle_rec (_queue (bus w) ++ [packet])
          (upd_bus (with_queue []) (bus_post packet w1)) /\
    match pump_log handle_rec (bus_post packet w1) with
    | Ok wl ds =>
        all_dispatched handle_rec (_queue (bus w) ++ [packet])
          (upd_bus (with_queue []) (bus_post packet w1)) ds wl /\
        exists w2,
          post handle_rec fuel self recv resp attachment true w = Ok w2 tt /\
          agree wl w2
    | Raise _ _ => False
    | Timeout =>
        post handle_rec fuel self recv resp attachment true w = Timeout
    end.
Proof.
  intros Hr Hb.
  destruct (@root_find fuel self w rt Hr) as (w1 & Hroot & Hbus & _ & Hhb & Haddr).
  exists w1. split; [exact Hroot|]. cbn zeta.
  assert (Hpost : post handle_rec fuel self recv resp attachment true w
                  = (pump handle_rec ;;; ret tt)
                      (bus_post (mkPacket recv (address (nodes w self)) resp
                                   attachment) w1)).
  { unfold post. unfold bind at 1. rewrite Hroot.
    unfold connected. rewrite Hhb, Hb, Haddr.
    unfold bind at 1. unfold modify. reflexivity. }
  assert (Hlog : pump_log handle_rec
                   (bus_post (mkPacket recv (address (nodes w self)) resp
                                attachment) w1)
                 = messages_log handle_rec
                     (_queue (bus w) ++
                      [mkPacket recv (address (nodes w self)) resp attachment])
                     (upd_bus (with_queue [])
                        (bus_post (mkPacket recv (address (nodes w self)) resp
                                     attachment) w1))).
  { unfold pump_log. rewrite bus_post_queue, Hbus. reflexivity. }
  split; [exact Hpost|]. split; [exact Hlog|].
  rewrite Hpost. unfold bind, ret.
  match goal with |- match pump_log ?i ?w0 with _ => _ end =>
    pose proof (pump_log_spec i w0) as Hp;
    destruct (pump_log i w0) as [wl ds| |] eqn:E; try contradiction
  end.
  - split.
    + apply all_dispatched_log. symmetry. exact Hlog.
    + destruct Hp as (w2 & Hp & Ha). rewrite Hp. exists w2. auto.
  - destruct Hp as [Hp _]. rewrite Hp. reflexivity.
Qed.

Lemma priority_post_pumps_at_once_witness :
  exists w1,
    root 5 1%nat demo_tree = Ok w1 0%nat /\
    post (handle_message 5) 5 1%nat BROADCAST R_RESET (VAtom ANone) true demo_tree
      = (pump (handle_message 5) ;;; ret tt)
          (bus_post (mkPacket BROADCAST 2 R_RESET (VAtom ANone)) w1).
Proof.
  destruct (@priority_post_pumps_at_once (handle_message 5) 5 1%nat 0%nat
              BROADCAST R_RESET (VAtom ANone) demo_tree)
    as (w1 & H1 & H2 & _).
  - vm_compute; reflexivity.
  - vm_compute; reflexivity.
  - exists w1. split; assumption.
Defined.

(** One outer pump with the single message [R_TERMINATE] for [a]: its
    handler destroys [c] and [a], each of which posts [R_DISPOSED] with
    priority.  The outer pump reports its one delivery; when it returns the
    bus has counted the five nested deliveries too (the announcement of [c]
    to the root, [a] and [b], that of [a] to the root and [b]), the queue is
    empty, and both broadcasts were posted after the outer pump had
    started. *)
Example nested_pump_delivers_before_return :
  match bus_pump 6 terminate_a_pending with
  | Ok w' n =>
      n = 1 /\
      _processed (bus w') = 6 /\
      _queue (bus w') = [] /\
      skipn 7 (stdout w') =
        [LMessage 3 2 R_TERMINATE;
         LUnregister "UIElement" 4; LBroadcast 4 R_DISPOSED;
         LUnregister "UIElement" 2; LBroadcast 2 R_DISPOSED]
  | _ => False
  end.
Proof. vm_compute. repeat split. Qed.

(** C6, the code at the failing input.  [p1.add(c); p2.add(c)] on three
    fresh elements: both calls return, [c] is then in the children of both
    [p1] and [p2], and its parent is [p2]. *)
Theorem add_keeps_child_under_old_parent :
  match (add 5 0%nat 2%nat ;;; add 5 1%nat 2%nat) three_elements with
  | Ok w' _ =>
      children (nodes w' 0%nat) = [2%nat] /\
      children (nodes w' 1%nat) = [2%nat] /\
      parent (nodes w' 2%nat) = Some 1%nat
  | _ => False
  end.
Proof. vm_compute. repeat split. Qed.

(** [a.add(b); b.add(a)] closes a cycle: [b.add(a)] appends [a] to the
    children of its own child and does not come back from [_update_depth]
    within any tried budget; the links it wrote before stay. *)
Example add_closes_a_cycle :
  match add 5 0%nat 1%nat three_elements with
  | Ok w1 _ =>
      add 50 1%nat 0%nat w1 = Timeout /\
      (let w2 := upd 0%nat (with_parent (Some 1%nat))
                   (upd 1%nat (fun n => with_children (children n ++ [0%nat]) n) w1) in
       children (nodes w2 0%nat) = [1%nat] /\
       children (nodes w2 1%nat) = [0%nat])
  | _ => False
  end.
Proof. vm_compute. repeat split. Qed.

(** [p.add(c); p.remove(c)] leaves the detached [c] at depth 1. *)
Example remove_keeps_depth :
  match (add 5 0%nat 2%nat ;;; remove 5 0%nat 2%nat) three_elements with
  | Ok w' _ => parent (nodes w' 2%nat) = None /\ depth (nodes w' 2%nat) = 1
  | _ => False
  end.
Proof. vm_compute. repeat split. Qed.

(** C7, the code at the failing input.  [n.destroy(); n.add(x)] on fresh
    elements: [n] is disposed, and [add], which does not look at
    [disposed], gives it the child [x]. *)
Theorem add_to_disposed_node :
  match (destroy 5 0%nat ;;; add 5 0%nat 1%nat) three_elements with
  | Ok w' _ =>
      disposed (nodes w' 0%nat) = true /\
      children (nodes w' 0%nat) = [1%nat] /\
      parent (nodes w' 1%nat) = Some 0%nat
  | _ => False
  end.
Proof. vm_compute. repeat split. Qed.

(** And a disposed node can be given a parent: [n.destroy(); p.add(n)]. *)
Example disposed_node_gets_parent :
  match (destroy 5 0%nat ;;; add 5 1%nat 0%nat) three_elements with
  | Ok w' _ =>
      disposed (nodes w' 0%nat) = true /\
      parent (nodes w' 0%nat) = Some 1%nat
  | _ => False
  end.
Proof. vm_compute. repeat split. Qed.

(** C9, refuted as stated: [e.x = -5] stores [-5]. *)
Lemma x_setter_keeps_negative :
  match set_x 5 1%nat (-5) demo_tree with
  | Ok w' _ => rx (rect (nodes w' 1%nat)) = -5 /\ rx (rect (nodes w' 1%nat)) < 0
  | _ => False
  end.
Proof. vm_compute. split; reflexivity. Qed.

(** ** Walks over the tree *)

Lemma bind_ok A B (m : M A) (k : A -> M B) w w1 a :
  m w = Ok w1 a -> (x <- m ;; k x) w = k a w1.
Proof. intros H. unfold bind. rewrite H. reflexivity. Qed.

Lemma invalidates_refl w : invalidates w w.
Proof. repeat split; auto. Qed.

Lemma invalidates_trans w1 w2 w3 :
  invalidates w1 w2 -> invalidates w2 w3 -> invalidates w1 w3.
Proof.
  intros (B1 & O1 & N1) (B2 & O2 & N2). repeat split; try congruence.
  - destruct (N1 o) as [E1 _], (N2 o) as [E2 _]. congruence.
  - intros H. apply N2, N1, H.
Qed.

Lemma invalidates_children w w' o :
  invalidates w w' -> children (nodes w' o) = children (nodes w o).
Proof.
  intros (_ & _ & N). destruct (N o) as [E _].
  apply (f_equal children) in E. exact E.
Qed.

Lemma invalidates_upd w self g :
  (forall n, strip (g n) = strip n) ->
  (forall n, cache_r n = None -> cache_r (g n) = None) ->
  invalidates w (upd self g w).
Proof.
  intros Hs Hc. repeat split; simpl; destruct (Nat.eqb o self); auto.
Qed.

Lemma height_le_invalidates k : forall w w' n,
  invalidates w w' -> height_le k w n -> height_le k w' n.
Proof.
  induction k as [|k IH]; intros w w' n Hi; simpl;
    rewrite (@invalidates_children w w' n Hi); eauto.
Qed.

Lemma reach_invalidates w w' n m :
  invalidates w w' -> reach w n m -> reach w' n m.
Proof.
  intros Hi Hr. induction Hr as [|n c m Hc _ IH]; [constructor|].
  apply reach_child with c; [|exact IH].
  rewrite (@invalidates_children w w' n Hi). exact Hc.
Qed.

(** A loop over children whose body drops caches below each child. *)
Lemma for_each_invalidates (body : oid -> M unit) (w0 : World) :
  forall L : list oid,
  (forall c w, In c L -> invalidates w0 w ->
     exists w', body c w = Ok w' tt /\ invalidates w w') ->
  forall w, invalidates w0 w ->
  exists w', for_each L body w = Ok w' tt /\ invalidates w w'.
Proof.
  induction L as [|c L IH]; intros Hb w Hw.
  - exists w. split; [reflexivity | apply invalidates_refl].
  - destruct (Hb c w (or_introl eq_refl) Hw) as (w1 & E1 & I1).
    destruct (IH (fun c' w' Hc => Hb c' w' (or_intror Hc)) w1
                (@invalidates_trans w0 w w1 Hw I1)) as (w2 & E2 & I2).
    exists w2. split.
    + cbn [for_each]. erewrite bind_ok by exact E1. exact E2.
    + eapply invalidates_trans; eassumption.
Qed.

Lemma reset_graphics_returns k : forall fuel self w,
  height_le k w self -> (k <= fuel)%nat ->
  exists w', reset_graphics fuel self true w = Ok w' tt /\
    invalidates w w' /\
    forall m, reach w self m -> cache_r (nodes w' m) = None.
Proof.
  induction k as [|k IH]; intros fuel self w Hh Hf.
  - (* a leaf *)
    simpl in Hh.
    exists (upd self (fun n => with_cache_r None (with_redraw true n)) w).
    split; [|split].
    + destruct fuel; cbn [reset_graphics]; unfold bind, modify;
        cbn [nodes upd]; rewrite Nat.eqb_refl; cbn [children with_cache_r with_redraw];
        rewrite Hh; reflexivity.
    + apply invalidates_upd; auto.
    + intros m Hr. inversion Hr as [|n c m' Hc _]; subst.
      * simpl. rewrite Nat.eqb_refl. reflexivity.
      * rewrite Hh in Hc. destruct Hc.
  - destruct fuel as [|fuel]; [lia|].
    set (w1 := upd self (fun n => with_cache_r None (with_redraw true n)) w).
    assert (I1 : invalidates w w1) by (apply invalidates_upd; auto).
    assert (Hch : children (nodes w1 self) = children (nodes w self))
      by (apply invalidates_children; exact I1).
    (* the loop, with the descendants it has covered *)
    assert (Hloop : forall L, incl L (children (nodes w self)) ->
              forall w2, invalidates w1 w2 ->
              exists w', for_each L
                           (fun child => reset_graphics fuel child true) w2
                         = Ok w' tt /\ invalidates w2 w' /\
                (forall c m, In c L -> reach w c m -> cache_r (nodes w' m) = None)).
    { induction L as [|c L IHL]; intros Hin w2 I2.
      - exists w2. split; [reflexivity|]. split; [apply invalidates_refl|].
        intros c m [].
      - assert (Hc : In c (children (nodes w self)))
          by (apply Hin; left; reflexivity).
        assert (I02 : invalidates w w2)
          by (eapply invalidates_trans; eassumption).
        destruct (IH fuel c w2) as (w3 & E3 & I3 & C3).
        { apply height_le_invalidates with w; [exact I02|]. apply Hh, Hc. }
        { lia. }
        destruct (IHL (fun x Hx => Hin x (or_intror Hx)) w3
                    (@invalidates_trans w1 w2 w3 I2 I3)) as (w4 & E4 & I4 & C4).
        exists w4. split; [|split].
        + cbn [for_each]. erewrite bind_ok by exact E3. exact E4.
        + eapply invalidates_trans; eassumption.
        + intros c' m [Hc'|Hc'] Hr.
          * subst c'. destruct I4 as (_ & _ & N4). apply N4, C3.
            apply reach_invalidates with w; assumption.
          * eapply C4; eassumption. }
    destruct (Hloop (children (nodes w self)) (incl_refl _) w1
                (invalidates_refl w1)) as (w' & E & I' & C').
    exists w'. split; [|split].
    + cbn [reset_graphics]. unfold bind at 1, modify at 1. fold w1.
      rewrite Hch. exact E.
    + eapply invalidates_trans; eassumption.
    + intros m Hr. inversion Hr as [|n c m' Hc Hr']; subst.
      * destruct I' as (_ & _ & N'). apply N'. unfold w1. simpl.
        rewrite Nat.eqb_refl. reflexivity.
      * eapply C'; eassumption.
Qed.

Lemma reset_returns k : forall fuel self w,
  height_le k w self -> (k <= fuel)%nat ->
  exists w', reset fuel self w = Ok w' tt /\ invalidates w w'.
Proof.
  induction k as [|k IH]; intros fuel self w Hh Hf.
  - simpl in Hh.
    eexists. split.
    + destruct fuel; cbn [reset reset_graphics]; unfold bind, modify, ret;
        cbn [nodes upd]; rewrite !Nat.eqb_refl;
        cbn [children with_cache_r with_redraw with_cache];
        rewrite Hh; reflexivity.
    + eapply invalidates_trans; apply invalidates_upd; auto.
  - destruct fuel as [|fuel]; [lia|].
    set (w1 := upd self (with_cache None)
                 (upd self (fun n => with_cache_r None (with_redraw true n)) w)).
    assert (I1 : invalidates w w1)
      by (eapply invalidates_trans; apply invalidates_upd; auto).
    destruct (@for_each_invalidates (fun child => reset fuel child) w
                (children (nodes w1 self))) with (w := w1)
      as (w' & E & I'); [|exact I1|].
    + intros c w2 Hc I2. apply IH; [|lia].
      apply height_le_invalidates with w; [exact I2|]. apply Hh.
      rewrite <- (@invalidates_children w w1 self I1). exact Hc.
    + exists w'. split; [|eapply invalidates_trans; eassumption].
      cbn [reset reset_graphics]. unfold bind, modify, ret. exact E.
Qed.

Lemma height_le_same_children k : forall w w' n,
  (forall o, children (nodes w' o) = children (nodes w o)) ->
  height_le k w n -> height_le k w' n.
Proof.
  induction k as [|k IH]; intros w w' n Hc; simpl; rewrite Hc; eauto.
Qed.

Lemma reach_same_children w w' n m :
  (forall o, children (nodes w' o) = children (nodes w o)) ->
  reach w n m -> reach w' n m.
Proof.
  intros Hc Hr. induction Hr as [|n c m Hin _ IH]; [constructor|].
  apply reach_child with c; [|exact IH]. rewrite Hc. exact Hin.
Qed.

Lemma height_leb_sound k : forall w n,
  height_leb k w n = true -> height_le k w n.
Proof.
  induction k as [|k IH]; intros w n; simpl.
  - destruct (children (nodes w n)); [reflexivity | discriminate].
  - intros H c Hc. apply IH. rewrite forallb_forall in H. apply H, Hc.
Qed.

Lemma up_leb_sound k : forall w n, up_leb k w n = true -> up_le k w n.
Proof.
  induction k as [|k IH]; intros w n; simpl;
    destruct (parent (nodes w n)); auto; discriminate.
Qed.

Lemma setter_shape fuel self s :
  apply_setter fuel self s
  = (modify (upd self (fun n => with_rect (stored_rect s (rect n)) n)) ;;;
     reset_graphics fuel self true ;;;
     reset fuel self).
Proof. destruct s; reflexivity. Qed.

(** C9, amended.  On a node whose subtree has at most [k] levels, with a
    budget of at least [k], every setter returns; it stores the rect
    [stored_rect]: the [x], [y] and [position] setters store the given
    coordinates as they are, the [width], [height] and [size] setters store
    the given dimensions raised to at least 1, and a field that is not
    written keeps its value.  Afterwards the absolute-rect cache of the
    node and of every node below it is empty, no other rect has changed
    and the tree has the same shape. *)
Theorem setter_clamps_size_and_invalidates
    (k fuel : nat) (self : oid) (s : Setter) (w : World) :
  height_le k w self -> (k <= fuel)%nat ->
  exists w',
    apply_setter fuel self s w = Ok w' tt /\
    rect (nodes w' self) = stored_rect s (rect (nodes w self)) /\
    (if width_written s then 1 <= rwidth (rect (nodes w' self))
     else rwidth (rect (nodes w' self)) = rwidth (rect (nodes w self))) /\
    (if height_written s then 1 <= rheight (rect (nodes w' self))
     else rheight (rect (nodes w' self)) = rheight (rect (nodes w self))) /\
    (forall m, reach w self m -> cache_r (nodes w' m) = None) /\
    (forall o, o <> self -> rect (nodes w' o) = rect (nodes w o)) /\
    (forall o, children (nodes w' o) = children (nodes w o) /\
               parent (nodes w' o) = parent (nodes w o)).
Proof.
  intros Hh Hf.
  set (w1 := upd self (fun n => with_rect (stored_rect s (rect n)) n) w).
  assert (Hc1 : forall o, children (nodes w1 o) = children (nodes w o)).
  { intros o. unfold w1. simpl. destruct (Nat.eqb o self); reflexivity. }
  assert (Hp1 : forall o, parent (nodes w1 o) = parent (nodes w o)).
  { intros o. unfold w1. simpl. destruct (Nat.eqb o self); reflexivity. }
  destruct (@reset_graphics_returns k fuel self w1) as (w2 & E2 & I2 & C2);
    [exact (@height_le_same_children k w w1 self Hc1 Hh) | exact Hf |].
  destruct (@reset_returns k fuel self w2) as (w3 & E3 & I3);
    [exact (@height_le_invalidates k w1 w2 self I2 (@height_le_same_children k w w1 self Hc1 Hh)) | exact Hf |].
  pose proof (@invalidates_trans w1 w2 w3 I2 I3) as I13.
  assert (Hrect : forall o, rect (nodes w3 o) = rect (nodes w1 o)).
  { intros o. destruct I13 as (_ & _ & N). destruct (N o) as [E _].
    apply (f_equal rect) in E. exact E. }
  assert (Hself : rect (nodes w3 self) = stored_rect s (rect (nodes w self))).
  { rewrite Hrect. unfold w1. simpl. rewrite Nat.eqb_refl. reflexivity. }
  exists w3. split; [|split; [|split; [|split; [|split; [|split]]]]].
  - rewrite setter_shape. unfold bind at 1, modify at 1. fold w1.
    erewrite bind_ok by exact E2. exact E3.
  - exact Hself.
  - rewrite Hself. destruct s; simpl; try reflexivity; lia.
  - rewrite Hself. destruct s; simpl; try reflexivity; lia.
  - intros m Hr. destruct I3 as (_ & _ & N3). apply N3, C2.
    exact (@reach_same_children w w1 self m Hc1 Hr).
  - intros o Ho. rewrite Hrect. unfold w1. simpl.
    apply Nat.eqb_neq in Ho. rewrite Ho. reflexivity.
  - intros o. destruct I13 as (_ & _ & N). destruct (N o) as [E _]. split.
    + apply (f_equal children) in E. simpl in E. rewrite E. apply Hc1.
    + apply (f_equal parent) in E. simpl in E. rewrite E. apply Hp1.
Qed.

Lemma setter_clamps_size_and_invalidates_witness :
  exists w',
    apply_setter 3 0%nat (SetSize (0, -7)) demo_tree = Ok w' tt /\
    rect (nodes w' 0%nat) = mkRect 0 0 1 1 /\
    cache_r (nodes w' 3%nat) = None.
Proof.
  destruct (@setter_clamps_size_and_invalidates 2 3 0%nat (SetSize (0, -7)) demo_tree)
    as (w' & H1 & H2 & _ & _ & H5 & _).
  - apply height_leb_sound. vm_compute. reflexivity.
  - lia.
  - exists w'. split; [exact H1|]. split; [exact H2|].
    apply H5. apply reach_child with 1%nat; [vm_compute; auto|].
    apply reach_child with 3%nat; [vm_compute; auto|]. constructor.
Defined.

(** ** The life cycle: [destroy] *)

Lemma shrinks_refl w : shrinks w w.
Proof. intros o. repeat split; auto. apply incl_refl. Qed.

Lemma shrinks_trans w1 w2 w3 :
  shrinks w1 w2 -> shrinks w2 w3 -> shrinks w1 w3.
Proof.
  intros S1 S2 o.
  destruct (S1 o) as (C1 & A1 & B1 & I1 & P1 & D1).
  destruct (S2 o) as (C2 & A2 & B2 & I2 & P2 & D2).
  split; [congruence|]. split; [congruence|]. split; [congruence|].
  split; [eapply incl_tran; eassumption|]. split.
  - destruct P2 as [P2|P2]; [rewrite P2; exact P1 | right; exact P2].
  - auto.
Qed.

Lemma shrinks_same_nodes w w' : nodes w' = nodes w -> shrinks w w'.
Proof. intros E o. rewrite E. repeat split; auto. apply incl_refl. Qed.

Lemma invalidates_shrinks_nodes w w' :
  (forall o, strip (nodes w' o) = strip (nodes w o)) -> shrinks w w'.
Proof.
  intros N o. pose proof (N o) as E.
  pose proof (f_equal cls E) as E1. pose proof (f_equal address E) as E2.
  pose proof (f_equal has_bus E) as E3. pose proof (f_equal children E) as E4.
  pose proof (f_equal parent E) as E5. pose proof (f_equal disposed E) as E6.
  simpl in *. split; [exact E1|]. split; [exact E2|]. split; [exact E3|].
  split; [rewrite E4; apply incl_refl|]. split; [left; exact E5|].
  rewrite E6. auto.
Qed.

Lemma invalidates_shrinks w w' : invalidates w w' -> shrinks w w'.
Proof.
  intros (_ & _ & N). apply invalidates_shrinks_nodes. intros o. apply N.
Qed.

Lemma shrinks_upd w self g :
  (forall n, cls (g n) = cls n) ->
  (forall n, address (g n) = address n) ->
  (forall n, has_bus (g n) = has_bus n) ->
  (forall n, incl (children (g n)) (children n)) ->
  (forall n, parent (g n) = parent n \/ parent (g n) = None) ->
  (forall n, disposed n = true -> disposed (g n) = true) ->
  shrinks w (upd self g w).
Proof.
  intros H1 H2 H3 H4 H5 H6 o. simpl.
  destruct (Nat.eqb o self); repeat split; auto; apply incl_refl.
Qed.

Lemma height_le_shrinks k : forall w w' n,
  shrinks w w' -> height_le k w n -> height_le k w' n.
Proof.
  induction k as [|k IH]; intros w w' n Hs; simpl;
    destruct (Hs n) as (_ & _ & _ & I & _).
  - intros E. rewrite E in I. destruct (children (nodes w' n)) as [|c l]; auto.
    destruct (I c (or_introl eq_refl)).
  - intros Hh c Hc. apply IH with w; auto.
Qed.

Lemma up_le_shrinks k : forall w w' n,
  shrinks w w' -> up_le k w n -> up_le k w' n.
Proof.
  induction k as [|k IH]; intros w w' n Hs; simpl;
    destruct (Hs n) as (_ & _ & _ & _ & [P|P] & _); rewrite P; auto.
  destruct (parent (nodes w n)); auto. apply IH. exact Hs.
Qed.

Lemma bounded_shrinks H w w' : shrinks w w' -> bounded H w -> bounded H w'.
Proof.
  intros Hs Hb o. destruct (Hb o). split.
  - eapply height_le_shrinks; eassumption.
  - eapply up_le_shrinks; eassumption.
Qed.

Lemma reach_shrinks w w' n m : shrinks w w' -> reach w' n m -> reach w n m.
Proof.
  intros Hs Hr. induction Hr as [|n c m Hc _ IH]; [constructor|].
  apply reach_child with c; [|exact IH].
  destruct (Hs n) as (_ & _ & _ & I & _). apply I, Hc.
Qed.

Lemma plain_below_shrinks w w' n c :
  shrinks w w' -> plain_below w n -> In c (children (nodes w n)) ->
  plain_below w' c.
Proof.
  intros Hs Hp Hc m Hr. destruct (Hs m) as (C & _). rewrite C. apply Hp.
  apply reach_child with c; [exact Hc|]. eapply reach_shrinks; eassumption.
Qed.

Lemma height_le_mono k : forall w n, height_le k w n -> height_le (S k) w n.
Proof.
  induction k as [|k IH]; intros w n; simpl.
  - intros E c Hc. rewrite E in Hc. destruct Hc.
  - intros Hh c Hc. apply IH, Hh, Hc.
Qed.

Lemma root_walk_up_le k : forall fuel w n,
  up_le k w n -> (k <= fuel)%nat -> exists r, root_walk fuel n w = Some r.
Proof.
  induction k as [|k IH]; intros fuel w n; simpl.
  - destruct fuel; simpl; destruct (parent (nodes w n)); intros [];
      eexists; reflexivity.
  - intros Hu Hf. destruct fuel as [|fuel]; [lia|]. simpl.
    destruct (parent (nodes w n)) as [p|]; [|eexists; reflexivity].
    apply IH; [exact Hu | lia].
Qed.


Lemma invalidates_root k fuel self w :
  up_le k w self -> (k <= fuel)%nat ->
  exists w' rt, root fuel self w = Ok w' rt /\ invalidates w w'.
Proof.
  intros Hu Hf. unfold root, UIElement_root.
  destruct (is_root_class (cls (nodes w self))).
  - exists w, self. split; [reflexivity | apply invalidates_refl].
  - destruct (cache (nodes w self)) as [r|].
    + exists w, r. split; [reflexivity | apply invalidates_refl].
    + destruct (@root_walk_up_le k fuel w self Hu Hf) as [r Hr]. rewrite Hr.
      eexists. exists r. split; [reflexivity|].
      apply invalidates_upd; auto.
Qed.

Lemma incl_list_remove x l : incl (list_remove x l) l.
Proof.
  induction l as [|y l IH]; simpl; [apply incl_refl|].
  destruct (Nat.eqb x y).
  - apply incl_tl, incl_refl.
  - intros z [Hz|Hz]; [left; exact Hz | right; apply IH, Hz].
Qed.

Lemma remove_returns H fuel p child w :
  bounded H w -> (H <= fuel)%nat ->
  exists w', remove fuel p child w = Ok w' tt /\
    bus w' = bus w /\ shrinks w w'.
Proof.
  intros Hb Hf. unfold remove.
  destruct (is_in child (children (nodes w p))).
  - set (w1 := upd p (fun n => with_children (list_remove child (children n)) n) w).
    set (w2 := upd child (with_parent None) w1).
    assert (S1 : shrinks w w1).
    { apply shrinks_upd; auto. intros n. apply incl_list_remove. }
    assert (S2 : shrinks w1 w2).
    { apply shrinks_upd; auto. intros n. apply incl_refl. }
    pose proof (@shrinks_trans w w1 w2 S1 S2) as S12.
    destruct (@bounded_shrinks H w w2 S12 Hb p) as [Hh _].
    destruct (@reset_returns H fuel p w2 Hh Hf) as (w3 & E3 & I3).
    exists w3. split; [|split].
    + unfold bind at 1, modify at 1. fold w1.
      unfold bind at 1, modify at 1. fold w2. exact E3.
    + destruct I3 as (B3 & _). rewrite B3. reflexivity.
    + eapply shrinks_trans; [exact S12 | apply invalidates_shrinks, I3].
  - exists w. split; [reflexivity|]. split; [reflexivity | apply shrinks_refl].
Qed.

(** The default handler ignores [R_DISPOSED]. *)
Lemma handle_message_disposed fuel h msg w :
  rs msg = R_DISPOSED -> handle_message (S fuel) h msg w = Ok w tt.
Proof.
  intros Hk. cbn [handle_message]. unfold handle_message_body. rewrite Hk.
  destruct (disposed (nodes w h) || (sender msg =? address (nodes w h)));
    reflexivity.
Qed.

Lemma pump_broadcast_idle invoke msg :
  (forall h w, invoke h msg w = Ok w tt) ->
  forall items processed w,
  exists n, pump_broadcast invoke items msg processed w = Ok w n.
Proof.
  intros Hi. induction items as [|[addr [h|]] rest IH]; intros processed w.
  - exists processed. reflexivity.
  - cbn [pump_broadcast]. unfold bind, _call_handler. rewrite Hi. apply IH.
  - cbn [pump_broadcast]. apply IH.
Qed.

(** A pump whose only message is a broadcast that every handler ignores
    empties the queue and touches no node. *)
Lemma pump_idle invoke msg w :
  (forall h w0, invoke h msg w0 = Ok w0 tt) ->
  _queue (bus w) = [msg] -> receiver msg = BROADCAST ->
  exists w' n, pump invoke w = Ok w' n /\
    nodes w' = nodes w /\ settled w' /\
    _handler_cache (bus w') = _handler_cache (bus w) /\
    _elements (bus w') = _elements (bus w).
Proof.
  intros Hi Hq Hr.
  assert (Hrb : (receiver msg =? BROADCAST) = true) by (rewrite Hr; reflexivity).
  destruct (@pump_broadcast_idle invoke msg Hi
              (_handler_cache (bus (upd_bus (with_queue []) w))) 0
              (upd_bus (with_queue []) w)) as [n Hn].
  unfold pump. rewrite Hq.
  unfold bind at 1. cbn [pump_messages]. rewrite Hrb.
  unfold bind at 1. rewrite Hn.
  cbn [pump_messages]. unfold ret, bind, modify.
  rewrite cleanup_nothing.
  eexists. exists n. split; [reflexivity|].
  match goal with |- context [if ?c then _ else _] => destruct c end;
    repeat split; reflexivity.
Qed.

(** The priority post of [R_DISPOSED] in a settled world: the announcement
    is delivered inside the call and nothing else happens. *)
Lemma post_disposed_returns k fuel self att w :
  up_le k w self -> (k <= fuel)%nat -> (1 <= fuel)%nat -> settled w ->
  exists w',
    post (handle_message fuel) fuel self BROADCAST R_DISPOSED att true w
      = Ok w' tt /\
    settled w' /\
    (forall o, strip (nodes w' o) = strip (nodes w o)) /\
    _handler_cache (bus w') = _handler_cache (bus w).
Proof.
  intros Hu Hk Hf Hq.
  destruct (@invalidates_root k fuel self w Hu Hk) as (w1 & rt & Hroot & I1).
  destruct I1 as (B1 & _ & N1).
  unfold post. erewrite bind_ok by exact Hroot.
  destruct (connected rt w1).
  - set (packet := mkPacket BROADCAST (address (nodes w1 self)) R_DISPOSED att).
    destruct fuel as [|f]; [lia|].
    destruct (@pump_idle (handle_message (S f)) packet (bus_post packet w1))
      as (w2 & n & Hp & Hn & Hs & Hc & _).
    + intros h w0. apply handle_message_disposed. reflexivity.
    + rewrite bus_post_queue, B1. unfold settled in Hq. rewrite Hq. reflexivity.
    + reflexivity.
    + exists w2. split; [|split; [|split]].
      * unfold bind at 1, modify at 1. erewrite bind_ok by exact Hp. reflexivity.
      * exact Hs.
      * intros o. rewrite Hn.
        replace (nodes (bus_post packet w1)) with (nodes w1); [apply N1|].
        unfold bus_post, _write_debug.
        destruct (receiver packet =? BROADCAST); reflexivity.
      * rewrite Hc.
        replace (_handler_cache (bus (bus_post packet w1)))
          with (_handler_cache (bus w1)); [rewrite B1; reflexivity|].
        unfold bus_post, _write_debug.
        destruct (receiver packet =? BROADCAST); reflexivity.
  - exists w1. split; [reflexivity|]. split; [|split].
    + unfold settled. rewrite B1. exact Hq.
    + intros o. apply N1.
    + rewrite B1. reflexivity.
Qed.

Lemma dict_pop_keys (V : Type) k x : forall d : list (Z * V),
  In x (map fst (dict_pop Z.eqb k d)) -> In x (map fst d).
Proof.
  induction d as [|[k' v] d IH]; simpl; auto.
  destruct (k =? k'); simpl; intuition.
Qed.

Lemma dict_pop_unique (V : Type) k : forall d : list (Z * V),
  NoDup (map fst d) -> NoDup (map fst (dict_pop Z.eqb k d)).
Proof.
  induction d as [|[k' v] d IH]; simpl; intros Hd; auto.
  inversion Hd as [|x l Hx Hl]; subst.
  destruct (k =? k'); simpl; auto.
  constructor; auto. intros Hin. apply Hx. eapply dict_pop_keys, Hin.
Qed.

Lemma dict_get_absent (V : Type) k : forall d : list (Z * V),
  ~ In k (map fst d) -> dict_get Z.eqb k d = None.
Proof.
  induction d as [|[k' v] d IH]; simpl; intros Hn; auto.
  destruct (Z.eqb_spec k k') as [E|E]; [exfalso; apply Hn; left; congruence|].
  apply IH. intros Hin. apply Hn. right. exact Hin.
Qed.

Lemma dict_get_pop (V : Type) k a : forall d : list (Z * V),
  NoDup (map fst d) ->
  dict_get Z.eqb a (dict_pop Z.eqb k d)
    = if a =? k then None else dict_get Z.eqb a d.
Proof.
  induction d as [|[k' v] d IH]; simpl; intros Hd.
  - destruct (a =? k); reflexivity.
  - inversion Hd as [|x l Hx Hl]; subst.
    destruct (Z.eqb_spec k k') as [E|E].
    + subst k'. destruct (Z.eqb_spec a k) as [E'|E']; [|reflexivity].
      subst a. apply dict_get_absent, Hx.
    + simpl. destruct (Z.eqb_spec a k') as [E'|E'].
      * subst a. destruct (Z.eqb_spec k' k); [congruence | reflexivity].
      * apply IH, Hl.
Qed.

Lemma cache_shrinks_same w w' :
  _handler_cache (bus w') = _handler_cache (bus w) -> cache_shrinks w w'.
Proof.
  intros E U. unfold unique_keys. rewrite E. split; auto.
Qed.

Lemma cache_shrinks_trans w1 w2 w3 :
  cache_shrinks w1 w2 -> cache_shrinks w2 w3 -> cache_shrinks w1 w3.
Proof.
  intros C1 C2 U1. destruct (C1 U1) as [U2 G1]. destruct (C2 U2) as [U3 G2].
  split; [exact U3|]. intros a.
  destruct (G2 a) as [E|E]; [left; exact E|]. rewrite E. apply G1.
Qed.

Lemma later_refl w : later w w.
Proof. split; [apply shrinks_refl | apply cache_shrinks_same; reflexivity]. Qed.

Lemma later_trans w1 w2 w3 : later w1 w2 -> later w2 w3 -> later w1 w3.
Proof.
  intros [S1 C1] [S2 C2]. split.
  - eapply shrinks_trans; eassumption.
  - eapply cache_shrinks_trans; eassumption.
Qed.

Lemma unregister_later self w :
  later w (unregister self w) /\
  (settled w -> settled (unregister self w)) /\
  nodes (unregister self w) = nodes w /\
  (unique_keys w ->
   dict_get Z.eqb (address (nodes w self))
     (_handler_cache (bus (unregister self w))) = None).
Proof.
  split; [split|split; [|split]].
  - apply shrinks_same_nodes. reflexivity.
  - intros U. split.
    + apply dict_pop_unique. exact U.
    + intros a. simpl. rewrite dict_get_pop by exact U.
      destruct (a =? address (nodes w self)); auto.
  - auto.
  - reflexivity.
  - intros U. simpl. rewrite dict_get_pop by exact U.
    rewrite Z.eqb_refl. reflexivity.
Qed.

Lemma for_each_later (body : oid -> M unit) (w0 : World) :
  forall L : list oid,
  (forall c w1, In c L -> later w0 w1 -> settled w1 ->
     exists w2, body c w1 = Ok w2 tt /\ settled w2 /\ later w1 w2) ->
  forall w1, later w0 w1 -> settled w1 ->
  exists w2, for_each L body w1 = Ok w2 tt /\ settled w2 /\ later w1 w2.
Proof.
  induction L as [|c L IH]; intros Hb w1 L1 Q1.
  - exists w1. split; [reflexivity|]. split; [exact Q1 | apply later_refl].
  - destruct (Hb c w1 (or_introl eq_refl) L1 Q1) as (w2 & E2 & Q2 & L2).
    destruct (IH (fun c' w' Hc => Hb c' w' (or_intror Hc)) w2
                (@later_trans w0 w1 w2 L1 L2) Q2) as (w3 & E3 & Q3 & L3).
    exists w3. split; [|split].
    + cbn [for_each]. erewrite bind_ok by exact E2. exact E3.
    + exact Q3.
    + eapply later_trans; eassumption.
Qed.

Lemma if_ok (c : bool) (a b : World) :
  (if c then Ok a tt else Ok b tt) = Ok (if c then a else b) tt.
Proof. destruct c; reflexivity. Qed.

(** One call of [UIElement.destroy] on a node that is not disposed, given
    that the calls on its children return: the steps, in order, with the
    worlds between them. *)
Lemma destroy_step H f self w :
  (forall c w1, In c (children (nodes w self)) -> later w w1 -> settled w1 ->
     exists w2, destroy f c w1 = Ok w2 tt /\ settled w2 /\ later w1 w2) ->
  bounded H w -> settled w ->
  is_root_class (cls (nodes w self)) = false ->
  disposed (nodes w self) = false ->
  (H <= f)%nat -> (1 <= f)%nat ->
  exists w1 w2 rt w4 w6,
    for_each (children (nodes w self)) (destroy f) w = Ok w1 tt /\
    root f self w1 = Ok w2 rt /\
    post (handle_message f) f self BROADCAST R_DISPOSED (VAtom (AObj self)) true
      (if connected rt w2 then unregister self w2 else w2) = Ok w4 tt /\
    match parent (nodes (upd self (with_disposed true) w4) self) with
    | Some p => remove f p self (upd self (with_disposed true) w4)
    | None => Ok (upd self (with_disposed true) w4) tt
    end = Ok w6 tt /\
    destroy (S f) self w
      = Ok (upd self (with_parent None) (upd self (with_children []) w6)) tt /\
    settled w4 /\ settled w6 /\ later w w6 /\
    disposed (nodes w6 self) = true /\
    (connected rt w2 = true -> unique_keys w ->
       dict_get Z.eqb (address (nodes w self)) (_handler_cache (bus w6)) = None).
Proof.
  intros Hchild Hb Hq Hcls Hdis HHf H1f.
  (* 1. the children *)
  destruct (@for_each_later (destroy f) w (children (nodes w self)) Hchild w
              (later_refl w) Hq) as (w1 & E1 & Q1 & L1).
  pose proof (@bounded_shrinks H w w1 (proj1 L1) Hb) as Hb1.
  (* 2. the root, and the unregistration *)
  destruct (@invalidates_root H f self w1 (proj2 (Hb1 self)) HHf)
    as (w2 & rt & E2 & I2).
  pose proof (invalidates_shrinks I2) as S2.
  set (w3 := if connected rt w2 then unregister self w2 else w2).
  assert (N3 : nodes w3 = nodes w2).
  { unfold w3. destruct (connected rt w2); reflexivity. }
  assert (Q3 : settled w3).
  { unfold w3, settled. destruct I2 as (B2 & _).
    destruct (connected rt w2); simpl; rewrite B2; exact Q1. }
  assert (L3 : later w1 w3).
  { apply later_trans with w2.
    - split; [exact S2|]. apply cache_shrinks_same.
      destruct I2 as (B2 & _). rewrite B2. reflexivity.
    - unfold w3. destruct (connected rt w2);
        [apply unregister_later | apply later_refl]. }
  pose proof (@bounded_shrinks H w1 w3 (proj1 L3) Hb1) as Hb3.
  (* 3. the announcement *)
  destruct (@post_disposed_returns H f self (VAtom (AObj self)) w3
              (proj2 (Hb3 self)) HHf H1f Q3) as (w4 & E4 & Q4 & N4 & C4).
  pose proof (invalidates_shrinks_nodes _ _ N4) as S4.
  (* 4. the flag *)
  set (w5 := upd self (with_disposed true) w4).
  assert (S5 : shrinks w4 w5).
  { apply shrinks_upd; auto. intros n. apply incl_refl. }
  pose proof (@bounded_shrinks H w3 w5 (@shrinks_trans w3 w4 w5 S4 S5) Hb3) as Hb5.
  (* 5. the parent *)
  assert (Hrm : exists w6,
             match parent (nodes w5 self) with
             | Some p => remove f p self w5
             | None => Ok w5 tt
             end = Ok w6 tt /\ bus w6 = bus w5 /\ shrinks w5 w6).
  { destruct (parent (nodes w5 self)) as [p|].
    - apply (@remove_returns H f p self w5 Hb5 HHf).
    - exists w5. split; [reflexivity|]. split; [reflexivity | apply shrinks_refl]. }
  destruct Hrm as (w6 & E6 & B6 & S6).
  assert (L36 : later w3 w6).
  { split.
    - eapply shrinks_trans; [exact S4|]. eapply shrinks_trans; eassumption.
    - apply cache_shrinks_same. rewrite B6. exact C4. }
  exists w1, w2, rt, w4, w6.
  split; [exact E1|]. split; [exact E2|]. split; [exact E4|].
  split; [exact E6|]. split; [|split; [|split; [|split; [|split]]]].
  - cbn [destroy]. unfold destroy_body. rewrite Hcls.
    unfold UIElement_destroy. rewrite Hdis.
    erewrite bind_ok by exact E1.
    erewrite bind_ok by exact E2.
    erewrite bind_ok by apply if_ok. fold w3.
    erewrite bind_ok by exact E4.
    unfold bind at 1, modify at 1. fold w5.
    erewrite bind_ok by exact E6.
    reflexivity.
  - exact Q4.
  - unfold settled. rewrite B6. exact Q4.
  - eapply later_trans; [exact L1|]. eapply later_trans; eassumption.
  - destruct (S6 self) as (_ & _ & _ & _ & _ & D). apply D.
    unfold w5. simpl. rewrite Nat.eqb_refl. reflexivity.
  - intros Hc U. rewrite B6. change (bus w5) with (bus w4). rewrite C4.
    unfold w3. rewrite Hc.
    destruct (proj2 L1 U) as [U1 _].
    assert (U2 : unique_keys w2).
    { unfold unique_keys. destruct I2 as (B2 & _). rewrite B2. exact U1. }
    destruct (unregister_later self w2) as (_ & _ & _ & G).
    replace (address (nodes w self)) with (address (nodes w2 self)).
    + apply G, U2.
    + destruct (S2 self) as (_ & A2 & _). rewrite A2.
      destruct (proj1 L1 self) as (_ & A1 & _). exact A1.
Qed.

Lemma destroy_done H f self w :
  (forall c w1, In c (children (nodes w self)) -> later w w1 -> settled w1 ->
     exists w2, destroy f c w1 = Ok w2 tt /\ settled w2 /\ later w1 w2) ->
  bounded H w -> settled w ->
  is_root_class (cls (nodes w self)) = false ->
  (H <= f)%nat -> (1 <= f)%nat ->
  exists w', destroy (S f) self w = Ok w' tt /\ settled w' /\ later w w'.
Proof.
  intros Hchild Hb Hq Hcls HHf H1f.
  destruct (disposed (nodes w self)) eqn:Hdis.
  - exists w. split; [|split; [exact Hq | apply later_refl]].
    cbn [destroy]. unfold destroy_body. rewrite Hcls.
    unfold UIElement_destroy. rewrite Hdis. reflexivity.
  - destruct (@destroy_step H f self w Hchild Hb Hq Hcls Hdis HHf H1f)
      as (w1 & w2 & rt & w4 & w6 & _ & _ & _ & _ & E & _ & Q6 & L6 & _).
    eexists. split; [exact E|]. split; [exact Q6|].
    eapply later_trans; [exact L6|]. split.
    + eapply shrinks_trans; apply shrinks_upd; auto;
        intros n; simpl; try apply incl_refl. intros x [].
    + apply cache_shrinks_same. reflexivity.
Qed.

(** In a settled world whose tree is bounded by [H], [destroy] on a node
    with at most [k] levels of plain elements below it returns. *)
Lemma destroy_returns H k : forall fuel self w,
  bounded H w -> settled w -> plain_below w self -> height_le k w self ->
  (H + k + 2 <= fuel)%nat ->
  exists w', destroy fuel self w = Ok w' tt /\ settled w' /\ later w w'.
Proof.
  induction k as [|k IH]; intros fuel self w Hb Hq Hp Hh Hf;
    (destruct fuel as [|f]; [lia|]);
    apply destroy_done with H; auto; try lia;
    try (apply Hp; constructor).
  - simpl in Hh. rewrite Hh. intros c w1 [].
  - intros c w1 Hc [S1 C1] Q1. apply IH; auto; try lia.
    + eapply bounded_shrinks; eassumption.
    + eapply plain_below_shrinks; eassumption.
    + eapply height_le_shrinks; [exact S1|]. apply Hh, Hc.
Qed.

Lemma plain_belowb_sound k : forall w n,
  height_le k w n -> plain_belowb k w n = true -> plain_below w n.
Proof.
  induction k as [|k IH]; intros w n Hh Hb m Hr; simpl in Hb;
    apply andb_prop in Hb; destruct Hb as [Hn Hc];
    apply negb_true_iff in Hn.
  - simpl in Hh. inversion Hr as [|n' c m' Hin _]; subst; [exact Hn|].
    rewrite Hh in Hin. destruct Hin.
  - inversion Hr as [|n' c m' Hin Hr']; subst; [exact Hn|].
    rewrite forallb_forall in Hc.
    apply (IH w c (Hh c Hin) (Hc c Hin) m Hr').
Qed.

(** ** What no call of the life cycle undoes *)

Lemma keeps_ret A (a : A) : keeps (ret a).
Proof. intros w. apply later_refl. Qed.

Lemma keeps_timeout A : keeps (@timeout A).
Proof. intros w. exact I. Qed.

Lemma keeps_bind A B (m : M A) (k : A -> M B) :
  keeps m -> (forall a, keeps (k a)) -> keeps (x <- m ;; k x).
Proof.
  intros Hm Hk w. unfold bind. specialize (Hm w).
  destruct (m w) as [w1 a|w1 e|]; auto.
  specialize (Hk a w1).
  destruct (k a w1); auto; eapply later_trans; eassumption.
Qed.

Lemma keeps_modify (f : World -> World) :
  (forall w, later w (f w)) -> keeps (modify f).
Proof. intros Hf w. apply Hf. Qed.

Lemma keeps_for_each A (body : A -> M unit) (xs : list A) :
  (forall x, keeps (body x)) -> keeps (for_each xs body).
Proof.
  intros Hb. induction xs as [|x xs IH]; cbn [for_each].
  - apply keeps_ret.
  - apply keeps_bind; auto.
Qed.

Lemma later_upd w self g :
  (forall n, cls (g n) = cls n) ->
  (forall n, address (g n) = address n) ->
  (forall n, has_bus (g n) = has_bus n) ->
  (forall n, incl (children (g n)) (children n)) ->
  (forall n, parent (g n) = parent n \/ parent (g n) = None) ->
  (forall n, disposed n = true -> disposed (g n) = true) ->
  later w (upd self g w).
Proof.
  intros. split; [apply shrinks_upd; assumption|].
  apply cache_shrinks_same. reflexivity.
Qed.

Lemma later_bus w f :
  (forall b, _handler_cache (f b) = _handler_cache b) ->
  later w (upd_bus f w).
Proof.
  intros Hf. split; [apply shrinks_same_nodes; reflexivity|].
  apply cache_shrinks_same. simpl. apply Hf.
Qed.

Lemma later_print w l : later w (print l w).
Proof.
  split; [apply shrinks_same_nodes; reflexivity|].
  apply cache_shrinks_same. reflexivity.
Qed.

Lemma later_bus_post w msg : later w (bus_post msg w).
Proof.
  unfold bus_post, _write_debug.
  destruct (receiver msg =? BROADCAST);
    (eapply later_trans; [apply later_bus | apply later_print]); reflexivity.
Qed.

(** Fix the world a computation starts in. *)
Ltac at_world w := unfold keeps at 1; intros w; cbv beta.

Ltac keep_upd := apply keeps_modify; intros ?; apply later_upd; simpl; auto;
  intros ?; apply incl_refl.

Ltac keep_done := first [apply keeps_ret | apply later_refl | exact I].

Lemma keeps_reset_graphics fuel : forall self recursive,
  keeps (reset_graphics fuel self recursive).
Proof.
  induction fuel as [|f IH]; intros self recursive; cbn [reset_graphics];
    (apply keeps_bind; [keep_upd|]); intros _;
    (destruct recursive; [|keep_done]);
    at_world w0; apply keeps_for_each; intros c;
    [apply keeps_timeout | apply IH].
Qed.

Lemma keeps_reset fuel : forall self, keeps (reset fuel self).
Proof.
  induction fuel as [|f IH]; intros self; cbn [reset];
    (apply keeps_bind; [apply keeps_reset_graphics|]); intros _;
    (apply keeps_bind; [keep_upd|]); intros _;
    at_world w0; apply keeps_for_each; intros c;
    [apply keeps_timeout | apply IH].
Qed.

Lemma keeps_reset_db fuel : forall self recursive,
  keeps (reset_db fuel self recursive).
Proof.
  induction fuel as [|f IH]; intros self recursive; cbn [reset_db];
    (apply keeps_bind; [keep_upd|]); intros _;
    (destruct recursive; [|keep_done]);
    at_world w0; apply keeps_for_each; intros c;
    [apply keeps_timeout | apply IH].
Qed.

Lemma keeps_root fuel self : keeps (root fuel self).
Proof.
  intros w. unfold root, UIElement_root.
  destruct (is_root_class (cls (nodes w self))); [apply later_refl|].
  destruct (cache (nodes w self)); [apply later_refl|].
  destruct (root_walk fuel self w); [|exact I].
  apply later_upd; simpl; auto. intros n. apply incl_refl.
Qed.

Lemma keeps_remove fuel self child : keeps (remove fuel self child).
Proof.
  unfold remove. at_world w0.
  destruct (is_in child (children (nodes w0 self))); [|keep_done].
  apply keeps_bind.
  - apply keeps_modify. intros w. apply later_upd; simpl; auto.
    intros n. apply incl_list_remove.
  - intros _. apply keeps_bind; [keep_upd|]. intros _. apply keeps_reset.
Qed.

Section KeepsPump.

Variable invoke : oid -> Packet -> M unit.
Hypothesis invoke_keeps : forall h msg, keeps (invoke h msg).

Lemma keeps_call_handler h msg addr : keeps (_call_handler invoke h msg addr).
Proof.
  intros w. unfold _call_handler. pose proof (invoke_keeps h msg w) as Hi.
  destruct (invoke h msg w) as [w1 a|w1 e|]; auto.
Qed.

Lemma keeps_pump_broadcast items msg : forall processed,
  keeps (pump_broadcast invoke items msg processed).
Proof.
  induction items as [|[addr [h|]] rest IH]; intros processed;
    cbn [pump_broadcast]; auto using keeps_ret.
  apply keeps_bind; [apply keeps_call_handler | auto].
Qed.

Lemma keeps_pump_messages messages : forall processed,
  keeps (pump_messages invoke messages processed).
Proof.
  induction messages as [|msg rest IH]; intros processed;
    cbn [pump_messages]; [keep_done|].
  at_world w0.
  destruct (receiver msg =? BROADCAST).
  - apply keeps_bind; [apply keeps_pump_broadcast | auto].
  - destruct (dict_get Z.eqb (receiver msg) (_handler_cache (bus w0)))
      as [[h|]|]; try apply IH.
    apply keeps_bind; [apply keeps_call_handler | auto].
Qed.

Lemma keeps_pump : keeps (pump invoke).
Proof.
  intros w. unfold pump. destruct (_queue (bus w)) as [|m ms];
    [apply later_refl|].
  assert (K : keeps (processed <- pump_messages invoke (m :: ms) 0 ;;
                     modify (fun w1 =>
                       let w2 := upd_bus (fun b => with_processed
                                   (_processed b + processed) b) w1 in
                       if _cleanup_count (bus w2) <=? _processed (bus w2)
                       then upd_bus (with_processed 0) (_cleanup w2)
                       else w2) ;;;
                     ret processed)).
  { apply keeps_bind; [apply keeps_pump_messages|]. intros processed.
    apply keeps_bind; [|intros _; keep_done].
    apply keeps_modify. intros w1. cbn zeta. rewrite cleanup_nothing.
    match goal with |- context [if ?c then _ else _] => destruct c end.
    - eapply later_trans; apply later_bus; reflexivity.
    - apply later_bus; reflexivity. }
  specialize (K (upd_bus (with_queue []) w)).
  assert (L0 : later w (upd_bus (with_queue []) w))
    by (apply later_bus; reflexivity).
  match goal with
  | |- match ?r with _ => _ end =>
      destruct r; auto; eapply later_trans; eassumption
  end.
Qed.

End KeepsPump.

Lemma keeps_post handle_rec fuel self recv resp att priority :
  (forall h msg, keeps (handle_rec h msg)) ->
  keeps (post handle_rec fuel self recv resp att priority).
Proof.
  intros Hh. unfold post. apply keeps_bind; [apply keeps_root|]. intros rt.
  at_world w0. destruct (connected rt w0); [|keep_done].
  apply keeps_bind.
  - apply keeps_modify. intros w. apply later_bus_post.
  - intros _. destruct priority; [|keep_done].
    apply keeps_bind; [apply keeps_pump; exact Hh | intros _; keep_done].
Qed.

Lemma keeps_unregister_if rt self :
  keeps (fun w1 => if connected rt w1 then Ok (unregister self w1) tt else Ok w1 tt).
Proof.
  intros w. destruct (connected rt w); [apply unregister_later | apply later_refl].
Qed.

Lemma keeps_destroy_body handle_rec destroy_rec fuel self :
  (forall h msg, keeps (handle_rec h msg)) ->
  (forall c, keeps (destroy_rec c)) ->
  keeps (destroy_body handle_rec destroy_rec fuel self).
Proof.
  intros Hh Hd. unfold destroy_body. at_world w0.
  destruct (is_root_class (cls (nodes w0 self))).
  - unfold UIRoot_destroy.
    repeat (apply keeps_bind; [apply keeps_post; exact Hh | intros _]).
    keep_upd.
  - unfold UIElement_destroy. cbv beta.
    destruct (disposed (nodes w0 self)); [keep_done|].
    apply keeps_bind; [apply keeps_for_each; exact Hd | intros _].
    apply keeps_bind; [apply keeps_root | intros rt].
    apply keeps_bind; [apply keeps_unregister_if | intros _].
    apply keeps_bind; [apply keeps_post; exact Hh | intros _].
    apply keeps_bind; [keep_upd | intros _].
    apply keeps_bind.
    + at_world w2.
      destruct (parent (nodes w2 self)); [apply keeps_remove | keep_done].
    + intros _. apply keeps_bind.
      * apply keeps_modify. intros w. apply later_upd; simpl; auto.
        intros n x [].
      * intros _. keep_upd.
Qed.

Lemma keeps_handle_message_body handle_rec destroy_rec fuel self msg :
  (forall h m, keeps (handle_rec h m)) ->
  (forall c, keeps (destroy_rec c)) ->
  keeps (handle_message_body handle_rec destroy_rec fuel self msg).
Proof.
  intros Hh Hd. unfold handle_message_body. at_world w0.
  destruct (disposed (nodes w0 self) || (sender msg =? address (nodes w0 self)));
    [keep_done|].
  destruct (rs msg); try keep_done.
  - apply keeps_reset.
  - apply Hd.
  - apply keeps_reset_db.
  - destruct (store_update (store (nodes w0 self)) (data msg));
      [apply later_refl|].
    apply later_upd; simpl; auto. intros n. apply incl_refl.
  - destruct (store_update (store (nodes w0 self)) (data msg));
      [apply later_refl|].
    apply later_upd; simpl; auto. intros n. apply incl_refl.
  - apply keeps_bind.
    + apply keeps_modify. intros w. apply later_print.
    + intros _. at_world w1. apply keeps_post. exact Hh.
Qed.

(** Neither [destroy] nor [handle_message], with whatever they set off
    through the bus, clears a [disposed] flag, adds a child, sets a parent,
    changes an address or adds a cache entry. *)
Lemma keeps_life_cycle fuel :
  (forall self, keeps (destroy fuel self)) /\
  (forall self msg, keeps (handle_message fuel self msg)).
Proof.
  induction fuel as [|f [IHd IHh]]; split; intros; cbn [destroy handle_message];
    try apply keeps_timeout.
  - apply keeps_destroy_body; assumption.
  - apply keeps_handle_message_body; assumption.
Qed.

(** ** What the life cycle never raises *)

Lemma quiet_ret A (a : A) : quiet (ret a).
Proof. intros w. exact I. Qed.

Lemma quiet_bind A B (m : M A) (k : A -> M B) :
  quiet m -> (forall a, quiet (k a)) -> quiet (x <- m ;; k x).
Proof.
  intros Hm Hk w. unfold bind. specialize (Hm w).
  destruct (m w) as [w1 a|w1 e|]; auto. apply Hk.
Qed.

Lemma quiet_modify (f : World -> World) : quiet (modify f).
Proof. intros w. exact I. Qed.

Lemma quiet_for_each A (body : A -> M unit) (xs : list A) :
  (forall x, quiet (body x)) -> quiet (for_each xs body).
Proof.
  intros Hb. induction xs as [|x xs IH]; cbn [for_each].
  - apply quiet_ret.
  - apply quiet_bind; auto.
Qed.

Ltac in_world w := unfold quiet at 1; intros w; cbv beta.

Ltac quiet_done :=
  first [apply quiet_ret | apply quiet_modify | exact I | intros ?; exact I].

Lemma quiet_reset_graphics fuel : forall self recursive,
  quiet (reset_graphics fuel self recursive).
Proof.
  induction fuel as [|f IH]; intros self recursive; cbn [reset_graphics];
    (apply quiet_bind; [quiet_done|]); intros _;
    (destruct recursive; [|quiet_done]);
    in_world w0; apply quiet_for_each; intros c; [quiet_done | apply IH].
Qed.

Lemma quiet_reset fuel : forall self, quiet (reset fuel self).
Proof.
  induction fuel as [|f IH]; intros self; cbn [reset];
    (apply quiet_bind; [apply quiet_reset_graphics|]); intros _;
    (apply quiet_bind; [quiet_done|]); intros _;
    in_world w0; apply quiet_for_each; intros c; [quiet_done | apply IH].
Qed.

Lemma quiet_root fuel self : quiet (root fuel self).
Proof.
  intros w. unfold root, UIElement_root.
  destruct (is_root_class (cls (nodes w self))); [exact I|].
  destruct (cache (nodes w self)); [exact I|].
  destruct (root_walk fuel self w); exact I.
Qed.

Lemma quiet_remove fuel self child : quiet (remove fuel self child).
Proof.
  unfold remove. in_world w0.
  destruct (is_in child (children (nodes w0 self))); [|exact I].
  repeat (apply quiet_bind; [quiet_done | intros _]). apply quiet_reset.
Qed.

(** Whatever the handlers are. *)
Lemma quiet_pump invoke : quiet (pump invoke).
Proof.
  intros w. pose proof (pump_log_spec invoke w) as H.
  destruct (pump_log invoke w) as [w1 ds| |]; try contradiction.
  - destruct H as (w' & H & _). rewrite H. exact I.
  - destruct H as [H _]. rewrite H. exact I.
Qed.

Lemma quiet_post handle_rec fuel self recv resp att priority :
  quiet (post handle_rec fuel self recv resp att priority).
Proof.
  unfold post. apply quiet_bind; [apply quiet_root|]. intros rt.
  in_world w0. destruct (connected rt w0); [|exact I].
  apply quiet_bind; [quiet_done|]. intros _.
  destruct priority; [|quiet_done].
  apply quiet_bind; [apply quiet_pump | intros _; quiet_done].
Qed.

Lemma quiet_destroy_body handle_rec destroy_rec fuel self :
  (forall c, quiet (destroy_rec c)) ->
  quiet (destroy_body handle_rec destroy_rec fuel self).
Proof.
  intros Hd. unfold destroy_body. in_world w0.
  destruct (is_root_class (cls (nodes w0 self))).
  - unfold UIRoot_destroy.
    repeat (apply quiet_bind; [apply quiet_post | intros _]). quiet_done.
  - unfold UIElement_destroy. cbv beta.
    destruct (disposed (nodes w0 self)); [exact I|].
    apply quiet_bind; [apply quiet_for_each; exact Hd | intros _].
    apply quiet_bind; [apply quiet_root | intros rt].
    apply quiet_bind; [in_world w1; destruct (connected rt w1); exact I | intros _].
    apply quiet_bind; [apply quiet_post | intros _].
    apply quiet_bind; [quiet_done | intros _].
    apply quiet_bind.
    + in_world w2.
      destruct (parent (nodes w2 self)); [apply quiet_remove | exact I].
    + intros _. apply quiet_bind; [quiet_done | intros _; quiet_done].
Qed.

(** [destroy] lets no exception out: what a handler raises inside the
    nested pump is caught there. *)
Lemma quiet_destroy fuel : forall self, quiet (destroy fuel self).
Proof.
  induction fuel as [|f IH]; intros self; cbn [destroy].
  - intros w. exact I.
  - apply quiet_destroy_body. exact IH.
Qed.

Lemma bind_inv A B (m : M A) (k : A -> M B) w w' b :
  (x <- m ;; k x) w = Ok w' b ->
  exists w1 a, m w = Ok w1 a /\ k a w1 = Ok w' b.
Proof.
  unfold bind. destruct (m w) as [w1 a|w1 e|]; try discriminate.
  intros H. exists w1, a. auto.
Qed.

Lemma modify_inv (f : World -> World) w w' u :
  modify f w = Ok w' u -> w' = f w.
Proof. unfold modify. intros H. inversion H. reflexivity. Qed.

(** The steps of a call of [UIElement.destroy] that has returned. *)
Lemma destroy_inv f self w w' :
  is_root_class (cls (nodes w self)) = false ->
  disposed (nodes w self) = false ->
  destroy (S f) self w = Ok w' tt ->
  exists w1 w2 rt w4 w6,
    for_each (children (nodes w self)) (destroy f) w = Ok w1 tt /\
    root f self w1 = Ok w2 rt /\
    post (handle_message f) f self BROADCAST R_DISPOSED (VAtom (AObj self)) true
      (if connected rt w2 then unregister self w2 else w2) = Ok w4 tt /\
    match parent (nodes (upd self (with_disposed true) w4) self) with
    | Some p => remove f p self (upd self (with_disposed true) w4)
    | None => Ok (upd self (with_disposed true) w4) tt
    end = Ok w6 tt /\
    w' = upd self (with_parent None) (upd self (with_children []) w6).
Proof.
  intros Hcls Hdis H. cbn [destroy] in H. unfold destroy_body in H.
  rewrite Hcls in H. unfold UIElement_destroy in H. rewrite Hdis in H.
  apply bind_inv in H. destruct H as (w1 & [] & E1 & H).
  apply bind_inv in H. destruct H as (w2 & rt & E2 & H).
  apply bind_inv in H. destruct H as (w3 & [] & E3 & H).
  rewrite if_ok in E3. inversion E3 as [E3']. clear E3.
  apply bind_inv in H. destruct H as (w4 & [] & E4 & H).
  apply bind_inv in H. destruct H as (w5 & [] & E5 & H).
  apply modify_inv in E5. subst w5.
  apply bind_inv in H. destruct H as (w6 & [] & E6 & H).
  apply bind_inv in H. destruct H as (w7 & [] & E7 & H).
  apply modify_inv in E7. apply modify_inv in H. subst w7 w'.
  exists w1, w2, rt, w4, w6. subst w3. auto.
Qed.

Lemma keeps_ok A (m : M A) w w' a : keeps m -> m w = Ok w' a -> later w w'.
Proof. intros K E. specialize (K w). rewrite E in K. exact K. Qed.

Lemma later_disposed w w' o :
  later w w' -> disposed (nodes w o) = true -> disposed (nodes w' o) = true.
Proof. intros [S _]. destruct (S o) as (_ & _ & _ & _ & _ & D). exact D. Qed.

(** The world after the last two assignments of [destroy]. *)
Lemma later_cleared self w :
  later w (upd self (with_parent None) (upd self (with_children []) w)).
Proof.
  eapply later_trans; apply later_upd; simpl; auto;
    intros n; try apply incl_refl. intros x [].
Qed.

Lemma later_detached f self w5 w6 :
  match parent (nodes w5 self) with
  | Some p => remove f p self w5
  | None => Ok w5 tt
  end = Ok w6 tt ->
  later w5 w6.
Proof.
  destruct (parent (nodes w5 self)) as [p|]; intros E.
  - eapply keeps_ok; [apply keeps_remove | exact E].
  - inversion E. apply later_refl.
Qed.

Lemma children_returning H k f self w :
  bounded H w -> plain_below w self -> height_le k w self ->
  (H + k + 1 <= f)%nat ->
  forall c w1, In c (children (nodes w self)) -> later w w1 -> settled w1 ->
  exists w2, destroy f c w1 = Ok w2 tt /\ settled w2 /\ later w1 w2.
Proof.
  intros Hb Hp Hh Hf c w1 Hc [S1 C1] Q1. destruct k as [|k].
  - simpl in Hh. rewrite Hh in Hc. destruct Hc.
  - apply destroy_returns with H k; try lia.
    + eapply bounded_shrinks; eassumption.
    + exact Q1.
    + eapply plain_below_shrinks; eassumption.
    + eapply height_le_shrinks; [exact S1|]. apply Hh, Hc.
Qed.

(** What [UIElement.destroy] leaves of the node. *)
Lemma destroy_final f self w w' :
  is_root_class (cls (nodes w self)) = false ->
  disposed (nodes w self) = false ->
  destroy (S f) self w = Ok w' tt ->
  disposed (nodes w' self) = true /\
  parent (nodes w' self) = None /\
  children (nodes w' self) = [].
Proof.
  intros Hcls Hdis E.
  destruct (@destroy_inv f self w w' Hcls Hdis E)
    as (w1 & w2 & rt & w4 & w6 & _ & _ & _ & E6 & Ew).
  assert (D6 : disposed (nodes w6 self) = true).
  { apply later_disposed with (upd self (with_disposed true) w4).
    - eapply later_detached. exact E6.
    - simpl. rewrite Nat.eqb_refl. reflexivity. }
  subst w'. simpl. rewrite Nat.eqb_refl. simpl. auto.
Qed.

Lemma demo_tree_bounded : bounded 2 demo_tree.
Proof.
  intros o. split; [apply height_leb_sound | apply up_leb_sound];
    do 4 (destruct o as [|o]; [vm_compute; reflexivity|]);
    vm_compute; reflexivity.
Qed.

Lemma handle_message_of_disposed fuel self msg w :
  disposed (nodes w self) = true ->
  handle_message (S fuel) self msg w = Ok w tt.
Proof.
  intros Hd. cbn [handle_message]. unfold handle_message_body.
  rewrite Hd. reflexivity.
Qed.

(** A unicast whose address resolves to nothing, or to the handler of a
    disposed node, passes without a trace in the tree. *)
Lemma unicast_to_disposed fuel self msg w :
  disposed (nodes w self) = true ->
  _queue (bus w) = [msg] ->
  (receiver msg =? BROADCAST) = false ->
  match dict_get Z.eqb (receiver msg) (_handler_cache (bus w)) with
  | Some (Some h) => h = self
  | _ => True
  end ->
  exists w' n,
    bus_pump (S fuel) w = Ok w' n /\
    nodes w' = nodes w /\ settled w' /\ stdout w' = stdout w.
Proof.
  intros Hd Hq Hrb Hc.
  unfold bus_pump, pump. rewrite Hq.
  unfold bind at 1. cbn [pump_messages]. rewrite Hrb.
  cbn [bus upd_bus _handler_cache with_queue].
  destruct (dict_get Z.eqb (receiver msg) (_handler_cache (bus w)))
    as [[h|]|].
  - subst h. unfold bind at 1. unfold _call_handler.
    rewrite handle_message_of_disposed by exact Hd.
    cbn [pump_messages]. unfold ret, bind, modify. rewrite cleanup_nothing.
    eexists. eexists. split; [reflexivity|].
    match goal with |- context [if ?c then _ else _] => destruct c end;
      repeat split; reflexivity.
  - cbn [pump_messages]. unfold ret, bind, modify. rewrite cleanup_nothing.
    eexists. eexists. split; [reflexivity|].
    match goal with |- context [if ?c then _ else _] => destruct c end;
      repeat split; reflexivity.
  - cbn [pump_messages]. unfold ret, bind, modify. rewrite cleanup_nothing.
    eexists. eexists. split; [reflexivity|].
    match goal with |- context [if ?c then _ else _] => destruct c end;
      repeat split; reflexivity.
Qed.

(** When the root found by [destroy] carries the bus, the entry at the
    node's address is gone for good. *)
Lemma destroy_unregisters f self w w' :
  is_root_class (cls (nodes w self)) = false ->
  disposed (nodes w self) = false ->
  destroy (S f) self w = Ok w' tt ->
  exists w1 w2 rt,
    for_each (children (nodes w self)) (destroy f) w = Ok w1 tt /\
    root f self w1 = Ok w2 rt /\
    (connected rt w2 = true -> unique_keys w ->
     dict_get Z.eqb (address (nodes w self)) (_handler_cache (bus w')) = None).
Proof.
  intros Hcls Hdis E.
  destruct (@destroy_inv f self w w' Hcls Hdis E)
    as (w1 & w2 & rt & w4 & w6 & E1 & E2 & E4 & E6 & Ew).
  exists w1, w2, rt. split; [exact E1|]. split; [exact E2|].
  intros Hc U. rewrite Hc in E4.
  destruct (keeps_life_cycle f) as [Kd Kh].
  assert (L1 : later w w1)
    by (eapply keeps_ok; [apply keeps_for_each; exact Kd | exact E1]).
  assert (L2 : later w1 w2)
    by (eapply keeps_ok; [apply keeps_root | exact E2]).
  pose proof (later_trans L1 L2) as L02.
  destruct (proj2 L02 U) as [U2 _].
  destruct (unregister_later self w2) as (L3 & _ & _ & G).
  destruct (proj2 L3 U2) as [U3 _].
  assert (L4 : later (unregister self w2) w4)
    by (eapply keeps_ok; [apply keeps_post; exact Kh | exact E4]).
  assert (L5 : later w4 (upd self (with_disposed true) w4)).
  { apply later_upd; simpl; auto. intros n. apply incl_refl. }
  pose proof (later_detached _ _ _ E6) as L6.
  pose proof (later_cleared self w6) as L7. rewrite <- Ew in L7.
  assert (L37 : later (unregister self w2) w').
  { eapply later_trans; [exact L4|]. eapply later_trans; [exact L5|].
    eapply later_trans; eassumption. }
  destruct (proj2 L37 U3) as [_ G7].
  replace (address (nodes w self)) with (address (nodes w2 self)).
  - destruct (G7 (address (nodes w2 self))) as [Hn|Hn]; [exact Hn|].
    rewrite Hn. apply G, U2.
  - destruct (proj1 L02 self) as (_ & A & _). exact A.
Qed.

(** C4, refuted as stated: the claim speaks of every node, but after
    [root.destroy()] has returned the root is not disposed and its handler
    is still cached at address 1; a palette sent to that address is
    handled, and rewrites the store of the root. *)
Lemma destroyed_root_still_takes_messages :
  match destroy 8 0%nat demo_tree with
  | Ok w' _ =>
      disposed (nodes w' 0%nat) = false /\
      dict_get Z.eqb 1 (_handler_cache (bus w')) = Some (Some 0%nat) /\
      store (nodes w' 0%nat) = [] /\
      match bus_pump 5
              (bus_post (mkPacket 1 99 R_VIS (VDict [("k", AInt 42)])) w') with
      | Ok w2 n => n = 1 /\ store (nodes w2 0%nat) = [("k", AInt 42)]
      | _ => False
      end
  | _ => False
  end.
Proof. vm_compute. repeat split. Qed.

(** C4, amended.  A node [N] that is not a [UIRoot]: its [destroy] is
    [UIElement.destroy].  Once
    [N.destroy()] has returned, [N] is disposed, and it stays disposed
    through every later [destroy], [handle_message] and [pump].  For a
    disposed [N], (a) its handler returns at once for every message and
    leaves the world as it is, and so does the delivery [_call_handler]
    makes to it, for a unicast or as a member of a broadcast; (b) the pump
    of a unicast message whose address
    resolves to no handler or to the handler of [N] changes no node and
    prints nothing.  When the root found by [destroy] carries the bus, the
    cache has no entry at the address of [N] afterwards; when [N] was
    detached the entry may stay, and (a) applies.  In a world where no
    message is waiting and the tree is bounded, [N.destroy()] does
    return. *)
Theorem destroyed_node_ignores_messages (f : nat) (self : oid) (w : World) :
  is_root_class (cls (nodes w self)) = false ->
  (forall w', destroy (S f) self w = Ok w' tt ->
     disposed (nodes w' self) = true /\
     (disposed (nodes w self) = false ->
      exists w1 w2 rt,
        for_each (children (nodes w self)) (destroy f) w = Ok w1 tt /\
        root f self w1 = Ok w2 rt /\
        (connected rt w2 = true -> unique_keys w ->
         dict_get Z.eqb (address (nodes w self)) (_handler_cache (bus w'))
           = None))) /\
  (forall fuel w1 w2,
     disposed (nodes w1 self) = true ->
     (forall n, destroy fuel n w1 = Ok w2 tt -> disposed (nodes w2 self) = true) /\
     (forall n msg, handle_message fuel n msg w1 = Ok w2 tt ->
        disposed (nodes w2 self) = true) /\
     (forall k, bus_pump fuel w1 = Ok w2 k -> disposed (nodes w2 self) = true)) /\
  (forall fuel msg addr w2,
     disposed (nodes w2 self) = true ->
     handle_message (S fuel) self msg w2 = Ok w2 tt /\
     _call_handler (handle_message (S fuel)) self msg addr w2 = Ok w2 tt) /\
  (forall fuel msg w2,
     disposed (nodes w2 self) = true ->
     _queue (bus w2) = [msg] ->
     (receiver msg =? BROADCAST) = false ->
     match dict_get Z.eqb (receiver msg) (_handler_cache (bus w2)) with
     | Some (Some h) => h = self
     | _ => True
     end ->
     exists w3 n,
       bus_pump (S fuel) w2 = Ok w3 n /\
       nodes w3 = nodes w2 /\ settled w3 /\ stdout w3 = stdout w2) /\
  (forall H k,
     bounded H w -> settled w -> plain_below w self -> height_le k w self ->
     (H + k + 1 <= f)%nat ->
     exists w', destroy (S f) self w = Ok w' tt).
Proof.
  intros Hcls. split; [|split; [|split; [|split]]].
  - intros w' E. destruct (disposed (nodes w self)) eqn:Hdis.
    + split; [|discriminate].
      cbn [destroy] in E. unfold destroy_body in E. rewrite Hcls in E.
      unfold UIElement_destroy in E. rewrite Hdis in E.
      inversion E; subst. exact Hdis.
    + split.
      * destruct (@destroy_final f self w w' Hcls Hdis E) as (D & _). exact D.
      * intros _. apply destroy_unregisters; assumption.
  - intros fuel w1 w2 Hd. destruct (keeps_life_cycle fuel) as [Kd Kh].
    split; [|split].
    + intros n E. eapply later_disposed; [|exact Hd].
      eapply keeps_ok; [apply Kd | exact E].
    + intros n msg E. eapply later_disposed; [|exact Hd].
      eapply keeps_ok; [apply Kh | exact E].
    + intros k E. eapply later_disposed; [|exact Hd].
      eapply keeps_ok; [apply keeps_pump; exact Kh | exact E].
  - intros fuel msg addr w2 Hd.
    pose proof (@handle_message_of_disposed fuel self msg w2 Hd) as Hn.
    split; [exact Hn|]. unfold _call_handler. rewrite Hn. reflexivity.
  - intros fuel msg w2. apply unicast_to_disposed.
  - intros H k Hb Hq Hp Hh Hf.
    destruct (@destroy_done H f self w
                (@children_returning H k f self w Hb Hp Hh Hf)
                Hb Hq Hcls ltac:(lia) ltac:(lia)) as (w' & E & _).
    exists w'. exact E.
Qed.

Lemma destroyed_node_ignores_messages_witness :
  exists w',
    destroy 5 1%nat demo_tree = Ok w' tt /\
    disposed (nodes w' 1%nat) = true /\
    handle_message 1 1%nat (mkPacket 2 1 R_RESET (VAtom ANone)) w' = Ok w' tt.
Proof.
  destruct (@destroyed_node_ignores_messages 4 1%nat demo_tree)
    as (Hdone & _ & Hnoop & _ & Hret).
  - vm_compute. reflexivity.
  - destruct (Hret 2%nat 1%nat) as (w' & E).
    + exact demo_tree_bounded.
    + vm_compute. reflexivity.
    + apply plain_belowb_sound with 1%nat;
        [apply height_leb_sound|]; vm_compute; reflexivity.
    + apply height_leb_sound. vm_compute. reflexivity.
    + lia.
    + destruct (Hdone w' E) as [D _].
      exists w'. split; [exact E|]. split; [exact D|].
      apply (Hnoop 0%nat (mkPacket 2 1 R_RESET (VAtom ANone)) 2 w' D).
Defined.

(** The two cases of C4, run.  [a] under the root: [destroy] removes its
    cache entry.  [b] detached by [root.remove(b)] before it ever looked up
    its root: [destroy] finds no bus, the entry at address 3 stays, and a
    later [R_RESET] for address 3 is delivered to the disposed node, which
    ignores it. *)
Example destroy_with_and_without_bus :
  match destroy 5 1%nat demo_tree with
  | Ok w' _ =>
      dict_get Z.eqb 2 (_handler_cache (bus w')) = None /\
      disposed (nodes w' 1%nat) = true
  | _ => False
  end /\
  match (remove 5 0%nat 2%nat ;;; destroy 5 2%nat) demo_tree with
  | Ok w' _ =>
      dict_get Z.eqb 3 (_handler_cache (bus w')) = Some (Some 2%nat) /\
      disposed (nodes w' 2%nat) = true /\
      match bus_pump_log 5
              (run (element_post 5 0%nat 3 R_RESET (VAtom ANone) false) w') with
      | Ok w2 ds =>
          map target ds = [(3, 2%nat)] /\
          map (fun o => cache_r (nodes w2 o)) [0; 1; 2; 3]%nat
            = map (fun o => cache_r (nodes w' o)) [0; 1; 2; 3]%nat /\
          redraw (nodes w2 2%nat) = redraw (nodes w' 2%nat)
      | _ => False
      end
  | _ => False
  end.
Proof. vm_compute. repeat split. Qed.


(** [UIRoot.destroy] is another method: it broadcasts [R_CLEAR],
    [R_RESET] and [R_TERMINATE] and stops the loop; the elements dispose
    themselves, the root stays registered and is not disposed. *)
Example root_destroy_keeps_root :
  match destroy 8 0%nat demo_tree with
  | Ok w' _ =>
      map (fun o => disposed (nodes w' o)) [0; 1; 2; 3]%nat
        = [false; true; true; true] /\
      running (nodes w' 0%nat) = false /\
      children (nodes w' 0%nat) = [] /\
      _handler_cache (bus w') = [(1, Some 0%nat)]
  | _ => False
  end.
Proof. vm_compute. repeat split. Qed.

(** The tree the examples start from. *)
Example demo_tree_shape :
  map (fun o => (address (nodes demo_tree o), parent (nodes demo_tree o),
                 children (nodes demo_tree o), depth (nodes demo_tree o)))
      [0; 1; 2; 3]%nat
    = [(1, None, [1; 2]%nat, 0); (2, Some 0%nat, [3%nat], 1);
       (3, Some 0%nat, [], 1); (4, Some 1%nat, [], 2)] /\
  _handler_cache (bus demo_tree)
    = [(1, Some 0%nat); (2, Some 1%nat); (3, Some 2%nat); (4, Some 3%nat)] /\
  _queue (bus demo_tree) = [].
Proof. vm_compute. repeat split. Qed.

(** * Further properties of the bus *)

(** ** Dictionary laws *)

Lemma dict_get_set (V : Type) k v a : forall d : list (Z * V),
  dict_get Z.eqb a (dict_set Z.eqb k v d)
    = if a =? k then Some v else dict_get Z.eqb a d.
Proof.
  induction d as [|[k' v'] d IH]; simpl.
  - destruct (a =? k); reflexivity.
  - destruct (Z.eqb_spec k k') as [E|E]; simpl.
    + subst k'. destruct (a =? k); reflexivity.
    + destruct (Z.eqb_spec a k') as [E'|E'].
      * subst a. destruct (Z.eqb_spec k' k); [congruence | reflexivity].
      * apply IH.
Qed.

Lemma dict_set_keys (V : Type) k v : forall d : list (Z * V),
  map fst (dict_set Z.eqb k v d)
    = if existsb (Z.eqb k) (map fst d) then map fst d else map fst d ++ [k].
Proof.
  induction d as [|[k' v'] d IH]; simpl; [reflexivity|].
  destruct (Z.eqb_spec k k') as [E|E]; simpl; [subst; reflexivity|].
  rewrite IH. destruct (existsb (Z.eqb k) (map fst d)); reflexivity.
Qed.

Lemma existsb_eqb_in k (l : list Z) : existsb (Z.eqb k) l = true <-> In k l.
Proof.
  rewrite existsb_exists. split.
  - intros (x & Hx & E). apply Z.eqb_eq in E. subst. exact Hx.
  - intros H. exists k. split; [exact H | apply Z.eqb_refl].
Qed.

Lemma dict_set_unique (V : Type) k v (d : list (Z * V)) :
  NoDup (map fst d) -> NoDup (map fst (dict_set Z.eqb k v d)).
Proof.
  intros Hd. rewrite dict_set_keys.
  destruct (existsb (Z.eqb k) (map fst d)) eqn:E; [exact Hd|].
  apply NoDup_app; [exact Hd | constructor; [intros [] | constructor] |].
  intros x Hx [Hk|[]]. subst x.
  apply existsb_eqb_in in Hx. congruence.
Qed.

Lemma dict_set_absent (V : Type) k v : forall d : list (Z * V),
  ~ In k (map fst d) -> dict_set Z.eqb k v d = d ++ [(k, v)].
Proof.
  induction d as [|[k' v'] d IH]; simpl; intros Hn; [reflexivity|].
  destruct (Z.eqb_spec k k') as [E|E]; [exfalso; apply Hn; left; congruence|].
  rewrite IH; [reflexivity|]. intros Hin. apply Hn. right. exact Hin.
Qed.

Lemma dict_pop_last (V : Type) k v : forall d : list (Z * V),
  ~ In k (map fst d) -> dict_pop Z.eqb k (d ++ [(k, v)]) = d.
Proof.
  induction d as [|[k' v'] d IH]; simpl; intros Hn.
  - rewrite Z.eqb_refl. reflexivity.
  - destruct (Z.eqb_spec k k') as [E|E]; [exfalso; apply Hn; left; congruence|].
    rewrite IH; [reflexivity|]. intros Hin. apply Hn. right. exact Hin.
Qed.

Lemma dict_pop_absent (V : Type) k : forall d : list (Z * V),
  ~ In k (map fst d) -> dict_pop Z.eqb k d = d.
Proof.
  induction d as [|[k' v'] d IH]; simpl; intros Hn; [reflexivity|].
  destruct (Z.eqb_spec k k') as [E|E]; [exfalso; apply Hn; left; congruence|].
  rewrite IH; [reflexivity|]. intros Hin. apply Hn. right. exact Hin.
Qed.

Lemma dict_get_in (V : Type) a (v : V) : forall d : list (Z * V),
  dict_get Z.eqb a d = Some v -> In a (map fst d).
Proof.
  induction d as [|[k' v'] d IH]; simpl; [discriminate|].
  destruct (Z.eqb_spec a k'); [left; congruence | right; auto].
Qed.

Lemma dict_set_twice (V : Type) k (v : V) : forall d : list (Z * V),
  dict_set Z.eqb k v (dict_set Z.eqb k v d) = dict_set Z.eqb k v d.
Proof.
  induction d as [|[k' v'] d IH]; simpl.
  - rewrite Z.eqb_refl. reflexivity.
  - destruct (Z.eqb_spec k k') as [E|E]; simpl.
    + subst. rewrite Z.eqb_refl. reflexivity.
    + destruct (Z.eqb_spec k k'); [contradiction|]. rewrite IH. reflexivity.
Qed.

(** ** [register] and [unregister] *)

(** X1.  [register] keeps the address discipline.  A node without address
    gets the next one of the allocator, which moves on by one; a node that
    has an address keeps it and the allocator stays.  Either way the
    address returned is the node's, it is positive (never [BROADCAST]), the
    node is in registry and cache under it, and no other node's address
    changes. *)
Theorem register_keeps_addresses (e : oid) (w : World) :
  addresses_ok w ->
  let w' := fst (register e w) in
  let addr := snd (register e w) in
  addresses_ok w' /\
  addr = address (nodes w' e) /\
  1 <= addr /\ addr <> BROADCAST /\
  registered e w' /\
  (address (nodes w e) = -1 ->
   addr = _next_addr (bus w) /\ _next_addr (bus w') = _next_addr (bus w) + 1) /\
  (1 <= address (nodes w e) ->
   addr = address (nodes w e) /\ _next_addr (bus w') = _next_addr (bus w)) /\
  (forall o, o <> e -> address (nodes w' o) = address (nodes w o)).
Proof.
  intros (Hn & Hr & Hu & De & Dc & Ee & Ec). cbn zeta. unfold register.
  destruct (Hr e) as [Ha|Ha].
  - (* first registration *)
    rewrite Ha. change (-1 <? 0) with true. cbn iota.
    set (a := _next_addr (bus w)) in *.
    cbn [fst snd nodes bus upd upd_bus print address with_address
         with_next_addr with_elements with_handler_cache _next_addr
         _elements _handler_cache].
    rewrite !Nat.eqb_refl. cbn [address with_address].
    assert (Hother : forall o, o <> e ->
              address (if Nat.eqb o e then with_address a (nodes w o)
                       else nodes w o) = address (nodes w o)).
    { intros o Ho. apply Nat.eqb_neq in Ho. rewrite Ho. reflexivity. }
    split; [|split; [reflexivity|split; [lia|split; [unfold BROADCAST; lia|]]]].
    + unfold addresses_ok.
      cbn [nodes bus upd upd_bus print address with_address
           with_next_addr with_elements with_handler_cache _next_addr
           _elements _handler_cache].
      split; [lia|]. split; [|split; [|split; [|split; [|split]]]].
      * intros o. destruct (Nat.eqb_spec o e) as [->|Ho]; cbn [address with_address];
          [right; lia|]. destruct (Hr o); [left; assumption | right; lia].
      * intros o1 o2.
        destruct (Nat.eqb_spec o1 e) as [->|H1], (Nat.eqb_spec o2 e) as [->|H2];
          cbn [address with_address]; intros G1 G2; auto.
        -- destruct (Hr o2); lia.
        -- destruct (Hr o1); lia.
      * apply dict_set_unique, De.
      * apply dict_set_unique, Dc.
      * intros a' o. rewrite dict_get_set.
        destruct (Z.eqb_spec a' a) as [->|Hne]; intros G.
        -- inversion G; subst o. rewrite Nat.eqb_refl. cbn. lia.
        -- destruct (Ee a' o G) as [G1 G2].
           destruct (Nat.eqb_spec o e) as [->|Ho]; [lia | auto].
      * intros a' o. rewrite dict_get_set.
        destruct (Z.eqb_spec a' a) as [->|Hne]; intros G.
        -- inversion G; subst o. rewrite Nat.eqb_refl. cbn. lia.
        -- destruct (Ec a' o G) as [G1 G2].
           destruct (Nat.eqb_spec o e) as [->|Ho]; [lia | auto].
    + split; [|split; [|split]].
      * unfold registered.
        cbn [nodes bus upd upd_bus print address with_address
             with_next_addr with_elements with_handler_cache _next_addr
             _elements _handler_cache].
        rewrite !Nat.eqb_refl. cbn [address with_address].
        rewrite !dict_get_set, Z.eqb_refl. auto.
      * intros _. auto.
      * intros G. lia.
      * exact Hother.
  - (* already addressed *)
    assert (Hlt : (address (nodes w e) <? 0) = false) by (apply Z.ltb_ge; lia).
    rewrite Hlt.
    cbn [fst snd nodes bus upd upd_bus print address
         with_elements with_handler_cache _next_addr _elements _handler_cache].
    set (a := address (nodes w e)) in *.
    split; [|split; [reflexivity|split; [lia|split; [unfold BROADCAST; lia|]]]].
    + unfold addresses_ok.
      cbn [nodes bus upd_bus print with_elements with_handler_cache
           _next_addr _elements _handler_cache].
      split; [lia|]. split; [exact Hr|]. split; [exact Hu|].
      split; [apply dict_set_unique, De|]. split; [apply dict_set_unique, Dc|].
      split.
      * intros a' o. rewrite dict_get_set.
        destruct (Z.eqb_spec a' a) as [->|Hne]; intros G; [|auto].
        inversion G; subst o. split; [lia | reflexivity].
      * intros a' o. rewrite dict_get_set.
        destruct (Z.eqb_spec a' a) as [->|Hne]; intros G; [|auto].
        inversion G; subst o. split; [lia | reflexivity].
    + split; [|split; [|split]].
      * unfold registered.
        cbn [nodes bus upd_bus print with_elements with_handler_cache
             _elements _handler_cache].
        fold a. rewrite !dict_get_set, Z.eqb_refl. auto.
      * intros G. unfold a in *. lia.
      * intros _. auto.
      * reflexivity.
Qed.

(** The discipline, checked from the tables of a world with four
    registered nodes. *)
Lemma addresses_ok_four w :
  _next_addr (bus w) = 5 ->
  _elements (bus w) = [(1, 0%nat); (2, 1%nat); (3, 2%nat); (4, 3%nat)] ->
  _handler_cache (bus w)
    = [(1, Some 0%nat); (2, Some 1%nat); (3, Some 2%nat); (4, Some 3%nat)] ->
  (forall o,
     address (nodes w o)
     = match o with
       | 0%nat => 1 | 1%nat => 2 | 2%nat => 3 | 3%nat => 4 | _ => -1
       end) ->
  addresses_ok w.
Proof.
  intros En Ee Ec Ea. unfold addresses_ok. rewrite En, Ee, Ec.
  split; [lia|]. split; [|split; [|split; [|split; [|split]]]].
  - intros o. rewrite Ea. destruct o as [|[|[|[|o]]]]; lia.
  - intros o1 o2. rewrite !Ea.
    destruct o1 as [|[|[|[|o1]]]]; destruct o2 as [|[|[|[|o2]]]];
      intros; try reflexivity; lia.
  - cbn [map fst]. repeat (constructor; [cbn [In]; lia|]). constructor.
  - cbn [map fst]. repeat (constructor; [cbn [In]; lia|]). constructor.
  - intros a o. cbn [dict_get].
    destruct (Z.eqb_spec a 1) as [->|?];
      [intros G; inversion G; subst; rewrite Ea; split; [lia | reflexivity]|].
    destruct (Z.eqb_spec a 2) as [->|?];
      [intros G; inversion G; subst; rewrite Ea; split; [lia | reflexivity]|].
    destruct (Z.eqb_spec a 3) as [->|?];
      [intros G; inversion G; subst; rewrite Ea; split; [lia | reflexivity]|].
    destruct (Z.eqb_spec a 4) as [->|?];
      [intros G; inversion G; subst; rewrite Ea; split; [lia | reflexivity]|].
    discriminate.
  - intros a o. cbn [dict_get].
    destruct (Z.eqb_spec a 1) as [->|?];
      [intros G; inversion G; subst; rewrite Ea; split; [lia | reflexivity]|].
    destruct (Z.eqb_spec a 2) as [->|?];
      [intros G; inversion G; subst; rewrite Ea; split; [lia | reflexivity]|].
    destruct (Z.eqb_spec a 3) as [->|?];
      [intros G; inversion G; subst; rewrite Ea; split; [lia | reflexivity]|].
    destruct (Z.eqb_spec a 4) as [->|?];
      [intros G; inversion G; subst; rewrite Ea; split; [lia | reflexivity]|].
    discriminate.
Qed.

Lemma demo_tree_addresses_ok : addresses_ok demo_tree.
Proof.
  apply addresses_ok_four.
  - vm_compute. reflexivity.
  - vm_compute. reflexivity.
  - vm_compute. reflexivity.
  - intros o. destruct o as [|[|[|[|o]]]]; vm_compute; reflexivity.
Qed.

Lemma register_keeps_addresses_witness :
  addresses_ok (fst (register 1%nat demo_tree)) /\
  snd (register 1%nat demo_tree) = 2.
Proof.
  destruct (@register_keeps_addresses 1%nat demo_tree demo_tree_addresses_ok)
    as (H1 & _ & _ & _ & _ & _ & H7 & _).
  split; [exact H1|].
  destruct H7 as [H7 _]; [vm_compute; discriminate|].
  rewrite H7. vm_compute. reflexivity.
Defined.

Lemma register_fields e w :
  let a := if address (nodes w e) <? 0 then _next_addr (bus w)
           else address (nodes w e) in
  snd (register e w) = a /\
  address (nodes (fst (register e w)) e) = a /\
  _elements (bus (fst (register e w)))
    = dict_set Z.eqb a e (_elements (bus w)) /\
  _handler_cache (bus (fst (register e w)))
    = dict_set Z.eqb a (Some e) (_handler_cache (bus w)) /\
  _next_addr (bus (fst (register e w)))
    = (if address (nodes w e) <? 0 then _next_addr (bus w) + 1
       else _next_addr (bus w)) /\
  _queue (bus (fst (register e w))) = _queue (bus w) /\
  stdout (fst (register e w))
    = stdout w ++ [LRegister (name (nodes w e)) a].
Proof.
  unfold register.
  destruct (address (nodes w e) <? 0); cbn; rewrite ?Nat.eqb_refl; cbn;
    repeat split; reflexivity.
Qed.

(** X2.  Registering a node again only refreshes its two entries: on a bus
    whose allocator is not negative, a second [register] returns the same
    address and leaves registry, cache (with the order of its entries),
    allocator and every node as the first one left them; it only prints its
    line once more. *)
Theorem register_is_idempotent (e : oid) (w : World) :
  0 <= _next_addr (bus w) ->
  let w1 := fst (register e w) in
  let w2 := fst (register e w1) in
  snd (register e w1) = snd (register e w) /\
  _elements (bus w2) = _elements (bus w1) /\
  _handler_cache (bus w2) = _handler_cache (bus w1) /\
  _next_addr (bus w2) = _next_addr (bus w1) /\
  (forall o, address (nodes w2 o) = address (nodes w1 o)) /\
  stdout w2 = stdout w1 ++ [LRegister (name (nodes w1 e)) (snd (register e w))].
Proof.
  intros Hn. cbn zeta.
  destruct (register_fields e w) as (A1 & A2 & A3 & A4 & A5 & _ & _).
  destruct (register_fields e (fst (register e w)))
    as (B1 & B2 & B3 & B4 & B5 & _ & B7).
  cbn zeta in *.
  assert (Hpos : (address (nodes (fst (register e w)) e) <? 0) = false).
  { rewrite A2. apply Z.ltb_ge.
    destruct (Z.ltb_spec (address (nodes w e)) 0); lia. }
  rewrite Hpos in *. rewrite A2 in B1, B3, B4, B7.
  rewrite B1, B3, B4, B5, B7, A1, A3, A4.
  rewrite !dict_set_twice. repeat split; try reflexivity.
  intros o. unfold register at 1. rewrite Hpos. reflexivity.
Qed.

Lemma register_is_idempotent_witness :
  snd (register 4%nat (fst (register 4%nat (fst (new_UIElement 0 0 8 8 demo_tree)))))
  = 5.
Proof.
  destruct (@register_is_idempotent 4%nat (fst (new_UIElement 0 0 8 8 demo_tree)))
    as (H1 & _).
  - vm_compute. discriminate.
  - rewrite H1. vm_compute. reflexivity.
Defined.

Lemma dict_pop_gone (V : Type) k (d : list (Z * V)) :
  NoDup (map fst d) -> ~ In k (map fst (dict_pop Z.eqb k d)).
Proof.
  induction d as [|[k' v] d IH]; simpl; intros Hd; [tauto|].
  inversion Hd as [|x l Hx Hl]; subst.
  destruct (Z.eqb_spec k k') as [E|E]; simpl.
  - subst. exact Hx.
  - intros [H|H]; [congruence | exact (IH Hl H)].
Qed.

(** X3.  [register] then [unregister] is a round trip on the two tables:
    when the address the node gets is in neither table before, registry
    and handler cache are afterwards what they were.  The node keeps the
    address, and the allocator does not go back, so the address is not
    handed out again. *)
Theorem register_unregister_round_trip (e : oid) (w : World) :
  ~ In (snd (register e w)) (map fst (_elements (bus w))) ->
  ~ In (snd (register e w)) (map fst (_handler_cache (bus w))) ->
  let w1 := fst (register e w) in
  let w2 := unregister e w1 in
  _elements (bus w2) = _elements (bus w) /\
  _handler_cache (bus w2) = _handler_cache (bus w) /\
  address (nodes w2 e) = snd (register e w) /\
  _next_addr (bus w2) = _next_addr (bus w1) /\
  _next_addr (bus w) <= _next_addr (bus w2).
Proof.
  intros He Hc. cbn zeta.
  destruct (register_fields e w) as (A1 & A2 & A3 & A4 & A5 & _ & _).
  cbn zeta in *. rewrite A1 in He, Hc.
  unfold unregister.
  cbn [bus nodes upd_bus print _elements _handler_cache _next_addr
       with_elements with_handler_cache].
  rewrite A2, A3, A4, A5, A1.
  rewrite (dict_set_absent _ _ _ He), (dict_set_absent _ _ _ Hc).
  rewrite (dict_pop_last _ _ _ He), (dict_pop_last _ _ _ Hc).
  repeat split; try reflexivity.
  destruct (address (nodes w e) <? 0); lia.
Qed.

Lemma register_unregister_round_trip_witness :
  _handler_cache
    (bus (unregister 4%nat
            (fst (register 4%nat (fst (new_UIElement 0 0 8 8 demo_tree))))))
  = _handler_cache (bus demo_tree).
Proof.
  destruct (@register_unregister_round_trip 4%nat
              (fst (new_UIElement 0 0 8 8 demo_tree))) as (_ & H & _).
  - vm_compute. intuition discriminate.
  - vm_compute. intuition discriminate.
  - rewrite H. vm_compute. reflexivity.
Defined.

(** X4.  [unregister] is idempotent, and it is harmless on a node that is
    not listed.  With distinct keys in the two tables, a second
    [unregister] of the same node changes neither table; when the node's
    address is in neither table (a node never registered has address
    [-1]), the first one changes neither.  It never touches a node, the
    queue or the allocator. *)
Theorem unregister_is_idempotent (e : oid) (w : World) :
  NoDup (map fst (_elements (bus w))) ->
  NoDup (map fst (_handler_cache (bus w))) ->
  let w1 := unregister e w in
  let w2 := unregister e w1 in
  _elements (bus w2) = _elements (bus w1) /\
  _handler_cache (bus w2) = _handler_cache (bus w1) /\
  (unlisted e w ->
   _elements (bus w1) = _elements (bus w) /\
   _handler_cache (bus w1) = _handler_cache (bus w)) /\
  nodes w1 = nodes w /\ _queue (bus w1) = _queue (bus w) /\
  _next_addr (bus w1) = _next_addr (bus w).
Proof.
  intros De Dc. cbn zeta. unfold unregister.
  cbn [bus nodes upd_bus print _elements _handler_cache _next_addr _queue
       with_elements with_handler_cache].
  split; [|split; [|split]].
  - apply dict_pop_absent, dict_pop_gone, De.
  - apply dict_pop_absent, dict_pop_gone, Dc.
  - intros [Ue Uc]. split; apply dict_pop_absent; assumption.
  - repeat split; reflexivity.
Qed.

Lemma unregister_is_idempotent_witness :
  _handler_cache (bus (unregister 1%nat (unregister 1%nat demo_tree)))
  = [(1, Some 0%nat); (3, Some 2%nat); (4, Some 3%nat)].
Proof.
  destruct (@unregister_is_idempotent 1%nat demo_tree) as (_ & H & _).
  - destruct demo_tree_addresses_ok as (_ & _ & _ & D & _). exact D.
  - destruct demo_tree_addresses_ok as (_ & _ & _ & _ & D & _). exact D.
  - rewrite H. vm_compute. reflexivity.
Defined.

(** ** The order of delivery *)

Lemma same_message_repeat msg (ds : list Delivery) :
  Forall (fun d => d_msg d = msg) ds ->
  map d_msg ds = repeat msg (List.length ds).
Proof.
  induction 1 as [|d ds Hd _ IH]; simpl; [reflexivity|].
  rewrite Hd, IH. reflexivity.
Qed.

Lemma messages_log_in_order invoke messages : forall w wl ds,
  messages_log invoke messages w = Ok wl ds ->
  exists counts : list nat,
    List.length counts = List.length messages /\
    map d_msg ds
      = List.concat (map (fun mk => repeat (fst mk) (snd mk))
                  (combine messages counts)).
Proof.
  induction messages as [|msg rest IH]; intros w wl ds H.
  - simpl in H. unfold ret in H. inversion H. exists []. auto.
  - cbn [messages_log] in H. apply bind_inv in H.
    destruct H as (w1 & ds1 & E1 & H).
    apply bind_inv in H. destruct H as (w2 & ds2 & E2 & H).
    unfold ret in H. inversion H; subst.
    pose proof (deliver_log_spec invoke msg rest 0 w) as Hd.
    rewrite E1 in Hd. destruct Hd as (_ & _ & Hm).
    destruct (IH _ _ _ E2) as (counts & Hl & Hc).
    exists (List.length ds1 :: counts). split; [simpl; congruence|].
    simpl. rewrite map_app, Hc, (same_message_repeat Hm). reflexivity.
Qed.

(** X5.  [pump] delivers first in, first out, for any queue, any handler
    cache and any handlers.  When the handlers return, [pump] returns, and
    its run is the one that takes the messages in queue order, each
    starting in the world the calls for the one before have left, and
    calls all targets of a message before it turns to the next: the calls,
    in the order they are made, carry the queued messages in queue order
    (none, one, or one per cached handler for each message).  [pump]
    returns the number of these calls and the world they leave, up to its
    delivery counter; it fails to return only if a handler does not. *)
Theorem pump_delivers_in_post_order
    (invoke : oid -> Packet -> M unit) (w : World) :
  match pump_log invoke w with
  | Ok wl ds =>
      (exists w', pump invoke w = Ok w' (Z.of_nat (List.length ds)) /\
                  agree wl w') /\
      all_dispatched invoke (_queue (bus w)) (upd_bus (with_queue []) w) ds wl /\
      exists counts : list nat,
        List.length counts = List.length (_queue (bus w)) /\
        map d_msg ds
          = List.concat (map (fun mk => repeat (fst mk) (snd mk))
                      (combine (_queue (bus w)) counts))
  | Raise _ _ => False
  | Timeout => pump invoke w = Timeout /\ diverges invoke
  end.
Proof.
  pose proof (pump_log_spec invoke w) as Hp.
  destruct (pump_log invoke w) as [wl ds| |] eqn:E; try contradiction.
  - split; [exact Hp|]. split.
    + apply all_dispatched_log. exact E.
    + apply (@messages_log_in_order invoke (_queue (bus w))
               (upd_bus (with_queue []) w) wl ds E).
  - exact Hp.
Qed.

(** Two messages in one pump: the request is answered (the line and the
    answer come first) before the font announcement reaches anybody. *)
Example two_messages_in_turn :
  match bus_pump 5 two_pending with
  | Ok w' n =>
      n = 5 /\
      skipn 9 (stdout w')
        = [LSendingMetadata "UIRoot"; LMessage 1 2 R_DATA;
           LError (CName "UIRoot") R_FONT TypeError;
           LError (CName "UIElement") R_FONT TypeError;
           LError (CName "UIElement") R_FONT TypeError]
  | _ => False
  end /\
  match bus_pump_log 5 two_pending with
  | Ok _ ds =>
      map (fun d => rs (d_msg d)) ds = [R_GET; R_FONT; R_FONT; R_FONT; R_FONT] /\
      map target ds
        = [(1, 0%nat); (1, 0%nat); (2, 1%nat); (3, 2%nat); (4, 3%nat)]
  | _ => False
  end.
Proof. vm_compute. repeat split. Qed.

(** ** What a pump leaves in the queue *)

Lemma only_data_same_queue w w' :
  _queue (bus w') = _queue (bus w) -> only_data w -> only_data w'.
Proof. unfold only_data. intros E. rewrite E. auto. Qed.

Lemma kod_ret A (a : A) : keeps_only_data (ret a).
Proof. intros w H. exact H. Qed.

Lemma kod_bind A B (m : M A) (k : A -> M B) :
  keeps_only_data m -> (forall a, keeps_only_data (k a)) ->
  keeps_only_data (x <- m ;; k x).
Proof.
  intros Hm Hk w Hw. unfold bind. specialize (Hm w Hw).
  destruct (m w) as [w1 a|w1 e|]; auto. apply Hk. exact Hm.
Qed.

Lemma kod_modify (f : World -> World) :
  (forall w, _queue (bus (f w)) = _queue (bus w)) ->
  keeps_only_data (modify f).
Proof. intros Hf w Hw. eapply only_data_same_queue; [apply Hf | exact Hw]. Qed.

Lemma kod_for_each A (body : A -> M unit) (xs : list A) :
  (forall x, keeps_only_data (body x)) -> keeps_only_data (for_each xs body).
Proof.
  intros Hb. induction xs as [|x xs IH]; cbn [for_each].
  - apply kod_ret.
  - apply kod_bind; auto.
Qed.

Ltac kod_world w H := unfold keeps_only_data at 1; intros w H; cbv beta.

Ltac kod_upd := apply kod_modify; intros ?; reflexivity.

Ltac kod_done := first [apply kod_ret | assumption | exact I].

Lemma kod_reset_graphics fuel : forall self recursive,
  keeps_only_data (reset_graphics fuel self recursive).
Proof.
  induction fuel as [|f IH]; intros self recursive; cbn [reset_graphics];
    (apply kod_bind; [kod_upd|]); intros _;
    (destruct recursive; [|kod_done]);
    kod_world w0 H0; apply kod_for_each; auto; intros c w1 H1; exact I.
Qed.

Lemma kod_reset fuel : forall self, keeps_only_data (reset fuel self).
Proof.
  induction fuel as [|f IH]; intros self; cbn [reset];
    (apply kod_bind; [apply kod_reset_graphics|]); intros _;
    (apply kod_bind; [kod_upd|]); intros _;
    kod_world w0 H0; apply kod_for_each; auto; intros c w1 H1; exact I.
Qed.

Lemma kod_reset_db fuel : forall self recursive,
  keeps_only_data (reset_db fuel self recursive).
Proof.
  induction fuel as [|f IH]; intros self recursive; cbn [reset_db];
    (apply kod_bind; [kod_upd|]); intros _;
    (destruct recursive; [|kod_done]);
    kod_world w0 H0; apply kod_for_each; auto; intros c w1 H1; exact I.
Qed.

Lemma kod_root fuel self : keeps_only_data (root fuel self).
Proof.
  intros w H. unfold root, UIElement_root.
  destruct (is_root_class (cls (nodes w self))); [exact H|].
  destruct (cache (nodes w self)); [exact H|].
  destruct (root_walk fuel self w); [exact H | exact I].
Qed.

Lemma kod_remove fuel self child : keeps_only_data (remove fuel self child).
Proof.
  unfold remove. kod_world w0 H0.
  destruct (is_in child (children (nodes w0 self))); [|exact H0].
  revert H0. apply kod_bind; [kod_upd|]. intros _.
  apply kod_bind; [kod_upd|]. intros _. apply kod_reset.
Qed.

Section PumpLeaves.

Variable invoke : oid -> Packet -> M unit.
Hypothesis invoke_kod : forall h msg, keeps_only_data (invoke h msg).

Lemma kod_call_handler h msg addr :
  keeps_only_data (_call_handler invoke h msg addr).
Proof.
  intros w H. unfold _call_handler.
  pose proof (invoke_kod h msg) as Hi. specialize (Hi w H).
  destruct (invoke h msg w) as [w1 a|w1 e|]; auto.
Qed.

Lemma kod_pump_broadcast items msg : forall processed,
  keeps_only_data (pump_broadcast invoke items msg processed).
Proof.
  induction items as [|[addr [h|]] rest IH]; intros processed;
    cbn [pump_broadcast]; auto using kod_ret.
  apply kod_bind; [apply kod_call_handler | auto].
Qed.

Lemma kod_pump_messages messages : forall processed,
  keeps_only_data (pump_messages invoke messages processed).
Proof.
  induction messages as [|msg rest IH]; intros processed;
    cbn [pump_messages]; [apply kod_ret|].
  kod_world w0 H0. revert H0.
  destruct (receiver msg =? BROADCAST).
  - apply kod_bind; [apply kod_pump_broadcast | auto].
  - destruct (dict_get Z.eqb (receiver msg) (_handler_cache (bus w0)))
      as [[h|]|]; try apply IH.
    apply kod_bind; [apply kod_call_handler | auto].
Qed.

(** Whatever was waiting before. *)
Lemma pump_leaves_only_data w :
  match pump invoke w with
  | Ok w' _ => only_data w'
  | Raise w' _ => only_data w'
  | Timeout => True
  end.
Proof.
  unfold pump. destruct (_queue (bus w)) as [|m ms] eqn:Q.
  - unfold only_data. rewrite Q. constructor.
  - assert (K : keeps_only_data
                  (processed <- pump_messages invoke (m :: ms) 0 ;;
                   modify (fun w1 =>
                     let w2 := upd_bus (fun b => with_processed
                                 (_processed b + processed) b) w1 in
                     if _cleanup_count (bus w2) <=? _processed (bus w2)
                     then upd_bus (with_processed 0) (_cleanup w2)
                     else w2) ;;;
                   ret processed)).
    { apply kod_bind; [apply kod_pump_messages|]. intros processed.
      apply kod_bind; [|intros _; apply kod_ret].
      apply kod_modify. intros w1. cbn zeta. rewrite cleanup_nothing.
      match goal with |- context [if ?c then _ else _] => destruct c end;
        reflexivity. }
    apply K. unfold only_data. simpl. constructor.
Qed.

End PumpLeaves.

Lemma kod_post handle_rec fuel self recv resp att priority :
  (forall h msg, keeps_only_data (handle_rec h msg)) ->
  priority = true \/ resp = R_DATA ->
  keeps_only_data (post handle_rec fuel self recv resp att priority).
Proof.
  intros Hh Hp. unfold post. apply kod_bind; [apply kod_root|]. intros rt.
  kod_world w0 H0. destruct (connected rt w0); [|exact H0].
  unfold bind at 1, modify at 1.
  destruct priority.
  - unfold bind, ret.
    match goal with |- match match pump ?i ?w1 with _ => _ end with _ => _ end =>
      pose proof (@pump_leaves_only_data _ Hh w1) as Hq;
      destruct (pump i w1); auto
    end.
  - destruct Hp as [Hp|Hp]; [discriminate|]. unfold ret.
    unfold only_data. rewrite bus_post_queue. apply Forall_app. split; [exact H0|].
    constructor; [exact Hp | constructor].
Qed.

Lemma kod_destroy_body handle_rec destroy_rec fuel self :
  (forall h msg, keeps_only_data (handle_rec h msg)) ->
  (forall c, keeps_only_data (destroy_rec c)) ->
  keeps_only_data (destroy_body handle_rec destroy_rec fuel self).
Proof.
  intros Hh Hd. unfold destroy_body. kod_world w0 H0. revert H0.
  destruct (is_root_class (cls (nodes w0 self))).
  - unfold UIRoot_destroy.
    repeat (apply kod_bind; [apply kod_post; auto | intros _]).
    kod_upd.
  - unfold UIElement_destroy. cbv beta.
    destruct (disposed (nodes w0 self)); [auto|].
    apply kod_bind; [apply kod_for_each; exact Hd | intros _].
    apply kod_bind; [apply kod_root | intros rt].
    apply kod_bind.
    { kod_world w1 H1. destruct (connected rt w1); exact H1. }
    intros _.
    apply kod_bind; [apply kod_post; auto | intros _].
    apply kod_bind; [kod_upd | intros _].
    apply kod_bind.
    + kod_world w2 H2. revert H2.
      destruct (parent (nodes w2 self)); [apply kod_remove | auto].
    + intros _. apply kod_bind; [kod_upd | intros _; kod_upd].
Qed.

Lemma kod_handle_message_body handle_rec destroy_rec fuel self msg :
  (forall h m, keeps_only_data (handle_rec h m)) ->
  (forall c, keeps_only_data (destroy_rec c)) ->
  keeps_only_data (handle_message_body handle_rec destroy_rec fuel self msg).
Proof.
  intros Hh Hd. unfold handle_message_body. kod_world w0 H0.
  destruct (disposed (nodes w0 self) || (sender msg =? address (nodes w0 self)));
    [exact H0|].
  revert H0. destruct (rs msg); auto.
  - apply kod_reset.
  - apply Hd.
  - apply kod_reset_db.
  - destruct (store_update (store (nodes w0 self)) (data msg)); auto.
  - destruct (store_update (store (nodes w0 self)) (data msg)); auto.
  - apply kod_bind; [apply kod_modify; intros w; reflexivity|].
    intros _. kod_world w1 H1. revert H1. apply kod_post; auto.
Qed.

Lemma kod_life_cycle fuel :
  (forall self, keeps_only_data (destroy fuel self)) /\
  (forall self msg, keeps_only_data (handle_message fuel self msg)).
Proof.
  induction fuel as [|f [IHd IHh]]; split; intros; cbn [destroy handle_message];
    try (intros w H; exact I).
  - apply kod_destroy_body; assumption.
  - apply kod_handle_message_body; assumption.
Qed.

(** X6.  When a pump of the element tree returns, whatever was queued
    before and whatever its handlers did, every message still waiting is
    an [R_DATA] answer to a metadata request: the life-cycle announcements
    ([R_DISPOSED], and the [R_CLEAR], [R_RESET], [R_TERMINATE] of the
    root) are posted with priority and delivered inside the pump, never
    left for the next one.  The pump lets no exception out. *)
Theorem pump_leaves_only_answers (fuel : nat) (w : World) :
  match bus_pump fuel w with
  | Ok w' _ => Forall (fun m => rs m = R_DATA) (_queue (bus w'))
  | Raise _ _ => False
  | Timeout => True
  end.
Proof.
  pose proof (@pump_leaves_only_data _ (proj2 (kod_life_cycle fuel)) w) as H.
  pose proof (quiet_pump (handle_message fuel)) as Q. specialize (Q w).
  unfold bus_pump. destruct (pump (handle_message fuel) w); auto.
Qed.

(** * Further properties of the element tree *)

(** X7.  [destroy] is idempotent: once [UIElement.destroy] has returned on
    a node, a second call on it returns at once and leaves the world
    exactly as the first call left it (no second unregistration line, no
    second announcement). *)
Theorem destroy_is_idempotent (f f' : nat) (self : oid) (w w' : World) :
  is_root_class (cls (nodes w self)) = false ->
  destroy (S f) self w = Ok w' tt ->
  destroy (S f') self w' = Ok w' tt.
Proof.
  intros Hcls E.
  assert (L : later w w')
    by (eapply keeps_ok; [apply (proj1 (keeps_life_cycle (S f))) | exact E]).
  assert (Hcls' : is_root_class (cls (nodes w' self)) = false).
  { destruct (proj1 L self) as (C & _). rewrite C. exact Hcls. }
  assert (D : disposed (nodes w' self) = true).
  { destruct (disposed (nodes w self)) eqn:Hdis.
    - eapply later_disposed; eassumption.
    - destruct (@destroy_final f self w w' Hcls Hdis E) as (D & _). exact D. }
  cbn [destroy]. unfold destroy_body. rewrite Hcls'.
  unfold UIElement_destroy. rewrite D. reflexivity.
Qed.

Lemma destroy_is_idempotent_witness :
  exists w', destroy 5 1%nat demo_tree = Ok w' tt /\
             destroy 1 1%nat w' = Ok w' tt.
Proof.
  assert (Hok : returned (destroy 5 1%nat demo_tree) = true)
    by (vm_compute; reflexivity).
  destruct (destroy 5 1%nat demo_tree) as [w' []| |] eqn:E;
    try discriminate Hok.
  exists w'. split; [reflexivity|].
  apply (@destroy_is_idempotent 4 0 1%nat demo_tree w'); [|exact E].
  vm_compute. reflexivity.
Defined.

(** X8.  [remove] detaches and nothing more.  On a bounded tree it
    returns; when the node is not among the children nothing changes at
    all; otherwise its first occurrence leaves the children, its [parent]
    becomes [None], and no other link changes.  The bus is not touched:
    the removed node keeps its address and stays registered, so it goes on
    receiving messages until it is destroyed. *)
Theorem remove_detaches_and_keeps_registration
    (H fuel : nat) (p child : oid) (w : World) :
  bounded H w -> (H <= fuel)%nat ->
  exists w',
    remove fuel p child w = Ok w' tt /\
    bus w' = bus w /\ stdout w' = stdout w /\
    (registered child w -> registered child w') /\
    (forall o, address (nodes w' o) = address (nodes w o) /\
               disposed (nodes w' o) = disposed (nodes w o) /\
               depth (nodes w' o) = depth (nodes w o)) /\
    if is_in child (children (nodes w p)) then
      children (nodes w' p) = list_remove child (children (nodes w p)) /\
      parent (nodes w' child) = None /\
      (forall o, o <> p -> children (nodes w' o) = children (nodes w o)) /\
      (forall o, o <> child -> parent (nodes w' o) = parent (nodes w o))
    else
      forall o, nodes w' o = nodes w o.
Proof.
  intros Hb Hf. unfold remove.
  destruct (is_in child (children (nodes w p))) eqn:Hin.
  - set (w1 := upd p (fun n => with_children (list_remove child (children n)) n) w).
    set (w2 := upd child (with_parent None) w1).
    assert (S12 : shrinks w w2).
    { eapply shrinks_trans; apply shrinks_upd; auto; intros n;
        [apply incl_list_remove | apply incl_refl]. }
    destruct (@bounded_shrinks H w w2 S12 Hb p) as [Hh _].
    destruct (@reset_returns H fuel p w2 Hh Hf) as (w3 & E3 & B3 & O3 & N3).
    assert (F : forall o, strip (nodes w3 o) = strip (nodes w2 o))
      by (intros o; apply N3).
    exists w3. split; [|split; [|split; [|split; [|split]]]].
    + unfold bind at 1, modify at 1. fold w1.
      unfold bind at 1, modify at 1. fold w2. exact E3.
    + rewrite B3. reflexivity.
    + rewrite O3. reflexivity.
    + unfold registered. rewrite B3.
      pose proof (f_equal address (F child)) as A. simpl in A. rewrite A.
      unfold w2, w1. simpl.
      destruct (Nat.eqb child child), (Nat.eqb child p); simpl; auto.
    + intros o.
      pose proof (f_equal address (F o)) as A1.
      pose proof (f_equal disposed (F o)) as A2.
      pose proof (f_equal depth (F o)) as A3.
      simpl in A1, A2, A3. rewrite A1, A2, A3. unfold w2, w1. simpl.
      destruct (Nat.eqb o child), (Nat.eqb o p); simpl; auto.
    + split; [|split; [|split]].
      * pose proof (f_equal children (F p)) as A. simpl in A. rewrite A.
        unfold w2, w1. simpl. rewrite Nat.eqb_refl.
        destruct (Nat.eqb p child); reflexivity.
      * pose proof (f_equal parent (F child)) as A. simpl in A. rewrite A.
        unfold w2. simpl. rewrite Nat.eqb_refl. reflexivity.
      * intros o Ho. apply Nat.eqb_neq in Ho.
        pose proof (f_equal children (F o)) as A. simpl in A. rewrite A.
        unfold w2, w1. simpl. rewrite Ho.
        destruct (Nat.eqb o child); reflexivity.
      * intros o Ho. apply Nat.eqb_neq in Ho.
        pose proof (f_equal parent (F o)) as A. simpl in A. rewrite A.
        unfold w2, w1. simpl. rewrite Ho.
        destruct (Nat.eqb o p); reflexivity.
  - exists w. split; [reflexivity|]. split; [reflexivity|].
    split; [reflexivity|]. split; [exact (fun R => R)|]. split; auto.
Qed.

Lemma remove_detaches_and_keeps_registration_witness :
  exists w',
    remove 5 0%nat 2%nat demo_tree = Ok w' tt /\
    registered 2%nat w' /\
    parent (nodes w' 2%nat) = None.
Proof.
  destruct (@remove_detaches_and_keeps_registration 2 5 0%nat 2%nat demo_tree)
    as (w' & E & _ & _ & R & _ & T).
  - exact demo_tree_bounded.
  - lia.
  - exists w'. split; [exact E|]. split.
    + apply R. split; vm_compute; reflexivity.
    + assert (Hin : is_in 2%nat (children (nodes demo_tree 0%nat)) = true)
        by (vm_compute; reflexivity).
      rewrite Hin in T. apply T.
Defined.

(** * The local store *)

Lemma store_get_set k v a : forall d : Dict,
  dict_get String.eqb a (dict_set String.eqb k v d)
  = if String.eqb a k then Some v else dict_get String.eqb a d.
Proof.
  induction d as [|[k' v'] d IH]; simpl.
  - reflexivity.
  - destruct (String.eqb_spec k k') as [->|Hk]; simpl.
    + destruct (String.eqb_spec a k'); reflexivity.
    + destruct (String.eqb_spec a k') as [->|Ha].
      * destruct (String.eqb_spec k' k); [congruence | reflexivity].
      * exact IH.
Qed.

Lemma store_set_length k v : forall d : Dict,
  List.length (dict_set String.eqb k v d)
  = match dict_get String.eqb k d with
    | Some _ => List.length d
    | None => S (List.length d)
    end.
Proof.
  induction d as [|[k' v'] d IH]; simpl.
  - reflexivity.
  - destruct (String.eqb_spec k k'); simpl; [reflexivity|].
    rewrite IH. destruct (dict_get String.eqb k d); reflexivity.
Qed.

Lemma store_get_absent k : forall d : Dict,
  ~ In k (map fst d) -> dict_get String.eqb k d = None.
Proof.
  induction d as [|[k' v'] d IH]; simpl; intros Hn.
  - reflexivity.
  - destruct (String.eqb_spec k k') as [->|Hk].
    + exfalso. apply Hn. left. reflexivity.
    + apply IH. intros Hin. apply Hn. right. exact Hin.
Qed.

(** [d.update(other)], read key by key: a key of [other] gets the value
    of [other], every other key keeps its own. *)
Lemma store_get_merge k : forall (other d : Dict),
  NoDup (map fst other) ->
  dict_get String.eqb k (dict_merge String.eqb d other)
  = match dict_get String.eqb k other with
    | Some v => Some v
    | None => dict_get String.eqb k d
    end.
Proof.
  unfold dict_merge.
  induction other as [|[k' v'] other IH]; simpl; intros d Hnd.
  - reflexivity.
  - inversion Hnd as [|? ? Hk' Hnd']; subst.
    rewrite IH by exact Hnd'. rewrite store_get_set.
    destruct (String.eqb_spec k k') as [->|Hk].
    + rewrite (@store_get_absent _ other Hk'). reflexivity.
    + reflexivity.
Qed.

(** X9.  The local store is a dictionary per element: after
    [write_local(name, value)] the element reads [value] back under
    [name] and [has_local(name)] holds; every other name, and every name
    of every other element, reads as before; [get_db_length] grows by one
    exactly when the name is new. *)
Theorem write_local_then_read
    (self o : oid) (k k' : string) (v : Atom) (w : World) :
  read_local self k (write_local self k v w) = v /\
  has_local self k (write_local self k v w) = true /\
  read_local o k' (write_local self k v w)
    = (if Nat.eqb o self && String.eqb k' k then v else read_local o k' w) /\
  has_local o k' (write_local self k v w)
    = (if Nat.eqb o self && String.eqb k' k then true else has_local o k' w) /\
  get_db_length self (write_local self k v w)
    = (if has_local self k w then get_db_length self w
       else get_db_length self w + 1).
Proof.
  unfold read_local, has_local, get_db_length, write_local. simpl.
  rewrite Nat.eqb_refl. simpl. rewrite !store_get_set, String.eqb_refl.
  repeat split.
  - destruct (Nat.eqb o self) eqn:Ho; simpl; [|reflexivity].
    apply Nat.eqb_eq in Ho. subst o. rewrite store_get_set.
    destruct (String.eqb k' k); reflexivity.
  - destruct (Nat.eqb o self) eqn:Ho; simpl; [|reflexivity].
    apply Nat.eqb_eq in Ho. subst o. rewrite store_get_set.
    destruct (String.eqb k' k); reflexivity.
  - rewrite store_set_length.
    destruct (dict_get String.eqb k (store (nodes w self))); lia.
Qed.

(** X10.  A font or palette announcement is merged into the store of the
    element that handles it: [handle_message] returns, every name of the
    attached dictionary then reads as in the attachment, every other name
    as before, and nothing else in the world changes (no other element, no
    output, nothing on the bus). *)
Theorem asset_message_merges_into_store
    (f : nat) (self : oid) (msg : Packet) (other : Dict) (w : World) :
  disposed (nodes w self) = false ->
  sender msg <> address (nodes w self) ->
  rs msg = R_FONT \/ rs msg = R_VIS ->
  data msg = VDict other ->
  NoDup (map fst other) ->
  exists w',
    handle_message (S f) self msg w = Ok w' tt /\
    bus w' = bus w /\ stdout w' = stdout w /\
    (forall o, with_store [] (nodes w' o) = with_store [] (nodes w o)) /\
    (forall o k,
       dict_get String.eqb k (store (nodes w' o))
       = if Nat.eqb o self then
           match dict_get String.eqb k other with
           | Some v => Some v
           | None => dict_get String.eqb k (store (nodes w self))
           end
         else dict_get String.eqb k (store (nodes w o))).
Proof.
  intros Hdis Hs Hrs Hd Hnd.
  apply Z.eqb_neq in Hs.
  exists (upd self (with_store
            (dict_merge String.eqb (store (nodes w self)) other)) w).
  split; [|split; [|split; [|split]]].
  - cbn [handle_message]. unfold handle_message_body.
    rewrite Hdis, Hs. simpl. rewrite Hd.
    destruct Hrs as [-> | ->]; reflexivity.
  - reflexivity.
  - reflexivity.
  - intros o. simpl. destruct (Nat.eqb o self); reflexivity.
  - intros o k. simpl. destruct (Nat.eqb o self) eqn:Ho.
    + apply Nat.eqb_eq in Ho. subst o. simpl.
      apply store_get_merge. exact Hnd.
    + reflexivity.
Qed.

Lemma asset_message_merges_into_store_witness :
  exists w',
    handle_message 1 1%nat
      (mkPacket BROADCAST 1 R_VIS (VDict palette)) demo_tree = Ok w' tt /\
    dict_get String.eqb "title.text" (store (nodes w' 1%nat))
      = Some (AInts [255; 255; 255]).
Proof.
  destruct (@asset_message_merges_into_store 0 1%nat
              (mkPacket BROADCAST 1 R_VIS (VDict palette)) palette demo_tree)
    as (w' & E & _ & _ & _ & S).
  - vm_compute. reflexivity.
  - vm_compute. discriminate.
  - right. reflexivity.
  - reflexivity.
  - unfold palette. simpl.
    repeat (constructor;
            [simpl; intros H;
             repeat (destruct H as [H|H]; [discriminate H|]); exact H|]).
    constructor.
  - exists w'. split; [exact E|]. rewrite S. vm_compute. reflexivity.
Defined.

(** * The order of the children *)

Lemma list_remove_perm x : forall l,
  is_in x l = true -> Permutation (x :: list_remove x l) l.
Proof.
  unfold is_in.
  induction l as [|a l IH]; simpl; intros Hin.
  - discriminate Hin.
  - destruct (Nat.eqb_spec x a) as [->|Hx].
    + apply Permutation_refl.
    + simpl in Hin. eapply Permutation_trans; [apply perm_swap|].
      apply perm_skip. apply IH. exact Hin.
Qed.

Lemma list_remove_others x : forall l,
  filter (fun c => negb (Nat.eqb c x)) (list_remove x l)
  = filter (fun c => negb (Nat.eqb c x)) l.
Proof.
  induction l as [|a l IH]; simpl.
  - reflexivity.
  - destruct (Nat.eqb_spec x a) as [->|Hx].
    + rewrite Nat.eqb_refl. reflexivity.
    + simpl. rewrite IH. reflexivity.
Qed.

(** The common part of the two z-order methods: the parent gets its
    children in a new order and is reset. *)
Lemma reorder_children (H fuel : nat) (p : oid)
    (g : list oid -> list oid) (w : World) :
  bounded H w -> (H <= fuel)%nat ->
  incl (g (children (nodes w p))) (children (nodes w p)) ->
  exists w',
    (modify (upd p (fun n => with_children (g (children n)) n)) ;;;
     reset fuel p) w = Ok w' tt /\
    bus w' = bus w /\ stdout w' = stdout w /\
    (forall o, children (nodes w' o)
               = if Nat.eqb o p then g (children (nodes w p))
                 else children (nodes w o)) /\
    (forall o, parent (nodes w' o) = parent (nodes w o)).
Proof.
  intros Hb Hf Hincl.
  set (w1 := upd p (fun n => with_children (g (children n)) n) w).
  assert (S1 : shrinks w w1).
  { intros o. unfold w1. simpl. destruct (Nat.eqb_spec o p) as [->|Ho]; simpl;
      repeat split; auto; apply incl_refl. }
  destruct (@bounded_shrinks H w w1 S1 Hb p) as [Hh _].
  destruct (@reset_returns H fuel p w1 Hh Hf) as (w2 & E2 & B2 & O2 & N2).
  exists w2. split; [|split; [|split; [|split]]].
  - unfold bind at 1, modify at 1. fold w1. exact E2.
  - rewrite B2. reflexivity.
  - rewrite O2. reflexivity.
  - intros o. pose proof (f_equal children (proj1 (N2 o))) as A.
    simpl in A. rewrite A. unfold w1. simpl.
    destruct (Nat.eqb_spec o p) as [Eo|]; [rewrite Eo|]; reflexivity.
  - intros o. pose proof (f_equal parent (proj1 (N2 o))) as A.
    simpl in A. rewrite A. unfold w1. simpl.
    destruct (Nat.eqb o p); reflexivity.
Qed.

(** X11.  [bring_to_front] on a bounded tree returns.  When the parent
    lists the element, it ends up last among the parent's children; the
    children are the same as before up to order, the others keep their
    relative order, and no other link and nothing on the bus changes.
    Without a parent, or when the parent does not list the element, the
    world is left as it is. *)
Theorem bring_to_front_moves_last (H fuel : nat) (self : oid) (w : World) :
  bounded H w -> (H <= fuel)%nat ->
  exists w',
    bring_to_front fuel self w = Ok w' tt /\
    match parent (nodes w self) with
    | None => w' = w
    | Some p =>
        if is_in self (children (nodes w p)) then
          (exists front, children (nodes w' p) = front ++ [self]) /\
          Permutation (children (nodes w' p)) (children (nodes w p)) /\
          filter (fun c => negb (Nat.eqb c self)) (children (nodes w' p))
            = filter (fun c => negb (Nat.eqb c self)) (children (nodes w p)) /\
          (forall o, children (nodes w' o)
                     = if Nat.eqb o p then children (nodes w' p)
                       else children (nodes w o)) /\
          (forall o, parent (nodes w' o) = parent (nodes w o)) /\
          bus w' = bus w /\ stdout w' = stdout w
        else w' = w
    end.
Proof.
  intros Hb Hf. unfold bring_to_front.
  destruct (parent (nodes w self)) as [p|]; [|exists w; split; reflexivity].
  destruct (is_in self (children (nodes w p))) eqn:Hin;
    [|exists w; split; reflexivity].
  pose proof (@list_remove_perm self (children (nodes w p)) Hin) as HP.
  assert (HP' : Permutation (list_remove self (children (nodes w p)) ++ [self])
                            (children (nodes w p))).
  { eapply Permutation_trans; [|exact HP].
    apply Permutation_sym, Permutation_cons_append. }
  destruct (@reorder_children H fuel p
              (fun l => list_remove self l ++ [self]) w Hb Hf)
    as (w' & E & B & O & C & P).
  { intros c Hc. eapply Permutation_in; eassumption. }
  assert (Cp : children (nodes w' p)
               = list_remove self (children (nodes w p)) ++ [self])
    by (rewrite (C p); rewrite Nat.eqb_refl; reflexivity).
  exists w'. split.
  - exact E.
  - rewrite Cp. repeat split; auto.
    + eexists. reflexivity.
    + rewrite filter_app. simpl. rewrite Nat.eqb_refl. simpl.
      rewrite app_nil_r. apply list_remove_others.
Qed.

Lemma bring_to_front_moves_last_witness :
  exists w',
    bring_to_front 5 1%nat demo_tree = Ok w' tt /\
    Permutation (children (nodes w' 0%nat)) (children (nodes demo_tree 0%nat)).
Proof.
  destruct (@bring_to_front_moves_last 2 5 1%nat demo_tree)
    as (w' & E & T).
  - exact demo_tree_bounded.
  - lia.
  - exists w'. split; [exact E|].
    assert (Hp : parent (nodes demo_tree 1%nat) = Some 0%nat)
      by (vm_compute; reflexivity).
    assert (Hin : is_in 1%nat (children (nodes demo_tree 0%nat)) = true)
      by (vm_compute; reflexivity).
    rewrite Hp, Hin in T. apply T.
Defined.

(** X12.  [send_to_back] on a bounded tree returns.  When the parent
    lists the element, it ends up first among the parent's children; the
    children are the same as before up to order, the others keep their
    relative order, and no other link and nothing on the bus changes.
    Without a parent, or when the parent does not list the element, the
    world is left as it is. *)
Theorem send_to_back_moves_first (H fuel : nat) (self : oid) (w : World) :
  bounded H w -> (H <= fuel)%nat ->
  exists w',
    send_to_back fuel self w = Ok w' tt /\
    match parent (nodes w self) with
    | None => w' = w
    | Some p =>
        if is_in self (children (nodes w p)) then
          (exists rest, children (nodes w' p) = self :: rest) /\
          Permutation (children (nodes w' p)) (children (nodes w p)) /\
          filter (fun c => negb (Nat.eqb c self)) (children (nodes w' p))
            = filter (fun c => negb (Nat.eqb c self)) (children (nodes w p)) /\
          (forall o, children (nodes w' o)
                     = if Nat.eqb o p then children (nodes w' p)
                       else children (nodes w o)) /\
          (forall o, parent (nodes w' o) = parent (nodes w o)) /\
          bus w' = bus w /\ stdout w' = stdout w
        else w' = w
    end.
Proof.
  intros Hb Hf. unfold send_to_back.
  destruct (parent (nodes w self)) as [p|]; [|exists w; split; reflexivity].
  destruct (is_in self (children (nodes w p))) eqn:Hin;
    [|exists w; split; reflexivity].
  pose proof (@list_remove_perm self (children (nodes w p)) Hin) as HP.
  destruct (@reorder_children H fuel p
              (fun l => self :: list_remove self l) w Hb Hf)
    as (w' & E & B & O & C & P).
  { intros c Hc. eapply Permutation_in; eassumption. }
  assert (Cp : children (nodes w' p)
               = self :: list_remove self (children (nodes w p)))
    by (rewrite (C p); rewrite Nat.eqb_refl; reflexivity).
  exists w'. split.
  - exact E.
  - rewrite Cp. repeat split; auto.
    + eexists. reflexivity.
    + simpl. rewrite Nat.eqb_refl. simpl. apply list_remove_others.
Qed.

Lemma send_to_back_moves_first_witness :
  exists w',
    send_to_back 5 2%nat demo_tree = Ok w' tt /\
    Permutation (children (nodes w' 0%nat)) (children (nodes demo_tree 0%nat)).
Proof.
  destruct (@send_to_back_moves_first 2 5 2%nat demo_tree)
    as (w' & E & T).
  - exact demo_tree_bounded.
  - lia.
  - exists w'. split; [exact E|].
    assert (Hp : parent (nodes demo_tree 2%nat) = Some 0%nat)
      by (vm_compute; reflexivity).
    assert (Hin : is_in 2%nat (children (nodes demo_tree 0%nat)) = true)
      by (vm_compute; reflexivity).
    rewrite Hp, Hin in T. apply T.
Defined.

(** * Absolute positions *)

Lemma get_absolute_rect_eq fuel self w :
  get_absolute_rect fuel self w =
  match cache_r (nodes w self) with
  | Some r => Ok w r
  | None =>
      let x := rx (rect (nodes w self)) in
      let y := ry (rect (nodes w self)) in
      (xy <- match parent (nodes w self) with
             | Some p =>
                 match fuel with
                 | O => timeout
                 | S f =>
                     p_abs <- get_absolute_rect f p ;;
                     ret (x + rx p_abs, y + ry p_abs)
                 end
             | None => ret (x, y)
             end ;;
       fun w1 =>
         let r := mkRect (fst xy) (snd xy)
                    (rwidth (rect (nodes w1 self)))
                    (rheight (rect (nodes w1 self))) in
         Ok (upd self (with_cache_r (Some r)) w1) r) w
  end.
Proof. destruct fuel; reflexivity. Qed.

Lemma absolute_frame k : forall w w' n,
  (forall o, rect (nodes w' o) = rect (nodes w o) /\
             parent (nodes w' o) = parent (nodes w o)) ->
  absolute k w' n = absolute k w n.
Proof.
  induction k as [|k IH]; intros w w' n F; simpl;
    destruct (F n) as [R P]; rewrite R, P.
  - reflexivity.
  - destruct (parent (nodes w n)) as [p|]; [|reflexivity].
    rewrite (IH w w' p F). reflexivity.
Qed.

Lemma up_le_frame k : forall w w' n,
  (forall o, parent (nodes w' o) = parent (nodes w o)) ->
  up_le k w' n -> up_le k w n.
Proof.
  induction k as [|k IH]; intros w w' n F; simpl; rewrite (F n); auto.
  destruct (parent (nodes w n)) as [p|]; auto. apply IH. exact F.
Qed.

(** More budget than ancestors does not change the result. *)
Lemma absolute_stable k1 : forall k2 w n,
  up_le k1 w n -> up_le k2 w n -> absolute k1 w n = absolute k2 w n.
Proof.
  induction k1 as [|k1 IH]; intros k2 w n; destruct k2 as [|k2]; simpl;
    destruct (parent (nodes w n)) as [p|]; intros U1 U2;
    try reflexivity; try contradiction.
  rewrite (IH k2 w p U1 U2). reflexivity.
Qed.

Lemma coherent_fill w self r :
  coherent w ->
  (forall k, up_le k w self -> r = absolute k w self) ->
  coherent (upd self (with_cache_r (Some r)) w).
Proof.
  intros Hc Hr o r' k2 Hcache Hup.
  assert (F : forall o0,
             rect (nodes (upd self (with_cache_r (Some r)) w) o0)
               = rect (nodes w o0) /\
             parent (nodes (upd self (with_cache_r (Some r)) w) o0)
               = parent (nodes w o0)).
  { intros o0. simpl. destruct (Nat.eqb o0 self); split; reflexivity. }
  rewrite (@absolute_frame k2 w _ o F).
  apply (@up_le_frame k2 w _ o (fun o0 => proj2 (F o0))) in Hup.
  simpl in Hcache. destruct (Nat.eqb_spec o self) as [Eo|No].
  - simpl in Hcache. injection Hcache as <-. subst o. apply Hr. exact Hup.
  - eapply Hc; eassumption.
Qed.

(** X13.  [get_absolute_rect] adds up the positions along the parent
    chain.  In a world whose cached rects are coherent, for an element
    with at most [k] ancestors, it returns the local rect moved by the
    position of every ancestor; it stores that answer in [cache_r], keeps
    the caches coherent and changes nothing but [cache_r] slots; a second
    call returns the same rect from the cache and changes nothing. *)
Theorem get_absolute_rect_follows_parents (k : nat) :
  forall (fuel : nat) (self : oid) (w : World),
  coherent w -> up_le k w self -> (k <= fuel)%nat ->
  exists w',
    get_absolute_rect fuel self w = Ok w' (absolute k w self) /\
    cache_r (nodes w' self) = Some (absolute k w self) /\
    coherent w' /\
    bus w' = bus w /\ stdout w' = stdout w /\
    (forall o, with_cache_r None (nodes w' o) = with_cache_r None (nodes w o)) /\
    (forall fuel', get_absolute_rect fuel' self w' = Ok w' (absolute k w self)).
Proof.
  induction k as [|k IH]; intros fuel self w Hc Hup Hf;
    rewrite get_absolute_rect_eq;
    destruct (cache_r (nodes w self)) as [r|] eqn:Hcache.
  - exists w. rewrite <- (Hc self r 0%nat Hcache Hup).
    repeat split; auto.
    intros fuel'. rewrite get_absolute_rect_eq, Hcache. reflexivity.
  - simpl in Hup. simpl.
    destruct (parent (nodes w self)) as [p|] eqn:Hp; [contradiction|].
    unfold bind, ret.
    assert (Er : mkRect (rx (rect (nodes w self))) (ry (rect (nodes w self)))
                   (rwidth (rect (nodes w self))) (rheight (rect (nodes w self)))
                 = rect (nodes w self))
      by (destruct (rect (nodes w self)); reflexivity).
    simpl. rewrite Er.
    exists (upd self (with_cache_r (Some (rect (nodes w self)))) w).
    split; [reflexivity|]. split; [simpl; rewrite Nat.eqb_refl; reflexivity|].
    split.
    { apply coherent_fill; [exact Hc|]. intros k2 _.
      destruct k2; simpl; rewrite Hp; reflexivity. }
    split; [reflexivity|]. split; [reflexivity|]. split.
    { intros o. simpl. destruct (Nat.eqb_spec o self) as [->|]; reflexivity. }
    intros fuel'. rewrite get_absolute_rect_eq. simpl.
    rewrite Nat.eqb_refl. reflexivity.
  - exists w. rewrite <- (Hc self r (S k) Hcache Hup).
    repeat split; auto.
    intros fuel'. rewrite get_absolute_rect_eq, Hcache. reflexivity.
  - pose proof Hup as Hup0. simpl in Hup. simpl absolute.
    destruct (parent (nodes w self)) as [p|] eqn:Hp.
    + destruct fuel as [|f]; [lia|].
      destruct (IH f p w Hc Hup ltac:(lia))
        as (w1 & E1 & C1 & Hc1 & B1 & O1 & F1 & _).
      assert (F : forall o, rect (nodes w1 o) = rect (nodes w o) /\
                            parent (nodes w1 o) = parent (nodes w o)).
      { intros o. split.
        - exact (f_equal rect (F1 o)).
        - exact (f_equal parent (F1 o)). }
      set (r := mkRect (rx (rect (nodes w self)) + rx (absolute k w p))
                       (ry (rect (nodes w self)) + ry (absolute k w p))
                       (rwidth (rect (nodes w self)))
                       (rheight (rect (nodes w self)))).
      exists (upd self (with_cache_r (Some r)) w1).
      split.
      { unfold bind at 1. unfold bind at 1. rewrite E1. unfold ret. simpl.
        rewrite (proj1 (F self)). reflexivity. }
      split; [simpl; rewrite Nat.eqb_refl; reflexivity|].
      split.
      { apply coherent_fill; [exact Hc1|]. intros k2 Hk2.
        rewrite (@absolute_frame k2 w w1 self F).
        apply (@up_le_frame k2 w w1 self (fun o => proj2 (F o))) in Hk2.
        rewrite <- (@absolute_stable (S k) k2 w self Hup0 Hk2).
        simpl. rewrite Hp. reflexivity. }
      split; [exact B1|]. split; [exact O1|]. split.
      { intros o. simpl. rewrite <- (F1 o).
        destruct (Nat.eqb o self); reflexivity. }
      intros fuel'. rewrite get_absolute_rect_eq. simpl.
      rewrite Nat.eqb_refl. reflexivity.
    + unfold bind, ret.
      assert (Er : mkRect (rx (rect (nodes w self))) (ry (rect (nodes w self)))
                     (rwidth (rect (nodes w self))) (rheight (rect (nodes w self)))
                   = rect (nodes w self))
        by (destruct (rect (nodes w self)); reflexivity).
      simpl. rewrite Er.
      exists (upd self (with_cache_r (Some (rect (nodes w self)))) w).
      split; [reflexivity|]. split; [simpl; rewrite Nat.eqb_refl; reflexivity|].
      split.
      { apply coherent_fill; [exact Hc|]. intros k2 _.
        destruct k2; simpl; rewrite Hp; reflexivity. }
      split; [reflexivity|]. split; [reflexivity|]. split.
      { intros o. simpl. destruct (Nat.eqb_spec o self) as [->|]; reflexivity. }
      intros fuel'. rewrite get_absolute_rect_eq. simpl.
      rewrite Nat.eqb_refl. reflexivity.
Qed.

Lemma uncached_coherent w :
  (forall o, cache_r (nodes w o) = None) -> coherent w.
Proof. intros Hn o r k Hc. rewrite Hn in Hc. discriminate Hc. Qed.

Lemma get_absolute_rect_follows_parents_witness :
  exists w', get_absolute_rect 5 3%nat demo_tree = Ok w' (mkRect 15 15 10 10).
Proof.
  destruct (@get_absolute_rect_follows_parents 2 5 3%nat demo_tree)
    as (w' & E & _).
  - apply uncached_coherent. intros o.
    destruct o as [|[|[|[|o]]]]; vm_compute; reflexivity.
  - apply up_leb_sound. vm_compute. reflexivity.
  - lia.
  - assert (A : absolute 2 demo_tree 3%nat = mkRect 15 15 10 10)
      by (vm_compute; reflexivity).
    rewrite A in E. exists w'. exact E.
Defined.

(** * Depths *)

Lemma paths_same_children k : forall w w' n m,
  (forall o, children (nodes w' o) = children (nodes w o)) ->
  paths k w' n m = paths k w n m.
Proof.
  induction k as [|k IH]; intros w w' n m Hc; simpl; [reflexivity|].
  rewrite Hc. f_equal.
  induction (children (nodes w n)) as [|c l IHl]; simpl; [reflexivity|].
  rewrite IHl, (IH w w' c m Hc). reflexivity.
Qed.

Lemma height_le_reach w n m :
  reach w n m -> forall k, height_le k w n -> height_le k w m.
Proof.
  induction 1 as [|n c m Hc _ IH]; intros k Hh; [exact Hh|].
  apply IH. destruct k as [|k]; simpl in Hh.
  - rewrite Hh in Hc. destruct Hc.
  - apply height_le_mono, Hh, Hc.
Qed.

(** A bounded branch has no cycle. *)
Lemma no_cycle k : forall w n c,
  height_le k w n -> In c (children (nodes w n)) -> ~ reach w c n.
Proof.
  induction k as [|k IH]; intros w n c Hh Hc Hr; simpl in Hh.
  - rewrite Hh in Hc. destruct Hc.
  - apply (IH w n c); [|exact Hc|exact Hr].
    apply (@height_le_reach w c n Hr). apply Hh, Hc.
Qed.

Lemma paths_unreached k : forall w n m, ~ reach w n m -> paths k w n m = 0.
Proof.
  induction k as [|k IH]; intros w n m Hn; simpl;
    destruct (Nat.eqb_spec n m) as [->|Hne];
    try (exfalso; apply Hn; constructor); [reflexivity|].
  assert (Hl : forall l, incl l (children (nodes w n)) ->
             fold_right (fun c acc => paths k w c m + acc) 0 l = 0).
  { induction l as [|c l IHl]; intros Hin; simpl; [reflexivity|].
    rewrite IHl by (intros x Hx; apply Hin; right; exact Hx).
    rewrite IH; [reflexivity|].
    intros Hr. apply Hn. apply reach_child with c; [|exact Hr].
    apply Hin. left. reflexivity. }
  rewrite Hl by apply incl_refl. reflexivity.
Qed.

Lemma paths_self k w n : height_le k w n -> paths k w n n = 1.
Proof.
  intros Hh. destruct k as [|k]; simpl; rewrite Nat.eqb_refl; [reflexivity|].
  assert (Hl : forall l, incl l (children (nodes w n)) ->
             fold_right (fun c acc => paths k w c n + acc) 0 l = 0).
  { induction l as [|c l IHl]; intros Hin; simpl; [reflexivity|].
    rewrite IHl by (intros x Hx; apply Hin; right; exact Hx).
    rewrite paths_unreached; [reflexivity|].
    apply (@no_cycle (S k) w n c Hh). apply Hin. left. reflexivity. }
  rewrite Hl by apply incl_refl. reflexivity.
Qed.

(** [_update_depth] on a bounded branch: every visit of a node adds the
    same change to its depth. *)
Lemma update_depth_spec k : forall fuel self d w,
  height_le k w self -> (k <= fuel)%nat ->
  exists w',
    _update_depth fuel self d w = Ok w' tt /\
    bus w' = bus w /\ stdout w' = stdout w /\
    (forall o, with_depth 0 (nodes w' o) = with_depth 0 (nodes w o)) /\
    (forall m, depth (nodes w' m)
               = depth (nodes w m)
                 + (d - depth (nodes w self)) * paths k w self m).
Proof.
  induction k as [|k IH]; intros fuel self d w Hh Hf.
  - simpl in Hh. exists (upd self (with_depth d) w).
    split; [|split; [|split; [|split]]].
    + destruct fuel; cbn [_update_depth]; unfold bind, modify;
        rewrite Hh; reflexivity.
    + reflexivity.
    + reflexivity.
    + intros o. simpl. destruct (Nat.eqb o self); reflexivity.
    + intros m. simpl. rewrite (Nat.eqb_sym self m).
      destruct (Nat.eqb_spec m self) as [->|]; simpl; lia.
  - destruct fuel as [|f]; [lia|].
    set (change := d - depth (nodes w self)).
    set (w1 := upd self (with_depth d) w).
    assert (Hloop : forall L, incl L (children (nodes w self)) ->
      forall w2,
        bus w2 = bus w -> stdout w2 = stdout w ->
        (forall o, with_depth 0 (nodes w2 o) = with_depth 0 (nodes w o)) ->
        exists w',
          for_each L
            (fun child w' =>
               _update_depth f child (depth (nodes w' child) + change) w') w2
            = Ok w' tt /\
          bus w' = bus w /\ stdout w' = stdout w /\
          (forall o, with_depth 0 (nodes w' o) = with_depth 0 (nodes w o)) /\
          (forall m, depth (nodes w' m)
                     = depth (nodes w2 m)
                       + change
                         * fold_right (fun c acc => paths k w c m + acc) 0 L)).
    { induction L as [|c L IHL]; intros Hin w2 B2 O2 F2.
      - exists w2. repeat split; auto. intros m. simpl. lia.
      - assert (Hc : In c (children (nodes w self)))
          by (apply Hin; left; reflexivity).
        assert (C2 : forall o, children (nodes w2 o) = children (nodes w o))
          by (intros o; exact (f_equal children (F2 o))).
        destruct (IH f c (depth (nodes w2 c) + change) w2)
          as (w3 & E3 & B3 & O3 & F3 & D3).
        { apply height_le_same_children with w; [exact C2|]. apply Hh, Hc. }
        { lia. }
        destruct (IHL (fun x Hx => Hin x (or_intror Hx)) w3)
          as (w4 & E4 & B4 & O4 & F4 & D4).
        { congruence. }
        { congruence. }
        { intros o. rewrite F3. apply F2. }
        exists w4. split; [|split; [|split; [|split]]]; auto.
        + cbn [for_each]. erewrite bind_ok by exact E3. exact E4.
        + intros m. rewrite D4, D3.
          rewrite (@paths_same_children k w w2 c m C2). simpl. lia. }
    destruct (Hloop (children (nodes w self)) (incl_refl _) w1)
      as (w' & E & B & O & F & D).
    { reflexivity. }
    { reflexivity. }
    { intros o. unfold w1. simpl. destruct (Nat.eqb o self); reflexivity. }
    exists w'. split; [exact E|]. repeat split; auto.
    intros m. rewrite D. unfold w1. cbn [paths nodes upd].
    rewrite (Nat.eqb_sym self m).
    destruct (Nat.eqb_spec m self) as [->|]; cbn [depth with_depth];
      unfold change; lia.
Qed.

(** X14.  [_update_depth] on a bounded branch returns with the node at the
    new depth and with the same change applied to the depth of every node
    below it, once for each way down to that node (once in a tree); the
    depth of a node outside the branch, and every other slot of every
    node, is left alone. *)
Theorem update_depth_shifts_the_branch
    (k fuel : nat) (self : oid) (d : Z) (w : World) :
  height_le k w self -> (k <= fuel)%nat ->
  exists w',
    _update_depth fuel self d w = Ok w' tt /\
    depth (nodes w' self) = d /\
    (forall m, depth (nodes w' m)
               = depth (nodes w m)
                 + (d - depth (nodes w self)) * paths k w self m) /\
    (forall m, paths k w self m = 0 \/ reach w self m) /\
    (forall o, with_depth 0 (nodes w' o) = with_depth 0 (nodes w o)) /\
    bus w' = bus w /\ stdout w' = stdout w.
Proof.
  intros Hh Hf.
  destruct (@update_depth_spec k fuel self d w Hh Hf)
    as (w' & E & B & O & F & D).
  exists w'. repeat split; auto.
  - rewrite D, (@paths_self k w self Hh). lia.
  - intros m. destruct (Z.eq_dec (paths k w self m) 0) as [Z0|Z0]; [left; exact Z0|].
    right. revert Z0. clear. revert self.
    induction k as [|k IH]; intros self; simpl.
    + destruct (Nat.eqb_spec self m) as [->|]; [constructor | lia].
    + destruct (Nat.eqb_spec self m) as [->|]; [constructor|].
      intros Hs.
      assert (Hex : exists c, In c (children (nodes w self)) /\
                              paths k w c m <> 0).
      { induction (children (nodes w self)) as [|c l IHl]; simpl in Hs; [lia|].
        destruct (Z.eq_dec (paths k w c m) 0) as [Zc|Zc].
        - destruct IHl as (c' & Hc' & Hp); [lia|].
          exists c'. split; [right; exact Hc' | exact Hp].
        - exists c. split; [left; reflexivity | exact Zc]. }
      destruct Hex as (c & Hc & Hp).
      apply reach_child with c; [exact Hc | apply IH, Hp].
Qed.

Lemma update_depth_shifts_the_branch_witness :
  exists w',
    _update_depth 5 1%nat 7 demo_tree = Ok w' tt /\
    depth (nodes w' 1%nat) = 7.
Proof.
  destruct (@update_depth_shifts_the_branch 1 5 1%nat 7 demo_tree)
    as (w' & E & D & _).
  - apply height_leb_sound. vm_compute. reflexivity.
  - lia.
  - exists w'. split; assumption.
Defined.

(** * What [reset] reaches *)

Lemma dropped_refl w : dropped w w.
Proof. split; [apply invalidates_refl | intros o; split; auto]. Qed.

Lemma dropped_trans w1 w2 w3 : dropped w1 w2 -> dropped w2 w3 -> dropped w1 w3.
Proof.
  intros [I1 D1] [I2 D2]. split; [eapply invalidates_trans; eassumption|].
  intros o. destruct (D1 o), (D2 o). split; auto.
Qed.

Lemma dropped_cleared w w' m : dropped w w' -> cleared w m -> cleared w' m.
Proof.
  intros [(_ & _ & N) D] (C & R & F). destruct (D m), (N m).
  repeat split; auto.
Qed.

Lemma reach_same_children_back w w' n m :
  (forall o, children (nodes w' o) = children (nodes w o)) ->
  reach w' n m -> reach w n m.
Proof.
  intros Hc. apply reach_same_children. intros o. symmetry. apply Hc.
Qed.

Lemma reset_spec k : forall fuel self w,
  height_le k w self -> (k <= fuel)%nat ->
  exists w',
    reset fuel self w = Ok w' tt /\
    dropped w w' /\
    (forall m, reach w self m -> cleared w' m) /\
    (forall o, ~ reach w self o -> nodes w' o = nodes w o).
Proof.
  induction k as [|k IH]; intros fuel self w Hh Hf.
  - simpl in Hh.
    exists (upd self (with_cache None)
              (upd self (fun n => with_cache_r None (with_redraw true n)) w)).
    split; [|split; [|split]].
    + destruct fuel; cbn [reset reset_graphics]; unfold bind, modify, ret;
        cbn [nodes upd]; rewrite !Nat.eqb_refl;
        cbn [children with_cache_r with_redraw with_cache];
        rewrite Hh; reflexivity.
    + split; [eapply invalidates_trans; apply invalidates_upd; auto|].
      intros o. simpl. destruct (Nat.eqb o self); simpl; auto.
    + intros m Hr. inversion Hr as [|n c m' Hc _]; subst.
      * unfold cleared. simpl. rewrite Nat.eqb_refl. simpl. auto.
      * rewrite Hh in Hc. destruct Hc.
    + intros o Ho. simpl. destruct (Nat.eqb_spec o self) as [->|]; [|reflexivity].
      exfalso. apply Ho. constructor.
  - destruct fuel as [|fuel]; [lia|].
    set (w1 := upd self (with_cache None)
                 (upd self (fun n => with_cache_r None (with_redraw true n)) w)).
    assert (D1 : dropped w w1).
    { split; [eapply invalidates_trans; apply invalidates_upd; auto|].
      intros o. unfold w1. simpl. destruct (Nat.eqb o self); simpl; auto. }
    assert (U1 : forall o, ~ reach w self o -> nodes w1 o = nodes w o).
    { intros o Ho. unfold w1. simpl.
      destruct (Nat.eqb_spec o self) as [->|]; [|reflexivity].
      exfalso. apply Ho. constructor. }
    assert (Hloop : forall L, incl L (children (nodes w self)) ->
      forall w2, dropped w w2 ->
        (forall o, ~ reach w self o -> nodes w2 o = nodes w o) ->
        exists w',
          for_each L (fun child => reset fuel child) w2 = Ok w' tt /\
          dropped w2 w' /\
          (forall c m, In c L -> reach w c m -> cleared w' m) /\
          (forall o, ~ reach w self o -> nodes w' o = nodes w o)).
    { induction L as [|c L IHL]; intros Hin w2 D2 U2.
      - exists w2. split; [reflexivity|]. split; [apply dropped_refl|].
        split; [intros c m []|exact U2].
      - assert (Hc : In c (children (nodes w self)))
          by (apply Hin; left; reflexivity).
        assert (C2 : forall o, children (nodes w2 o) = children (nodes w o))
          by (intros o; apply invalidates_children, D2).
        destruct (IH fuel c w2) as (w3 & E3 & D3 & R3 & U3).
        { apply height_le_same_children with w; [exact C2|]. apply Hh, Hc. }
        { lia. }
        destruct (IHL (fun x Hx => Hin x (or_intror Hx)) w3)
          as (w4 & E4 & D4 & R4 & U4).
        { eapply dropped_trans; eassumption. }
        { intros o Ho. rewrite U3; [apply U2, Ho|].
          intros Hr. apply Ho. apply reach_child with c; [exact Hc|].
          apply (@reach_same_children_back w w2 c o C2 Hr). }
        exists w4. split; [|split; [|split]].
        + cbn [for_each]. erewrite bind_ok by exact E3. exact E4.
        + eapply dropped_trans; eassumption.
        + intros c' m [Hc'|Hc'] Hr.
          * subst c'. apply (@dropped_cleared w3 w4 m D4). apply R3.
            apply (@reach_same_children w w2 c m C2 Hr).
          * eapply R4; eassumption.
        + exact U4. }
    assert (Hch : children (nodes w1 self) = children (nodes w self))
      by (apply invalidates_children, D1).
    destruct (Hloop (children (nodes w self)) (incl_refl _) w1 D1 U1)
      as (w' & E & D' & R' & U').
    exists w'. split; [|split; [|split]].
    + cbn [reset reset_graphics]. unfold bind, modify, ret. fold w1.
      rewrite Hch. exact E.
    + eapply dropped_trans; eassumption.
    + intros m Hr. inversion Hr as [|n c m' Hc Hr']; subst.
      * apply (@dropped_cleared w1 w' m D'). unfold cleared, w1. simpl.
        rewrite Nat.eqb_refl. simpl. auto.
      * eapply R'; eassumption.
    + exact U'.
Qed.

(** X15.  [reset] on a bounded branch returns and puts the node and every
    node below it in the reset state: no cached root, no cached absolute
    rect, [redraw] set.  A node outside the branch is not touched at all,
    and inside it nothing but those three slots changes. *)
Theorem reset_clears_the_branch (k fuel : nat) (self : oid) (w : World) :
  height_le k w self -> (k <= fuel)%nat ->
  exists w',
    reset fuel self w = Ok w' tt /\
    (forall m, reach w self m -> cleared w' m) /\
    (forall o, ~ reach w self o -> nodes w' o = nodes w o) /\
    (forall o, strip (nodes w' o) = strip (nodes w o)) /\
    bus w' = bus w /\ stdout w' = stdout w.
Proof.
  intros Hh Hf.
  destruct (@reset_spec k fuel self w Hh Hf)
    as (w' & E & [(B & O & N) _] & R & U).
  exists w'. split; [exact E|]. split; [exact R|]. split; [exact U|].
  split; [intros o; apply N|]. split; assumption.
Qed.

Lemma reset_clears_the_branch_witness :
  exists w',
    reset 5 1%nat demo_tree = Ok w' tt /\ cleared w' 3%nat.
Proof.
  destruct (@reset_clears_the_branch 1 5 1%nat demo_tree) as (w' & E & R & _).
  - apply height_leb_sound. vm_compute. reflexivity.
  - lia.
  - exists w'. split; [exact E|]. apply R.
    apply reach_child with 3%nat; [|constructor].
    assert (Hc : children (nodes demo_tree 1%nat) = [3%nat])
      by (vm_compute; reflexivity).
    rewrite Hc. left. reflexivity.
Defined.

(** * [add] *)

Lemma linked_fields self child w o :
  children (nodes (linked self child w) o)
    = (if Nat.eqb o self then children (nodes w self) ++ [child]
       else children (nodes w o)) /\
  parent (nodes (linked self child w) o)
    = (if Nat.eqb o child then Some self else parent (nodes w o)) /\
  with_parent None (with_children [] (nodes (linked self child w) o))
    = with_parent None (with_children [] (nodes w o)).
Proof.
  unfold linked. simpl.
  destruct (Nat.eqb_spec o child) as [Ec|Nc], (Nat.eqb_spec o self) as [Es|Ns];
    subst; simpl; repeat split; reflexivity.
Qed.

Lemma root_walk_same_parents w w' :
  (forall o, parent (nodes w' o) = parent (nodes w o)) ->
  forall fuel n, root_walk fuel n w' = root_walk fuel n w.
Proof.
  intros Hp. induction fuel as [|f IH]; intros n; simpl; rewrite Hp.
  - reflexivity.
  - destruct (parent (nodes w n)); auto.
Qed.

Lemma register_nodes e w o :
  with_address 0 (nodes (fst (register e w)) o) = with_address 0 (nodes w o).
Proof.
  unfold register. destruct (address (nodes w e) <? 0); simpl; [|reflexivity].
  destruct (Nat.eqb o e); reflexivity.
Qed.

Lemma register_other_address e w o :
  o <> e -> address (nodes (fst (register e w)) o) = address (nodes w o).
Proof.
  intros Ho. apply Nat.eqb_neq in Ho.
  unfold register. destruct (address (nodes w e) <? 0); simpl; [|reflexivity].
  rewrite Ho. reflexivity.
Qed.

Lemma with_parent_same n p : parent n = Some p -> with_parent (Some p) n = n.
Proof. destruct n. simpl. intros ->. reflexivity. Qed.

(** The run of a successful [add], step by step: [w6] is the world before
    the registration, [rt] the root that [self.root()] finds. *)
Lemma add_runs (k ku fuel : nat) (self child : oid) (w : World) :
  child <> self ->
  parent (nodes w child) <> Some self ->
  depth (nodes w child) < depth_max (nodes w self) ->
  height_le k (linked self child w) self ->
  up_le ku (linked self child w) self ->
  (k <= fuel)%nat -> (ku <= fuel)%nat ->
  exists w6 rt w',
    add fuel self child w = Ok w' tt /\
    (forall o, nodes w' o
               = nodes (if connected rt w6 then fst (register child w6)
                        else w6) o) /\
    bus w' = bus (if connected rt w6 then fst (register child w6) else w6) /\
    stdout w'
      = stdout (if connected rt w6 then fst (register child w6) else w6) /\
    (if is_root_class (cls (nodes w self)) then Some self
     else root_walk fuel self (linked self child w)) = Some rt /\
    bus w6 = bus w /\
    stdout w6 = stdout w ++ [LParenting (name (nodes w self))
                               (name (nodes w child))
                               (depth (nodes w self) + 1)] /\
    (forall o, with_depth 0 (strip (nodes w6 o))
               = with_depth 0 (strip (nodes (linked self child w) o))) /\
    depth (nodes w6 child) = depth (nodes w self) + 1 /\
    (forall m, ~ reach (linked self child w) child m ->
               depth (nodes w6 m) = depth (nodes w m)) /\
    (forall m, reach (linked self child w) self m ->
               cache_r (nodes w6 m) = None).
Proof.
  intros Hne Hpar Hdep Hh Hu Hk Hku.
  set (w2 := linked self child w) in *.
  assert (L2 : forall o,
    children (nodes w2 o)
      = (if Nat.eqb o self then children (nodes w self) ++ [child]
         else children (nodes w o)) /\
    parent (nodes w2 o)
      = (if Nat.eqb o child then Some self else parent (nodes w o)) /\
    with_parent None (with_children [] (nodes w2 o))
      = with_parent None (with_children [] (nodes w o)))
    by (intros o; apply linked_fields).
  assert (Dp2 : forall o, depth (nodes w2 o) = depth (nodes w o))
    by (intros o; exact (f_equal depth (proj2 (proj2 (L2 o))))).
  assert (Nm2 : forall o, name (nodes w2 o) = name (nodes w o))
    by (intros o; exact (f_equal name (proj2 (proj2 (L2 o))))).
  assert (Cl2 : forall o, cls (nodes w2 o) = cls (nodes w o))
    by (intros o; exact (f_equal cls (proj2 (proj2 (L2 o))))).
  assert (Hin : In child (children (nodes w2 self))).
  { rewrite (proj1 (L2 self)), Nat.eqb_refl. apply in_or_app. right. left.
    reflexivity. }
  destruct k as [|k'].
  { cbn [height_le] in Hh. rewrite Hh in Hin. destruct Hin. }
  assert (Hhc : height_le k' w2 child) by (apply Hh, Hin).
  destruct (@update_depth_spec k' fuel child (depth (nodes w2 self) + 1) w2 Hhc
              ltac:(lia)) as (w3 & E3 & B3 & O3 & F3 & D3).
  set (w4 := print (LParenting (name (nodes w3 self)) (name (nodes w3 child))
                      (depth (nodes w3 child))) w3).
  assert (C3 : forall o, children (nodes w3 o) = children (nodes w2 o))
    by (intros o; exact (f_equal children (F3 o))).
  assert (Hh4 : height_le (S k') w4 self).
  { apply height_le_same_children with w2; [exact C3 | exact Hh]. }
  destruct (@reset_spec (S k') fuel self w4 Hh4 Hk)
    as (w5 & E5 & [(B5 & O5 & N5) D5] & R5 & U5).
  assert (F5 : forall o, with_depth 0 (strip (nodes w5 o))
                         = with_depth 0 (strip (nodes w2 o))).
  { intros o. rewrite (proj1 (N5 o)). unfold w4. simpl.
    exact (f_equal strip (F3 o)). }
  assert (P5 : forall o, parent (nodes w5 o) = parent (nodes w2 o))
    by (intros o; exact (f_equal parent (F5 o))).
  assert (Dp5 : forall o, depth (nodes w5 o) = depth (nodes w3 o)).
  { intros o. exact (f_equal depth (proj1 (N5 o))). }
  assert (Dc : depth (nodes w3 child) = depth (nodes w self) + 1).
  { rewrite D3, (@paths_self k' w2 child Hhc), !Dp2. lia. }
  assert (Du : forall m, ~ reach w2 child m ->
                         depth (nodes w3 m) = depth (nodes w m)).
  { intros m Hm. rewrite D3, (@paths_unreached k' w2 child m Hm), Dp2. lia. }
  assert (Cr5 : forall m, reach w2 self m -> cache_r (nodes w5 m) = None).
  { intros m Hm. apply R5.
    apply (@reach_same_children w2 w4 self m C3 Hm). }
  assert (Cs5 : is_root_class (cls (nodes w5 self)) = false ->
                cache (nodes w5 self) = None).
  { intros _. apply R5. constructor. }
  assert (Cl5 : cls (nodes w5 self) = cls (nodes w self)).
  { rewrite <- Cl2. exact (f_equal cls (F5 self)). }
  assert (O5' : stdout w5 = stdout w ++ [LParenting (name (nodes w self))
                  (name (nodes w child)) (depth (nodes w self) + 1)]).
  { assert (Nm3 : forall o, name (nodes w3 o) = name (nodes w2 o))
      by (intros o; exact (f_equal name (F3 o))).
    rewrite O5. unfold w4. simpl. rewrite O3, Dc, !Nm3, !Nm2.
    reflexivity. }
  assert (B5' : bus w5 = bus w) by (rewrite B5; unfold w4; simpl; exact B3).
  (* the root *)
  assert (Hroot : exists w6 rt,
    root fuel self w5 = Ok w6 rt /\
    (if is_root_class (cls (nodes w self)) then Some self
     else root_walk fuel self w2) = Some rt /\
    bus w6 = bus w5 /\ stdout w6 = stdout w5 /\
    (forall o, with_cache None (nodes w6 o) = with_cache None (nodes w5 o))).
  { unfold root, UIElement_root. rewrite Cl5.
    destruct (is_root_class (cls (nodes w self))) eqn:Hcls.
    - exists w5, self. repeat split; reflexivity.
    - rewrite Cs5 by (rewrite Cl5; exact Hcls).
      rewrite (@root_walk_same_parents w2 w5 P5 fuel self).
      destruct (@root_walk_up_le ku fuel w2 self Hu Hku) as [r Hr].
      rewrite Hr. eexists. exists r. repeat split; try reflexivity.
      intros o. simpl. destruct (Nat.eqb o self); reflexivity. }
  destruct Hroot as (w6 & rt & E6 & Hrt & B6 & O6 & F6).
  set (wE := if connected rt w6 then fst (register child w6) else w6).
  assert (EE : UIElement_add fuel self child w = Ok wE tt).
  { unfold UIElement_add.
    apply Nat.eqb_neq in Hne. rewrite Hne.
    assert (Hso : same_obj (parent (nodes w child)) self = false).
    { unfold same_obj. destruct (parent (nodes w child)) as [p|]; [|reflexivity].
      apply Nat.eqb_neq. intros ->. apply Hpar. reflexivity. }
    rewrite Hso. simpl orb. cbv iota.
    apply Z.ltb_lt in Hdep. rewrite Hdep.
    unfold bind at 1, modify at 1. unfold bind at 1, modify at 1.
    change (upd child (with_parent (Some self))
              (upd self (fun n => with_children (children n ++ [child]) n) w))
      with w2.
    erewrite bind_ok by exact E3.
    unfold bind at 1, modify at 1. fold w4.
    erewrite bind_ok by exact E5.
    erewrite bind_ok by exact E6.
    unfold wE. destruct (connected rt w6); reflexivity. }
  assert (PE : parent (nodes wE child) = Some self).
  { assert (P6 : parent (nodes w6 child) = Some self).
    { assert (P6' : parent (nodes w6 child) = parent (nodes w5 child))
        by exact (f_equal parent (F6 child)).
      rewrite P6', P5, (proj1 (proj2 (L2 child))), Nat.eqb_refl.
      reflexivity. }
    unfold wE. destruct (connected rt w6); [|exact P6].
    assert (PR : parent (nodes (fst (register child w6)) child)
                 = parent (nodes w6 child))
      by exact (f_equal parent (register_nodes child w6 child)).
    rewrite PR. exact P6. }
  exists w6, rt.
  exists (if is_root_class (cls (nodes w self))
          then upd child (with_parent (Some self)) wE else wE).
  fold wE.
  split; [|split; [|split; [|split; [|split; [|split; [|split; [|split;
    [|split; [|split]]]]]]]]].
  - unfold add, UIRoot_add.
    destruct (is_root_class (cls (nodes w self))); [|exact EE].
    erewrite bind_ok by exact EE. reflexivity.
  - intros o. destruct (is_root_class (cls (nodes w self))); [|reflexivity].
    simpl. destruct (Nat.eqb_spec o child) as [->|]; [|reflexivity].
    apply with_parent_same, PE.
  - destruct (is_root_class (cls (nodes w self))); reflexivity.
  - destruct (is_root_class (cls (nodes w self))); reflexivity.
  - exact Hrt.
  - rewrite B6. exact B5'.
  - rewrite O6. exact O5'.
  - intros o. rewrite <- F5.
    exact (f_equal (fun n => with_depth 0 (strip n)) (F6 o)).
  - assert (D6 : depth (nodes w6 child) = depth (nodes w5 child))
      by exact (f_equal depth (F6 child)).
    rewrite D6, Dp5. exact Dc.
  - intros m Hm.
    assert (D6 : depth (nodes w6 m) = depth (nodes w5 m))
      by exact (f_equal depth (F6 m)).
    rewrite D6, Dp5. apply Du, Hm.
  - intros m Hm.
    assert (D6 : cache_r (nodes w6 m) = cache_r (nodes w5 m))
      by exact (f_equal cache_r (F6 m)).
    rewrite D6. apply Cr5, Hm.
Qed.

(** X16.  A successful [add] attaches the child.  When the child is not
    the element itself, does not already have it as parent, has a depth
    below the element's [depth_max], and the tree with the new link in
    place is bounded
    (the branch below the element, and the way up from it to the root),
    [add] returns; the child is then the last of the element's children
    and has the element as parent; its depth is the element's plus one,
    while nodes outside the child's branch keep their depth; no cached
    absolute rect is left in the element's branch; no other link changes,
    and no rect, store or [disposed] flag; the first line printed is the
    parenting line. *)
Theorem add_attaches_child (k ku fuel : nat) (self child : oid) (w : World) :
  child <> self ->
  parent (nodes w child) <> Some self ->
  depth (nodes w child) < depth_max (nodes w self) ->
  height_le k (linked self child w) self ->
  up_le ku (linked self child w) self ->
  (k <= fuel)%nat -> (ku <= fuel)%nat ->
  exists w',
    add fuel self child w = Ok w' tt /\
    (forall o, children (nodes w' o)
               = if Nat.eqb o self then children (nodes w self) ++ [child]
                 else children (nodes w o)) /\
    (forall o, parent (nodes w' o)
               = if Nat.eqb o child then Some self else parent (nodes w o)) /\
    depth (nodes w' child) = depth (nodes w self) + 1 /\
    (forall m, ~ reach (linked self child w) child m ->
               depth (nodes w' m) = depth (nodes w m)) /\
    (forall m, reach (linked self child w) self m ->
               cache_r (nodes w' m) = None) /\
    (forall o, disposed (nodes w' o) = disposed (nodes w o) /\
               rect (nodes w' o) = rect (nodes w o) /\
               store (nodes w' o) = store (nodes w o)) /\
    exists tail,
      stdout w' = stdout w ++ LParenting (name (nodes w self))
                                (name (nodes w child))
                                (depth (nodes w self) + 1) :: tail.
Proof.
  intros Hne Hpar Hdep Hh Hu Hk Hku.
  destruct (@add_runs k ku fuel self child w Hne Hpar Hdep Hh Hu Hk Hku)
    as (w6 & rt & w' & E & N & _ & O & _ & _ & O6 & F & Dc & Du & Cr).
  set (wE := if connected rt w6 then fst (register child w6) else w6) in *.
  assert (G : forall o, with_address 0 (nodes wE o) = with_address 0 (nodes w6 o)).
  { intros o. unfold wE. destruct (connected rt w6); [|reflexivity].
    apply register_nodes. }
  assert (T : forall o,
    with_address 0 (with_depth 0 (strip (nodes w' o)))
    = with_address 0 (with_depth 0 (strip (nodes (linked self child w) o)))).
  { intros o. rewrite N, <- F.
    exact (f_equal (fun n => with_depth 0 (strip n)) (G o)). }
  exists w'. split; [exact E|].
  split; [|split; [|split; [|split; [|split; [|split]]]]].
  - intros o. rewrite <- (proj1 (linked_fields self child w o)).
    exact (f_equal children (T o)).
  - intros o. rewrite <- (proj1 (proj2 (linked_fields self child w o))).
    exact (f_equal parent (T o)).
  - rewrite N, <- Dc. exact (f_equal depth (G child)).
  - intros m Hm. rewrite N, <- (Du m Hm). exact (f_equal depth (G m)).
  - intros m Hm. rewrite N, <- (Cr m Hm). exact (f_equal cache_r (G m)).
  - intros o. pose proof (proj2 (proj2 (linked_fields self child w o))) as L.
    assert (L1 : disposed (nodes (linked self child w) o) = disposed (nodes w o))
      by exact (f_equal disposed L).
    assert (L2 : rect (nodes (linked self child w) o) = rect (nodes w o))
      by exact (f_equal rect L).
    assert (L3 : store (nodes (linked self child w) o) = store (nodes w o))
      by exact (f_equal store L).
    rewrite <- L1, <- L2, <- L3. split; [|split].
    + exact (f_equal disposed (T o)).
    + exact (f_equal rect (T o)).
    + exact (f_equal store (T o)).
  - rewrite O. unfold wE. destruct (connected rt w6).
    + destruct (register_fields child w6) as (_ & _ & _ & _ & _ & _ & S).
      cbn zeta in S. rewrite S, O6, <- app_assoc. eexists. reflexivity.
    + rewrite O6. eexists. reflexivity.
Qed.

Lemma add_attaches_child_witness :
  exists w',
    add 5 2%nat 3%nat demo_tree = Ok w' tt /\
    parent (nodes w' 3%nat) = Some 2%nat /\
    depth (nodes w' 3%nat) = 2.
Proof.
  destruct (@add_attaches_child 2 2 5 2%nat 3%nat demo_tree)
    as (w' & E & _ & P & D & _).
  - discriminate.
  - vm_compute. discriminate.
  - vm_compute. reflexivity.
  - apply height_leb_sound. vm_compute. reflexivity.
  - apply up_leb_sound. vm_compute. reflexivity.
  - lia.
  - lia.
  - exists w'. split; [exact E|]. split.
    + rewrite P. reflexivity.
    + rewrite D. vm_compute. reflexivity.
Defined.

(** X17.  A successful [add] registers the child and nobody else.  Under
    the conditions of a successful [add], the root is the element itself
    when it is a [UIRoot] and otherwise the top of its parent chain.  When
    that root has a bus, the child is on the bus afterwards, at the
    address it had or else at the next free one; the two tables of the
    bus have gained that one key, the queue is as before, and no other
    node has become registered or changed its address: the nodes below
    the child are not registered by this call.  When the root has no bus,
    the bus and all addresses are as before. *)
Theorem add_registers_only_the_child
    (k ku fuel : nat) (self child : oid) (w : World) :
  child <> self ->
  parent (nodes w child) <> Some self ->
  depth (nodes w child) < depth_max (nodes w self) ->
  height_le k (linked self child w) self ->
  up_le ku (linked self child w) self ->
  (k <= fuel)%nat -> (ku <= fuel)%nat ->
  exists w' rt,
    add fuel self child w = Ok w' tt /\
    (if is_root_class (cls (nodes w self)) then Some self
     else root_walk fuel self (linked self child w)) = Some rt /\
    (forall m, m <> child -> address (nodes w' m) = address (nodes w m)) /\
    if has_bus (nodes w rt) then
      let a := if address (nodes w child) <? 0 then _next_addr (bus w)
               else address (nodes w child) in
      address (nodes w' child) = a /\
      registered child w' /\
      _elements (bus w') = dict_set Z.eqb a child (_elements (bus w)) /\
      _handler_cache (bus w')
        = dict_set Z.eqb a (Some child) (_handler_cache (bus w)) /\
      _queue (bus w') = _queue (bus w) /\
      (forall m, m <> child -> registered m w' -> registered m w)
    else
      bus w' = bus w /\ address (nodes w' child) = address (nodes w child).
Proof.
  intros Hne Hpar Hdep Hh Hu Hk Hku.
  destruct (@add_runs k ku fuel self child w Hne Hpar Hdep Hh Hu Hk Hku)
    as (w6 & rt & w' & E & N & B & _ & Hrt & B6 & _ & F & _).
  assert (L : forall o,
    with_parent None (with_children [] (nodes (linked self child w) o))
    = with_parent None (with_children [] (nodes w o)))
    by (intros o; apply linked_fields).
  assert (A6 : forall o, address (nodes w6 o) = address (nodes w o)).
  { intros o.
    assert (L1 : address (nodes (linked self child w) o) = address (nodes w o))
      by exact (f_equal address (L o)).
    rewrite <- L1. exact (f_equal address (F o)). }
  assert (H6 : connected rt w6 = has_bus (nodes w rt)).
  { unfold connected.
    assert (L1 : has_bus (nodes (linked self child w) rt) = has_bus (nodes w rt))
      by exact (f_equal has_bus (L rt)).
    rewrite <- L1. exact (f_equal has_bus (F rt)). }
  rewrite H6 in N, B.
  exists w', rt. split; [exact E|]. split; [exact Hrt|].
  destruct (has_bus (nodes w rt)).
  - destruct (register_fields child w6) as (_ & R2 & R3 & R4 & _ & R6 & _).
    cbn zeta in *. rewrite A6, B6 in R2, R3, R4. rewrite B6 in R6.
    set (a := if address (nodes w child) <? 0 then _next_addr (bus w)
              else address (nodes w child)) in *.
    assert (Ao : forall m, m <> child ->
                           address (nodes w' m) = address (nodes w m)).
    { intros m Hm. rewrite N, <- A6. apply register_other_address, Hm. }
    assert (Ac : address (nodes w' child) = a) by (rewrite N; exact R2).
    split; [exact Ao|].
    split; [exact Ac|].
    split.
    { unfold registered. rewrite Ac, B, R3, R4, !dict_get_set, Z.eqb_refl.
      split; reflexivity. }
    split; [rewrite B; exact R3|].
    split; [rewrite B; exact R4|].
    split; [rewrite B; exact R6|].
    intros m Hm [G1 G2]. rewrite (Ao m Hm), B, R3 in G1.
    rewrite (Ao m Hm), B, R4 in G2. rewrite dict_get_set in G1, G2.
    destruct (address (nodes w m) =? a).
    + exfalso. apply Hm. congruence.
    + split; assumption.
  - split; [|split].
    + intros m _. rewrite N. apply A6.
    + rewrite B. exact B6.
    + rewrite N. apply A6.
Qed.

Lemma add_registers_only_the_child_witness :
  exists w' rt,
    add 5 2%nat 3%nat demo_tree = Ok w' tt /\
    root_walk 5 2%nat (linked 2%nat 3%nat demo_tree) = Some rt /\
    address (nodes w' 1%nat) = address (nodes demo_tree 1%nat).
Proof.
  destruct (@add_registers_only_the_child 2 2 5 2%nat 3%nat demo_tree)
    as (w' & rt & E & R & A & _).
  - discriminate.
  - vm_compute. discriminate.
  - vm_compute. reflexivity.
  - apply height_leb_sound. vm_compute. reflexivity.
  - apply up_leb_sound. vm_compute. reflexivity.
  - lia.
  - lia.
  - exists w', rt. split; [exact E|]. split.
    + assert (C : is_root_class (cls (nodes demo_tree 2%nat)) = false)
        by (vm_compute; reflexivity).
      rewrite C in R. exact R.
    + apply A. discriminate.
Defined.

(** X18.  What [add] refuses.  Asked to add the element to itself, a node
    that already has it as parent (so: the same child a second time), or
    a node whose depth has reached the element's [depth_max], a plain
    element returns at once and changes nothing.  A [UIRoot] changes
    nothing else either, but still makes itself the parent of that node,
    although its children do not list it: added to itself, the root
    becomes its own parent. *)
Theorem add_refuses (fuel : nat) (self child : oid) (w : World) :
  child = self \/ parent (nodes w child) = Some self \/
  depth_max (nodes w self) <= depth (nodes w child) ->
  add fuel self child w
  = Ok (if is_root_class (cls (nodes w self))
        then upd child (with_parent (Some self)) w else w) tt.
Proof.
  intros H.
  assert (E : UIElement_add fuel self child w = Ok w tt).
  { unfold UIElement_add.
    destruct (Nat.eqb_spec child self) as [He|He]; [reflexivity|].
    destruct H as [H|[H|H]]; [contradiction| |].
    - rewrite H. simpl. rewrite Nat.eqb_refl. reflexivity.
    - destruct (same_obj (parent (nodes w child)) self); [reflexivity|].
      simpl. apply Z.ltb_ge in H. rewrite H. reflexivity. }
  unfold add, UIRoot_add.
  destruct (is_root_class (cls (nodes w self))); [|exact E].
  erewrite bind_ok by exact E. reflexivity.
Qed.

Lemma add_refuses_witness :
  add 5 0%nat 0%nat demo_tree
  = Ok (upd 0%nat (with_parent (Some 0%nat)) demo_tree) tt.
Proof.
  assert (C : is_root_class (cls (nodes demo_tree 0%nat)) = true)
    by (vm_compute; reflexivity).
  pose proof (@add_refuses 5 0%nat 0%nat demo_tree (or_introl eq_refl)) as H.
  rewrite C in H. exact H.
Defined.

(** * Broadcasts that write the stores *)

Section StoreBroadcast.

(** A message whose handling writes the store of the handling node and
    nothing else; [R] relates the store before to the store after, and
    handling twice is within [R] again. *)
Variable f : nat.
Variable msg : Packet.
Variable R : Dict -> Dict -> Prop.
Hypothesis R_trans : forall d0 d1 d2, R d0 d1 -> R d1 d2 -> R d0 d2.
Hypothesis handled : forall h w,
  exists w1,
    handle_message (S f) h msg w = Ok w1 tt /\
    bus w1 = bus w /\ stdout w1 = stdout w /\
    (forall o, with_store [] (nodes w1 o) = with_store [] (nodes w o)) /\
    (forall o, if Nat.eqb h o && live msg w o
               then R (store (nodes w o)) (store (nodes w1 o))
               else store (nodes w1 o) = store (nodes w o)).

Lemma live_frame w w' o :
  (forall o, with_store [] (nodes w' o) = with_store [] (nodes w o)) ->
  live msg w' o = live msg w o.
Proof.
  intros F. unfold live.
  assert (D : disposed (nodes w' o) = disposed (nodes w o))
    by exact (f_equal disposed (F o)).
  assert (A : address (nodes w' o) = address (nodes w o))
    by exact (f_equal address (F o)).
  rewrite D, A. reflexivity.
Qed.

Lemma store_broadcast_loop : forall items w processed,
  exists w' n,
    pump_broadcast (handle_message (S f)) items msg processed w = Ok w' n /\
    bus w' = bus w /\ stdout w' = stdout w /\
    (forall o, with_store [] (nodes w' o) = with_store [] (nodes w o)) /\
    (forall o, if among o items && live msg w o
               then R (store (nodes w o)) (store (nodes w' o))
               else store (nodes w' o) = store (nodes w o)).
Proof.
  induction items as [|[addr [h|]] items IH]; intros w processed.
  - exists w, processed. repeat split; auto.
  - destruct (handled h w) as (w1 & E1 & B1 & O1 & F1 & S1).
    destruct (IH w1 (processed + 1)) as (w' & n & E & B & O & F & S).
    exists w', n. split; [|split; [|split; [|split]]].
    + cbn [pump_broadcast]. unfold bind at 1, _call_handler. rewrite E1.
      exact E.
    + congruence.
    + congruence.
    + intros o. rewrite F. apply F1.
    + intros o. specialize (S o). specialize (S1 o).
      rewrite (@live_frame w w1 o F1) in S.
      unfold among in *. cbn [existsb snd].
      match goal with
      | |- context [existsb ?g items] =>
          destruct (existsb g items), (Nat.eqb h o), (live msg w o)
      end; cbn [orb andb] in *;
        try (rewrite S1 in S; exact S);
        try (rewrite S; exact S1);
        try (eapply R_trans; eassumption).
  - destruct (IH w processed) as (w' & n & E & B & O & F & S).
    exists w', n. repeat split; auto.
Qed.

Lemma store_broadcast_pump w :
  _queue (bus w) = [msg] -> receiver msg = BROADCAST ->
  exists w' n,
    bus_pump (S f) w = Ok w' n /\
    _queue (bus w') = [] /\
    _handler_cache (bus w') = _handler_cache (bus w) /\
    _elements (bus w') = _elements (bus w) /\
    stdout w' = stdout w /\
    (forall o, with_store [] (nodes w' o) = with_store [] (nodes w o)) /\
    (forall o, if heeds o msg w
               then R (store (nodes w o)) (store (nodes w' o))
               else store (nodes w' o) = store (nodes w o)).
Proof.
  intros Hq Hr.
  set (w0 := upd_bus (with_queue []) w).
  destruct (store_broadcast_loop (_handler_cache (bus w0)) w0 0)
    as (w1 & n & E & B & O & F & S).
  set (w2 := upd_bus (fun b => with_processed (_processed b + n) b) w1).
  exists (if _cleanup_count (bus w2) <=? _processed (bus w2)
          then upd_bus (with_processed 0) (_cleanup w2) else w2), n.
  split.
  { unfold bus_pump, pump. rewrite Hq. fold w0.
    unfold bind at 1. cbn [pump_messages]. rewrite Hr, Z.eqb_refl.
    unfold bind at 1. rewrite E. reflexivity. }
  rewrite cleanup_nothing.
  destruct (_cleanup_count (bus w2) <=? _processed (bus w2));
    unfold w2; simpl; rewrite B; unfold w0; simpl;
    (split; [reflexivity|]); (split; [reflexivity|]);
    (split; [reflexivity|]); (split; [exact O|]);
    (split; [exact F|exact S]).
Qed.

End StoreBroadcast.

Lemma asset_handled f h msg other w :
  rs msg = R_FONT \/ rs msg = R_VIS ->
  data msg = VDict other ->
  NoDup (map fst other) ->
  exists w1,
    handle_message (S f) h msg w = Ok w1 tt /\
    bus w1 = bus w /\ stdout w1 = stdout w /\
    (forall o, with_store [] (nodes w1 o) = with_store [] (nodes w o)) /\
    (forall o, if Nat.eqb h o && live msg w o
               then (fun d0 d => forall k,
                       dict_get String.eqb k d
                       = match dict_get String.eqb k other with
                         | Some v => Some v
                         | None => dict_get String.eqb k d0
                         end) (store (nodes w o)) (store (nodes w1 o))
               else store (nodes w1 o) = store (nodes w o)).
Proof.
  intros Hrs Hd Hnd. cbn [handle_message]. unfold handle_message_body, live.
  destruct (disposed (nodes w h)) eqn:Hdis; cbn [orb].
  { exists w. repeat split; auto. intros o.
    destruct (Nat.eqb_spec h o) as [<-|]; [rewrite Hdis|]; reflexivity. }
  destruct (sender msg =? address (nodes w h)) eqn:Hs.
  { exists w. repeat split; auto. intros o.
    destruct (Nat.eqb_spec h o) as [<-|]; [rewrite Hdis, Hs|]; reflexivity. }
  exists (upd h (with_store
            (dict_merge String.eqb (store (nodes w h)) other)) w).
  split; [|split; [|split; [|split]]].
  - rewrite Hd. destruct Hrs as [-> | ->]; reflexivity.
  - reflexivity.
  - reflexivity.
  - intros o. simpl. destruct (Nat.eqb o h); reflexivity.
  - intros o. simpl. rewrite (Nat.eqb_sym h o).
    destruct (Nat.eqb_spec o h) as [->|]; [|reflexivity].
    rewrite Hdis, Hs. simpl. intros k. apply store_get_merge. exact Hnd.
Qed.

(** X19.  A font or palette broadcast reaches every listener.  When the
    only waiting message is a broadcast of [R_FONT] or [R_VIS] with a
    dictionary attached, [pump] returns with an empty queue; every node
    that is a handler of the bus, is not disposed and is not the sender
    then reads each key of the attachment as in the attachment and every
    other key as before; the store of every other node, every other slot
    of every node, and the output are as before. *)
Theorem asset_broadcast_reaches_every_listener
    (f : nat) (msg : Packet) (other : Dict) (w : World) :
  _queue (bus w) = [msg] ->
  receiver msg = BROADCAST ->
  rs msg = R_FONT \/ rs msg = R_VIS ->
  data msg = VDict other ->
  NoDup (map fst other) ->
  exists w' n,
    bus_pump (S f) w = Ok w' n /\
    _queue (bus w') = [] /\
    stdout w' = stdout w /\
    (forall o, with_store [] (nodes w' o) = with_store [] (nodes w o)) /\
    (forall o k,
       dict_get String.eqb k (store (nodes w' o))
       = if heeds o msg w then
           match dict_get String.eqb k other with
           | Some v => Some v
           | None => dict_get String.eqb k (store (nodes w o))
           end
         else dict_get String.eqb k (store (nodes w o))).
Proof.
  intros Hq Hr Hrs Hd Hnd.
  destruct (@store_broadcast_pump f msg
              (fun d0 d => forall k,
                 dict_get String.eqb k d
                 = match dict_get String.eqb k other with
                   | Some v => Some v
                   | None => dict_get String.eqb k d0
                   end)) with (w := w)
    as (w' & n & E & Q & _ & _ & O & F & S).
  - intros d0 d1 d2 H1 H2 k. rewrite H2, H1.
    destruct (dict_get String.eqb k other); reflexivity.
  - intros h w0. apply asset_handled; assumption.
  - exact Hq.
  - exact Hr.
  - exists w', n. repeat split; auto.
    intros o k. specialize (S o). destruct (heeds o msg w).
    + apply S.
    + rewrite S. reflexivity.
Qed.

Lemma clear_handled f h msg w :
  rs msg = R_CLEAR ->
  exists w1,
    handle_message (S f) h msg w = Ok w1 tt /\
    bus w1 = bus w /\ stdout w1 = stdout w /\
    (forall o, with_store [] (nodes w1 o) = with_store [] (nodes w o)) /\
    (forall o, if Nat.eqb h o && live msg w o
               then (fun _ d : Dict => d = []) (store (nodes w o))
                      (store (nodes w1 o))
               else store (nodes w1 o) = store (nodes w o)).
Proof.
  intros Hrs. cbn [handle_message]. unfold handle_message_body, live.
  destruct (disposed (nodes w h)) eqn:Hdis; cbn [orb].
  { exists w. repeat split; auto. intros o.
    destruct (Nat.eqb_spec h o) as [<-|]; [rewrite Hdis|]; reflexivity. }
  destruct (sender msg =? address (nodes w h)) eqn:Hs.
  { exists w. repeat split; auto. intros o.
    destruct (Nat.eqb_spec h o) as [<-|]; [rewrite Hdis, Hs|]; reflexivity. }
  exists (upd h (with_store []) w).
  split; [|split; [|split; [|split]]].
  - rewrite Hrs. destruct f; reflexivity.
  - reflexivity.
  - reflexivity.
  - intros o. simpl. destruct (Nat.eqb o h); reflexivity.
  - intros o. simpl. rewrite (Nat.eqb_sym h o).
    destruct (Nat.eqb_spec o h) as [->|]; [|reflexivity].
    rewrite Hdis, Hs. reflexivity.
Qed.

(** X20.  An [R_CLEAR] broadcast empties the store of every listener.
    When it is the only waiting message, [pump] returns with an empty
    queue; every node that is a handler of the bus, is not disposed and is
    not the sender then has an empty store; the store of every other node
    (the sender's, a disposed one's, an unregistered child's), every
    other slot of every node, and the output are as before. *)
Theorem clear_broadcast_empties_the_stores
    (f : nat) (msg : Packet) (w : World) :
  _queue (bus w) = [msg] ->
  receiver msg = BROADCAST ->
  rs msg = R_CLEAR ->
  exists w' n,
    bus_pump (S f) w = Ok w' n /\
    _queue (bus w') = [] /\
    stdout w' = stdout w /\
    (forall o, with_store [] (nodes w' o) = with_store [] (nodes w o)) /\
    (forall o, store (nodes w' o)
               = if heeds o msg w then [] else store (nodes w o)).
Proof.
  intros Hq Hr Hrs.
  destruct (@store_broadcast_pump f msg (fun _ d : Dict => d = []))
    with (w := w) as (w' & n & E & Q & _ & _ & O & F & S).
  - intros d0 d1 d2 _ H2. exact H2.
  - intros h w0. apply clear_handled. exact Hrs.
  - exact Hq.
  - exact Hr.
  - exists w', n. repeat split; auto.
    intros o. specialize (S o). destruct (heeds o msg w); exact S.
Qed.

Lemma palette_keys_unique : NoDup (map fst palette).
Proof.
  unfold palette. simpl.
  repeat (constructor;
          [simpl; intros H;
           repeat (destruct H as [H|H]; [discriminate H|]); exact H|]).
  constructor.
Qed.

Lemma asset_broadcast_reaches_every_listener_witness :
  exists w' n,
    bus_pump 5 palette_pending = Ok w' n /\
    dict_get String.eqb "title.text" (store (nodes w' 3%nat))
      = Some (AInts [255; 255; 255]).
Proof.
  destruct (@asset_broadcast_reaches_every_listener 4
              (mkPacket BROADCAST 2 R_VIS (VDict palette)) palette
              palette_pending)
    as (w' & n & E & _ & _ & _ & S).
  - vm_compute. reflexivity.
  - reflexivity.
  - right. reflexivity.
  - reflexivity.
  - exact palette_keys_unique.
  - exists w', n. split; [exact E|]. rewrite S.
    assert (Hh : heeds 3%nat (mkPacket BROADCAST 2 R_VIS (VDict palette))
                   palette_pending = true) by (vm_compute; reflexivity).
    rewrite Hh. reflexivity.
Defined.

Lemma clear_broadcast_empties_the_stores_witness :
  exists w' n,
    bus_pump 5 clear_pending = Ok w' n /\ store (nodes w' 1%nat) = [].
Proof.
  destruct (@clear_broadcast_empties_the_stores 4
              (mkPacket BROADCAST 1 R_CLEAR (VAtom ANone)) clear_pending)
    as (w' & n & E & _ & _ & _ & S).
  - vm_compute. reflexivity.
  - reflexivity.
  - reflexivity.
  - exists w', n. split; [exact E|]. rewrite S.
    assert (Hh : heeds 1%nat (mkPacket BROADCAST 1 R_CLEAR (VAtom ANone))
                   clear_pending = true) by (vm_compute; reflexivity).
    rewrite Hh. reflexivity.
Defined.

(** * What [remove] leaves behind *)

Lemma paths_nonneg k : forall w n m, 0 <= paths k w n m.
Proof.
  induction k as [|k IH]; intros w n m; simpl;
    destruct (Nat.eqb n m); try lia.
  - assert (0 <= fold_right (fun c acc => paths k w c m + acc) 0
                    (children (nodes w n))); [|lia].
    induction (children (nodes w n)) as [|c l IHl]; simpl; [lia|].
    specialize (IH w c m). lia.
  - assert (0 <= fold_right (fun c acc => paths k w c m + acc) 0
                    (children (nodes w n))); [|lia].
    induction (children (nodes w n)) as [|c l IHl]; simpl; [lia|].
    specialize (IH w c m). lia.
Qed.

Lemma paths_reached w n m :
  reach w n m -> forall k, height_le k w n -> 1 <= paths k w n m.
Proof.
  induction 1 as [n|n c m Hc _ IH]; intros k Hh.
  - pose proof (paths_nonneg k w n n) as P.
    rewrite (@paths_self k w n Hh). lia.
  - destruct k as [|k]; simpl in Hh.
    { rewrite Hh in Hc. destruct Hc. }
    specialize (IH k (Hh c Hc)). simpl.
    assert (S : paths k w c m
                <= fold_right (fun c acc => paths k w c m + acc) 0
                     (children (nodes w n))).
    { clear Hh. induction (children (nodes w n)) as [|c' l IHl]; simpl;
        [destruct Hc|].
      destruct Hc as [->|Hc].
      - assert (0 <= fold_right (fun c acc => paths k w c m + acc) 0 l);
          [|lia].
        clear. induction l as [|x l IHl]; simpl; [lia|].
        pose proof (paths_nonneg k w x m). lia.
      - specialize (IHl Hc). pose proof (paths_nonneg k w c' m). lia. }
    destruct (Nat.eqb n m); lia.
Qed.

(** In a bounded branch, no way down means not below. *)
Lemma paths_none k w n m :
  height_le k w n -> paths k w n m = 0 -> ~ reach w n m.
Proof.
  intros Hh Hp Hr. pose proof (@paths_reached w n m Hr k Hh). lia.
Qed.

(** X21.  [remove] does not reset the node it detaches.  When the removed
    node is no longer below its former parent, its cached root and its
    cached absolute rect survive the call: [root()] on the removed node
    still answers the root of the tree it has left (so its [post] still
    goes to that bus), and its absolute rect is still the one computed
    under the former parent. *)
Theorem removed_child_keeps_its_memo
    (H fuel fuel' : nat) (p child r : oid) (w : World) :
  bounded H w -> (H <= fuel)%nat ->
  ~ reach (unlinked p child w) p child ->
  is_root_class (cls (nodes w child)) = false ->
  cache (nodes w child) = Some r ->
  exists w',
    remove fuel p child w = Ok w' tt /\
    root fuel' child w' = Ok w' r /\
    cache_r (nodes w' child) = cache_r (nodes w child).
Proof.
  intros Hb Hf Hn Hcls Hc. unfold remove.
  destruct (is_in child (children (nodes w p))).
  - set (w2 := unlinked p child w) in *.
    assert (S12 : shrinks w w2).
    { eapply shrinks_trans; apply shrinks_upd; auto; intros n;
        [apply incl_list_remove | apply incl_refl]. }
    destruct (@bounded_shrinks H w w2 S12 Hb p) as [Hh _].
    destruct (@reset_spec H fuel p w2 Hh Hf) as (w3 & E3 & _ & _ & U3).
    assert (N2 : with_parent None (with_children [] (nodes w2 child))
                 = with_parent None (with_children [] (nodes w child))).
    { unfold w2, unlinked. simpl. rewrite Nat.eqb_refl.
      destruct (Nat.eqb child p); reflexivity. }
    assert (C2 : cache (nodes w2 child) = cache (nodes w child))
      by exact (f_equal cache N2).
    assert (R2 : cache_r (nodes w2 child) = cache_r (nodes w child))
      by exact (f_equal cache_r N2).
    assert (K2 : cls (nodes w2 child) = cls (nodes w child))
      by exact (f_equal cls N2).
    exists w3. split; [|split].
    + unfold bind at 1, modify at 1. unfold bind at 1, modify at 1.
      exact E3.
    + unfold root, UIElement_root.
      rewrite (U3 child Hn), K2, Hcls, C2, Hc. reflexivity.
    + rewrite (U3 child Hn). exact R2.
  - exists w. split; [reflexivity|]. split; [|reflexivity].
    unfold root, UIElement_root. rewrite Hcls, Hc. reflexivity.
Qed.

Lemma removed_child_keeps_its_memo_witness :
  exists w',
    remove 5 0%nat 1%nat demo_tree = Ok w' tt /\
    root 5 1%nat w' = Ok w' 0%nat.
Proof.
  destruct (@removed_child_keeps_its_memo 2 5 5 0%nat 1%nat 0%nat demo_tree)
    as (w' & E & R & _).
  - exact demo_tree_bounded.
  - lia.
  - apply (@paths_none 2).
    + apply height_leb_sound. vm_compute. reflexivity.
    + vm_compute. reflexivity.
  - vm_compute. reflexivity.
  - vm_compute. reflexivity.
  - exists w'. split; assumption.
Defined.

(** * The shutdown: [UIRoot.destroy] *)

Section RootBroadcast.

(** A priority broadcast posted in [wS], whose handling by any handler of
    the bus returns and keeps the bus settled; [K] is what the handlers
    keep of the world, [Post h] what handler [h] has achieved once it has
    run. *)
Variable f : nat.
Variable msg : Packet.
Variable wS : World.
Variable K : World -> Prop.
Variable Post : oid -> World -> Prop.
Hypothesis K_ext : forall w w',
  nodes w' = nodes w ->
  _handler_cache (bus w') = _handler_cache (bus w) -> K w -> K w'.
Hypothesis Post_later : forall h w w', later w w' -> Post h w -> Post h w'.
Hypothesis handled : forall h w,
  later wS w -> settled w -> K w ->
  among h (_handler_cache (bus wS)) = true ->
  exists w1,
    handle_message (S f) h msg w = Ok w1 tt /\
    later w w1 /\ settled w1 /\ K w1 /\ Post h w1.

Lemma broadcast_returns : forall items w processed,
  (forall h, among h items = true ->
             among h (_handler_cache (bus wS)) = true) ->
  later wS w -> settled w -> K w ->
  exists w' n,
    pump_broadcast (handle_message (S f)) items msg processed w = Ok w' n /\
    later w w' /\ settled w' /\ K w' /\
    (forall h, among h items = true -> Post h w').
Proof.
  induction items as [|[addr [h|]] items IH]; intros w processed Hsub L Q Kw.
  - exists w, processed. split; [reflexivity|]. split; [apply later_refl|].
    split; [exact Q|]. split; [exact Kw|]. intros h Hh. discriminate Hh.
  - destruct (@handled h w L Q Kw) as (w1 & E1 & L1 & Q1 & K1 & P1).
    { apply Hsub. unfold among. cbn [existsb snd]. rewrite Nat.eqb_refl.
      reflexivity. }
    destruct (IH w1 (processed + 1)) as (w' & n & E & L' & Q' & K' & P').
    { intros h' Hh'. apply Hsub. unfold among in *. cbn [existsb snd].
      rewrite Hh'. apply orb_true_r. }
    { eapply later_trans; eassumption. }
    { exact Q1. }
    { exact K1. }
    exists w', n. split; [|split; [|split; [|split]]].
    + cbn [pump_broadcast]. unfold bind at 1, _call_handler. rewrite E1.
      exact E.
    + eapply later_trans; eassumption.
    + exact Q'.
    + exact K'.
    + intros h' Hh'. unfold among in Hh'. cbn [existsb snd] in Hh'.
      apply orb_true_iff in Hh'. destruct Hh' as [Hh'|Hh'].
      * apply Nat.eqb_eq in Hh'. subst h'. eapply Post_later; eassumption.
      * apply P'. exact Hh'.
  - destruct (IH w processed Hsub L Q Kw) as (w' & n & E & L' & Q' & K' & P').
    exists w', n. split; [exact E|]. auto.
Qed.

Lemma root_post_returns fuel' self resp att :
  msg = mkPacket BROADCAST (address (nodes wS self)) resp att ->
  is_root_class (cls (nodes wS self)) = true ->
  has_bus (nodes wS self) = true ->
  settled wS -> K wS ->
  exists w',
    post (handle_message (S f)) fuel' self BROADCAST resp att true wS
      = Ok w' tt /\
    later wS w' /\ settled w' /\ K w' /\
    (forall h, among h (_handler_cache (bus wS)) = true -> Post h w').
Proof.
  intros Hmsg Hcls Hbus Q Kw.
  set (w1 := bus_post msg wS).
  set (w2 := upd_bus (with_queue []) w1).
  assert (L1 : later wS w1) by apply later_bus_post.
  assert (Q1 : _queue (bus w1) = [msg]).
  { unfold w1. rewrite bus_post_queue. unfold settled in Q. rewrite Q.
    reflexivity. }
  assert (C1 : _handler_cache (bus w1) = _handler_cache (bus wS)).
  { unfold w1, bus_post, _write_debug.
    destruct (receiver msg =? BROADCAST); reflexivity. }
  assert (N1 : nodes w1 = nodes wS).
  { unfold w1, bus_post, _write_debug.
    destruct (receiver msg =? BROADCAST); reflexivity. }
  assert (L2 : later wS w2).
  { eapply later_trans; [exact L1|]. apply later_bus. reflexivity. }
  destruct (@broadcast_returns (_handler_cache (bus w2)) w2 0)
    as (w3 & n & E3 & L3 & Q3 & K3 & P3).
  { intros h Hh. unfold w2 in Hh. simpl in Hh. rewrite C1 in Hh. exact Hh. }
  { exact L2. }
  { reflexivity. }
  { apply (@K_ext wS w2); [exact N1 | exact C1 | exact Kw]. }
  set (w4 := upd_bus (fun b => with_processed (_processed b + n) b) w3).
  set (w5 := if _cleanup_count (bus w4) <=? _processed (bus w4)
             then upd_bus (with_processed 0) (_cleanup w4) else w4).
  assert (L5 : later w3 w5 /\ settled w5 /\ nodes w5 = nodes w3 /\
               _handler_cache (bus w5) = _handler_cache (bus w3)).
  { unfold w5. rewrite cleanup_nothing.
    destruct (_cleanup_count (bus w4) <=? _processed (bus w4)).
    - split; [|split; [|split]]; try reflexivity.
      + eapply later_trans; apply later_bus; reflexivity.
      + exact Q3.
    - split; [|split; [|split]]; try reflexivity.
      + apply later_bus. reflexivity.
      + exact Q3. }
  destruct L5 as (L5 & Q5 & N5 & C5).
  exists w5. split; [|split; [|split; [|split]]].
  - unfold post. unfold bind at 1. unfold root at 1. rewrite Hcls.
    cbv beta. unfold connected. rewrite Hbus.
    rewrite <- Hmsg. unfold bind at 1, modify at 1. fold w1.
    unfold bind at 1, pump. rewrite Q1. fold w2.
    unfold bind at 1. cbn [pump_messages].
    assert (Hr : (receiver msg =? BROADCAST) = true)
      by (rewrite Hmsg; reflexivity).
    rewrite Hr. unfold bind at 1. rewrite E3. reflexivity.
  - eapply later_trans; [exact L2|]. eapply later_trans; eassumption.
  - exact Q5.
  - apply (@K_ext w3 w5); assumption.
  - intros h Hh. apply (@Post_later h w3 w5 L5). apply P3.
    unfold w2. simpl. rewrite C1. exact Hh.
Qed.

End RootBroadcast.

Lemma frame_later w w' :
  bus w' = bus w ->
  (forall o, with_store [] (nodes w' o) = with_store [] (nodes w o)) ->
  later w w'.
Proof.
  intros B F. split.
  - intros o.
    assert (E1 : cls (nodes w' o) = cls (nodes w o))
      by exact (f_equal cls (F o)).
    assert (E2 : address (nodes w' o) = address (nodes w o))
      by exact (f_equal address (F o)).
    assert (E3 : has_bus (nodes w' o) = has_bus (nodes w o))
      by exact (f_equal has_bus (F o)).
    assert (E4 : children (nodes w' o) = children (nodes w o))
      by exact (f_equal children (F o)).
    assert (E5 : parent (nodes w' o) = parent (nodes w o))
      by exact (f_equal parent (F o)).
    assert (E6 : disposed (nodes w' o) = disposed (nodes w o))
      by exact (f_equal disposed (F o)).
    rewrite E1, E2, E3, E4, E5, E6. repeat split; auto. apply incl_refl.
  - apply cache_shrinks_same. rewrite B. reflexivity.
Qed.

Lemma plain_below_kept w w' n :
  shrinks w w' -> plain_below w n -> plain_below w' n.
Proof.
  intros Hs Hp m Hr. destruct (Hs m) as (C & _). rewrite C. apply Hp.
  eapply reach_shrinks; eassumption.
Qed.

(** X22.  [UIRoot.destroy] shuts the tree down.  On a bounded tree with
    no message waiting, where the elements on the bus other than the root
    are plain elements, the call returns with the three broadcasts
    delivered: every element that was on the bus, the root itself apart,
    is disposed; no message is left waiting; [running] is off. *)
Theorem root_destroy_shuts_down (H f : nat) (self : oid) (w : World) :
  is_root_class (cls (nodes w self)) = true ->
  has_bus (nodes w self) = true ->
  bounded H w -> settled w ->
  (forall h, among h (_handler_cache (bus w)) = true ->
             address (nodes w h) <> address (nodes w self) ->
             plain_below w h) ->
  (H + H + 3 <= f)%nat ->
  exists w',
    destroy (S (S f)) self w = Ok w' tt /\
    running (nodes w' self) = false /\
    settled w' /\
    (forall h, among h (_handler_cache (bus w)) = true ->
               address (nodes w h) <> address (nodes w self) ->
               disposed (nodes w' h) = true).
Proof.
  intros Hcls Hbus Hb Q Hplain Hf.
  (* R_CLEAR *)
  set (m1 := mkPacket BROADCAST (address (nodes w self)) R_CLEAR (VAtom ANone)).
  set (K1 := fun w1 : World => _handler_cache (bus w1) = _handler_cache (bus w)).
  set (P1 := fun (_ : oid) (_ : World) => True).
  assert (KE1 : forall wa wb, nodes wb = nodes wa ->
            _handler_cache (bus wb) = _handler_cache (bus wa) ->
            K1 wa -> K1 wb).
  { unfold K1. intros wa wb _ C Ka. rewrite C. exact Ka. }
  assert (PL1 : forall h wa wb, later wa wb -> P1 h wa -> P1 h wb)
    by (intros; exact I).
  assert (HD1 : forall h wa, later w wa -> settled wa -> K1 wa ->
            among h (_handler_cache (bus w)) = true ->
            exists wb, handle_message (S f) h m1 wa = Ok wb tt /\
              later wa wb /\ settled wb /\ K1 wb /\ P1 h wb).
  { intros h wa _ Qa Ka _.
    destruct (@clear_handled f h m1 wa eq_refl) as (wb & Eb & Bb & _ & Fb & _).
    exists wb. split; [exact Eb|]. split; [apply frame_later; assumption|].
    split; [unfold settled; rewrite Bb; exact Qa|].
    split; [unfold K1; rewrite Bb; exact Ka | exact I]. }
  destruct (@root_post_returns f m1 w K1 P1 KE1 PL1 HD1 (S f) self R_CLEAR
              (VAtom ANone) eq_refl Hcls Hbus Q eq_refl)
    as (w1 & E1 & L1 & Q1 & C1 & _).
  unfold K1 in C1. clear KE1 PL1 HD1.
  (* R_RESET *)
  assert (A1 : address (nodes w1 self) = address (nodes w self))
    by (destruct L1 as [S1 _]; apply S1).
  assert (Cl1 : is_root_class (cls (nodes w1 self)) = true).
  { destruct L1 as [S1 _]. destruct (S1 self) as (Cc & _). rewrite Cc.
    exact Hcls. }
  assert (Hb1 : has_bus (nodes w1 self) = true).
  { destruct L1 as [S1 _]. destruct (S1 self) as (_ & _ & Cb & _).
    rewrite Cb. exact Hbus. }
  set (m2 := mkPacket BROADCAST (address (nodes w1 self)) R_RESET (VAtom ANone)).
  set (K2 := fun w2 : World => _handler_cache (bus w2) = _handler_cache (bus w1)).
  assert (KE2 : forall wa wb, nodes wb = nodes wa ->
            _handler_cache (bus wb) = _handler_cache (bus wa) ->
            K2 wa -> K2 wb).
  { unfold K2. intros wa wb _ C Ka. rewrite C. exact Ka. }
  assert (PL2 : forall h wa wb, later wa wb -> P1 h wa -> P1 h wb)
    by (intros; exact I).
  assert (HD2 : forall h wa, later w1 wa -> settled wa -> K2 wa ->
            among h (_handler_cache (bus w1)) = true ->
            exists wb, handle_message (S f) h m2 wa = Ok wb tt /\
              later wa wb /\ settled wb /\ K2 wb /\ P1 h wb).
  { intros h wa La Qa Ka _.
    assert (Hba : bounded H wa).
    { eapply bounded_shrinks; [apply La|].
      eapply bounded_shrinks; [apply L1 | exact Hb]. }
    cbn [handle_message]. unfold handle_message_body. unfold m2 at 1 2.
    cbn [rs sender].
    destruct (disposed (nodes wa h)
              || (address (nodes w1 self) =? address (nodes wa h))).
    - exists wa. split; [reflexivity|]. split; [apply later_refl|].
      split; [exact Qa|]. split; [exact Ka | exact I].
    - destruct (@reset_returns H f h wa (proj1 (Hba h)) ltac:(lia))
        as (wb & Eb & Ib).
      exists wb. split; [exact Eb|].
      pose proof (invalidates_shrinks Ib) as Sb.
      destruct Ib as (Bb & Ob & Nb).
      split.
      { split; [exact Sb|]. apply cache_shrinks_same. rewrite Bb.
        reflexivity. }
      split; [unfold settled; rewrite Bb; exact Qa|].
      split; [unfold K2; rewrite Bb; exact Ka | exact I]. }
  destruct (@root_post_returns f m2 w1 K2 P1 KE2 PL2 HD2 (S f) self R_RESET
              (VAtom ANone) eq_refl Cl1 Hb1 Q1 eq_refl)
    as (w2 & E2 & L2 & Q2 & C2' & _).
  unfold K2 in C2'. clear KE2 PL2 HD2.
  (* R_TERMINATE *)
  assert (L02 : later w w2) by (eapply later_trans; eassumption).
  assert (A2 : address (nodes w2 self) = address (nodes w self))
    by (destruct L02 as [S2 _]; apply S2).
  assert (Cl2 : is_root_class (cls (nodes w2 self)) = true).
  { destruct L02 as [S2 _]. destruct (S2 self) as (Cc & _). rewrite Cc.
    exact Hcls. }
  assert (Hb2 : has_bus (nodes w2 self) = true).
  { destruct L02 as [S2 _]. destruct (S2 self) as (_ & _ & Cb & _).
    rewrite Cb. exact Hbus. }
  assert (C2 : _handler_cache (bus w2) = _handler_cache (bus w))
    by congruence.
  set (m3 := mkPacket BROADCAST (address (nodes w2 self)) R_TERMINATE
               (VAtom ANone)).
  set (K3 := fun _ : World => True).
  set (P3 := fun (h : oid) (w3 : World) =>
               address (nodes w h) <> address (nodes w self) ->
               disposed (nodes w3 h) = true).
  assert (KE3 : forall wa wb, nodes wb = nodes wa ->
            _handler_cache (bus wb) = _handler_cache (bus wa) ->
            K3 wa -> K3 wb) by (intros; exact I).
  assert (PL3 : forall h wa wb, later wa wb -> P3 h wa -> P3 h wb).
  { unfold P3. intros h wa wb Lab Pa Hne.
    eapply later_disposed; [exact Lab|]. apply Pa, Hne. }
  assert (HD3 : forall h wa, later w2 wa -> settled wa -> K3 wa ->
            among h (_handler_cache (bus w2)) = true ->
            exists wb, handle_message (S f) h m3 wa = Ok wb tt /\
              later wa wb /\ settled wb /\ K3 wb /\ P3 h wb).
  { intros h wa La Qa _ Hh. rewrite C2 in Hh.
    assert (L0a : later w wa) by (eapply later_trans; eassumption).
    assert (Hba : bounded H wa)
      by (eapply bounded_shrinks; [apply L0a | exact Hb]).
    assert (Aa : address (nodes wa h) = address (nodes w h))
      by (destruct L0a as [Sa _]; apply Sa).
    cbn [handle_message]. unfold handle_message_body. unfold m3 at 1 2.
    cbn [rs sender]. rewrite A2, Aa. unfold P3.
    destruct (disposed (nodes wa h)) eqn:Hdis; cbn [orb].
    { exists wa. split; [reflexivity|]. split; [apply later_refl|].
      split; [exact Qa|]. split; [exact I|]. intros _. exact Hdis. }
    destruct (Z.eqb_spec (address (nodes w self)) (address (nodes w h)))
      as [Es|Ns].
    { exists wa. split; [reflexivity|]. split; [apply later_refl|].
      split; [exact Qa|]. split; [exact I|]. intros Hne. congruence. }
    assert (Hpa : plain_below wa h).
    { apply plain_below_kept with w; [apply L0a|]. apply Hplain; auto. }
    destruct f as [|f1]; [lia|].
    destruct (@destroy_returns H H (S f1) h wa Hba Qa Hpa (proj1 (Hba h))
                ltac:(lia)) as (wb & Eb & Qb & Lb).
    exists wb. split; [exact Eb|]. split; [exact Lb|]. split; [exact Qb|].
    split; [exact I|]. intros _.
    apply (@destroy_final f1 h wa wb); auto.
    apply Hpa. constructor. }
  destruct (@root_post_returns f m3 w2 K3 P3 KE3 PL3 HD3 (S f) self R_TERMINATE
              (VAtom ANone) eq_refl Cl2 Hb2 Q2 I)
    as (w3 & E3 & L3 & Q3 & _ & R3).
  unfold P3 in R3. clear KE3 PL3 HD3.
  exists (upd self (with_running false) w3).
  split; [|split; [|split]].
  - cbn [destroy]. unfold destroy_body. rewrite Hcls. unfold UIRoot_destroy.
    erewrite bind_ok by exact E1.
    erewrite bind_ok by exact E2.
    erewrite bind_ok by exact E3.
    reflexivity.
  - simpl. rewrite Nat.eqb_refl. reflexivity.
  - exact Q3.
  - intros h Hh Hne. simpl. rewrite <- C2 in Hh.
    specialize (R3 h Hh Hne).
    destruct (Nat.eqb h self); [|exact R3]. simpl. exact R3.
Qed.

Lemma root_destroy_shuts_down_witness :
  exists w',
    destroy 9 0%nat demo_tree = Ok w' tt /\
    running (nodes w' 0%nat) = false /\
    disposed (nodes w' 3%nat) = true.
Proof.
  destruct (@root_destroy_shuts_down 2 7 0%nat demo_tree)
    as (w' & E & R & _ & D).
  - vm_compute. reflexivity.
  - vm_compute. reflexivity.
  - exact demo_tree_bounded.
  - vm_compute. reflexivity.
  - intros h Hh Hne.
    destruct h as [|[|[|[|h]]]].
    + exfalso. apply Hne. reflexivity.
    + apply plain_belowb_sound with 1%nat;
        [apply height_leb_sound|]; vm_compute; reflexivity.
    + apply plain_belowb_sound with 1%nat;
        [apply height_leb_sound|]; vm_compute; reflexivity.
    + apply plain_belowb_sound with 1%nat;
        [apply height_leb_sound|]; vm_compute; reflexivity.
    + vm_compute in Hh. discriminate Hh.
  - lia.
  - exists w'. split; [exact E|]. split; [exact R|]. apply D.
    + vm_compute. reflexivity.
    + vm_compute. discriminate.
Defined.

(** * Messages that reach nobody *)

(** X23.  A unicast to an address without a handler is dropped in
    silence.  When every waiting message is a unicast whose receiver has
    no handler on the bus, [pump] returns 0 and empties the queue: no
    handler is called, nothing is printed, and no node and neither table
    of the bus changes. *)
Theorem unicast_without_handler_is_dropped (f : nat) (w : World) :
  Forall (unheard w) (_queue (bus w)) ->
  exists w',
    bus_pump f w = Ok w' 0 /\
    _queue (bus w') = [] /\
    nodes w' = nodes w /\ stdout w' = stdout w /\
    _handler_cache (bus w') = _handler_cache (bus w) /\
    _elements (bus w') = _elements (bus w) /\
    _next_addr (bus w') = _next_addr (bus w).
Proof.
  intros Hall. unfold bus_pump, pump.
  destruct (_queue (bus w)) as [|m0 ms] eqn:Hq.
  { exists w. repeat split; auto. }
  set (w0 := upd_bus (with_queue []) w).
  assert (Hloop : forall msgs,
            Forall (unheard w) msgs ->
            pump_messages (handle_message f) msgs 0 w0 = Ok w0 0).
  { induction msgs as [|m msgs IH]; intros Hm; [reflexivity|].
    inversion Hm as [|? ? [Hr Hc] Hm']; subst.
    cbn [pump_messages]. rewrite Hr.
    change (_handler_cache (bus w0)) with (_handler_cache (bus w)).
    destruct (dict_get Z.eqb (receiver m) (_handler_cache (bus w)))
      as [[h|]|]; [destruct Hc| |]; apply IH, Hm'. }
  set (w2 := upd_bus (fun b => with_processed (_processed b + 0) b) w0).
  exists (if _cleanup_count (bus w2) <=? _processed (bus w2)
          then upd_bus (with_processed 0) (_cleanup w2) else w2).
  split.
  { unfold bind at 1. rewrite (Hloop (m0 :: ms) Hall). reflexivity. }
  rewrite cleanup_nothing.
  destruct (_cleanup_count (bus w2) <=? _processed (bus w2));
    repeat split; reflexivity.
Qed.

Lemma unicast_without_handler_is_dropped_witness :
  exists w',
    bus_pump 5 lost_pending = Ok w' 0 /\ _queue (bus w') = [].
Proof.
  destruct (@unicast_without_handler_is_dropped 5 lost_pending)
    as (w' & E & Q & _).
  - assert (Hq : _queue (bus lost_pending)
                 = [mkPacket 99 2 R_GET (VAtom ANone)])
      by (vm_compute; reflexivity).
    rewrite Hq. constructor; [|constructor].
    split; [reflexivity|].
    assert (Hc : dict_get Z.eqb 99 (_handler_cache (bus lost_pending)) = None)
      by (vm_compute; reflexivity).
    cbn [receiver]. rewrite Hc. exact I.
  - exists w'. split; assumption.
Defined.

Lemma root_frame fuel self w w' rt :
  root fuel self w = Ok w' rt ->
  bus w' = bus w /\ stdout w' = stdout w /\
  forall o, with_cache None (nodes w' o) = with_cache None (nodes w o).
Proof.
  unfold root, UIElement_root.
  destruct (is_root_class (cls (nodes w self))).
  - intros E. inversion E; subst. auto.
  - destruct (cache (nodes w self)).
    + intros E. inversion E; subst. auto.
    + destruct (root_walk fuel self w); [|discriminate].
      intros E. inversion E; subst. repeat split; auto.
      intros o. simpl. destruct (Nat.eqb o self); reflexivity.
Qed.

(** [post] without priority, step by step. *)
Lemma post_plain_spec
    (fuel : nat) (self rt : oid) (recv : Z) (resp : Response)
    (att : PyVal) (w : World) :
  find_root fuel self w = Some rt ->
  exists w',
    element_post fuel self recv resp att false w = Ok w' tt /\
    (forall o, with_cache None (nodes w' o) = with_cache None (nodes w o)) /\
    if has_bus (nodes w rt) then
      _queue (bus w')
        = _queue (bus w) ++ [mkPacket recv (address (nodes w self)) resp att] /\
      _handler_cache (bus w') = _handler_cache (bus w) /\
      _elements (bus w') = _elements (bus w) /\
      stdout w'
        = stdout w ++ [if recv =? BROADCAST
                       then LBroadcast (address (nodes w self)) resp
                       else LMessage (address (nodes w self)) recv resp]
    else bus w' = bus w /\ stdout w' = stdout w.
Proof.
  intros Hr.
  destruct (@root_find fuel self w rt Hr) as (w1 & E1 & _).
  destruct (@root_frame fuel self w w1 rt E1) as (B1 & O1 & F1).
  assert (A1 : address (nodes w1 self) = address (nodes w self))
    by exact (f_equal address (F1 self)).
  assert (H1 : has_bus (nodes w1 rt) = has_bus (nodes w rt))
    by exact (f_equal has_bus (F1 rt)).
  unfold element_post, post. unfold bind at 1. rewrite E1.
  unfold connected. rewrite H1.
  destruct (has_bus (nodes w rt)).
  - eexists. split; [reflexivity|]. rewrite A1.
    unfold bus_post, _write_debug. cbn [receiver sender rs].
    destruct (recv =? BROADCAST); simpl; rewrite B1, O1;
      repeat split; auto.
  - exists w1. split; [reflexivity|]. auto.
Qed.

(** X24.  A plain [post] only enqueues.  When the element finds a root,
    [post] without priority returns.  If that root has a bus, exactly one
    packet joins the end of the queue, stamped with the sender's address,
    and one line is printed; nobody is called and the tables of the bus do
    not change.  If the root has no bus, the message is dropped and the
    bus and the output are as before.  In both cases the nodes change at
    most in the sender's cached root. *)
Theorem post_only_enqueues
    (fuel : nat) (self rt : oid) (recv : Z) (resp : Response)
    (att : PyVal) (w : World) :
  find_root fuel self w = Some rt ->
  exists w',
    element_post fuel self recv resp att false w = Ok w' tt /\
    (forall o, with_cache None (nodes w' o) = with_cache None (nodes w o)) /\
    if has_bus (nodes w rt) then
      _queue (bus w')
        = _queue (bus w) ++ [mkPacket recv (address (nodes w self)) resp att] /\
      _handler_cache (bus w') = _handler_cache (bus w) /\
      _elements (bus w') = _elements (bus w) /\
      stdout w'
        = stdout w ++ [if recv =? BROADCAST
                       then LBroadcast (address (nodes w self)) resp
                       else LMessage (address (nodes w self)) recv resp]
    else bus w' = bus w /\ stdout w' = stdout w.
Proof. apply post_plain_spec. Qed.

Lemma post_only_enqueues_witness :
  exists w',
    element_post 5 3%nat 7 R_GET (VAtom ANone) false demo_tree = Ok w' tt /\
    _queue (bus w') = [mkPacket 7 4 R_GET (VAtom ANone)].
Proof.
  destruct (@post_only_enqueues 5 3%nat 0%nat 7 R_GET (VAtom ANone) demo_tree)
    as (w' & E & _ & T).
  - vm_compute. reflexivity.
  - assert (Hb : has_bus (nodes demo_tree 0%nat) = true)
      by (vm_compute; reflexivity).
    rewrite Hb in T. destruct T as (Q & _).
    exists w'. split; [exact E|]. rewrite Q. vm_compute. reflexivity.
Defined.

(** * The palette *)

Lemma write_all_spec self : forall (l : Dict) (w : World),
  let w1 := fold_left (fun w' kv => write_local self (fst kv) (snd kv) w') l w in
  bus w1 = bus w /\ stdout w1 = stdout w /\
  (forall o, with_store [] (nodes w1 o) = with_store [] (nodes w o)) /\
  (forall o, store (nodes w1 o)
             = if Nat.eqb o self
               then dict_merge String.eqb (store (nodes w self)) l
               else store (nodes w o)).
Proof.
  induction l as [|[k v] l IH]; intros w; cbn zeta.
  - repeat split; auto. intros o.
    destruct (Nat.eqb_spec o self) as [->|]; reflexivity.
  - cbn [fold_left fst snd].
    destruct (IH (write_local self k v w)) as (B & O & F & S).
    cbn zeta in *. split; [|split; [|split]].
    + rewrite B. reflexivity.
    + rewrite O. reflexivity.
    + intros o. rewrite F. unfold write_local. simpl.
      destruct (Nat.eqb o self); reflexivity.
    + intros o. rewrite S. unfold write_local, dict_merge. simpl.
      rewrite Nat.eqb_refl. simpl.
      destruct (Nat.eqb o self); reflexivity.
Qed.

(** X25.  [UIVisuals.initialize] fills the store and announces it.  When
    the element finds a root, the call returns; the element then reads
    every name of the palette with the palette's colour and every other
    name as before, and no other store has changed.  If the root has a
    bus, one [R_VIS] broadcast from the element, carrying that store, has
    joined the end of the queue, undelivered; if not, the bus is as
    before. *)
Theorem initialize_announces_the_palette
    (fuel : nat) (self rt : oid) (w : World) :
  find_root fuel self w = Some rt ->
  exists w',
    UIVisuals_initialize fuel self w = Ok w' tt /\
    (forall k,
       dict_get String.eqb k (store (nodes w' self))
       = match dict_get String.eqb k palette with
         | Some v => Some v
         | None => dict_get String.eqb k (store (nodes w self))
         end) /\
    (forall o, store (nodes w' o)
               = if Nat.eqb o self then store (nodes w' self)
                 else store (nodes w o)) /\
    if has_bus (nodes w rt) then
      _queue (bus w')
        = _queue (bus w)
          ++ [mkPacket BROADCAST (address (nodes w self)) R_VIS
                (VDict (store (nodes w' self)))]
    else bus w' = bus w.
Proof.
  intros Hr.
  set (w1 := fold_left
               (fun w' kv => write_local self (fst kv) (snd kv) w') palette w).
  destruct (write_all_spec self palette w) as (B1 & O1 & F1 & S1).
  cbn zeta in *. fold w1 in B1, O1, F1, S1.
  assert (Hr1 : find_root fuel self w1 = Some rt).
  { rewrite <- Hr. unfold find_root.
    assert (P1 : forall o, parent (nodes w1 o) = parent (nodes w o))
      by (intros o; exact (f_equal parent (F1 o))).
    assert (C1 : cls (nodes w1 self) = cls (nodes w self))
      by exact (f_equal cls (F1 self)).
    assert (M1 : cache (nodes w1 self) = cache (nodes w self))
      by exact (f_equal cache (F1 self)).
    rewrite C1, M1, (@root_walk_same_parents w w1 P1 fuel self).
    reflexivity. }
  destruct (@post_plain_spec fuel self rt BROADCAST R_VIS
              (VDict (store (nodes w1 self))) w1 Hr1) as (w' & E & F & T).
  assert (S' : forall o, store (nodes w' o) = store (nodes w1 o))
    by (intros o; exact (f_equal store (F o))).
  assert (A1 : address (nodes w1 self) = address (nodes w self))
    by exact (f_equal address (F1 self)).
  assert (H1 : has_bus (nodes w1 rt) = has_bus (nodes w rt))
    by exact (f_equal has_bus (F1 rt)).
  exists w'. split; [|split; [|split]].
  - unfold UIVisuals_initialize. unfold bind at 1, modify at 1. fold w1.
    exact E.
  - intros k. rewrite S', S1, Nat.eqb_refl.
    apply store_get_merge, palette_keys_unique.
  - intros o. rewrite !S', (S1 o).
    destruct (Nat.eqb o self); [|reflexivity].
    rewrite S1, Nat.eqb_refl. reflexivity.
  - rewrite H1 in T. destruct (has_bus (nodes w rt)).
    + destruct T as (Q & _). rewrite Q, B1, A1, S'. reflexivity.
    + destruct T as (B & _). rewrite B. exact B1.
Qed.

Lemma initialize_announces_the_palette_witness :
  exists w',
    UIVisuals_initialize 5 1%nat demo_tree = Ok w' tt /\
    dict_get String.eqb "button.hover" (store (nodes w' 1%nat))
      = Some (AInts [220; 220; 205]).
Proof.
  destruct (@initialize_announces_the_palette 5 1%nat 0%nat demo_tree)
    as (w' & E & S & _).
  - vm_compute. reflexivity.
  - exists w'. split; [exact E|]. rewrite S. reflexivity.
Defined.

(** * The tear-down, step by step *)

Lemma list_remove_absent x : forall l, is_in x l = false -> list_remove x l = l.
Proof.
  unfold is_in. induction l as [|y l IH]; simpl; intros Hn; [reflexivity|].
  apply orb_false_iff in Hn. destruct Hn as [Hy Hl].
  rewrite Hy, (IH Hl). reflexivity.
Qed.

(** What a returning [remove] has done, field by field. *)
Lemma remove_strip H fuel p child w w' :
  bounded H w -> (H <= fuel)%nat ->
  remove fuel p child w = Ok w' tt ->
  bus w' = bus w /\ stdout w' = stdout w /\
  (forall o, disposed (nodes w' o) = disposed (nodes w o)) /\
  children (nodes w' p) = list_remove child (children (nodes w p)).
Proof.
  intros Hb Hf E. unfold remove in E.
  destruct (is_in child (children (nodes w p))) eqn:Hin.
  - set (w1 := upd p (fun n => with_children (list_remove child (children n)) n) w)
      in *.
    set (w2 := upd child (with_parent None) w1) in *.
    assert (S12 : shrinks w w2).
    { eapply shrinks_trans; apply shrinks_upd; auto; intros n;
        [apply incl_list_remove | apply incl_refl]. }
    destruct (@bounded_shrinks H w w2 S12 Hb p) as [Hh _].
    destruct (@reset_returns H fuel p w2 Hh Hf) as (w3 & E3 & B3 & O3 & N3).
    unfold bind at 1, modify at 1 in E. fold w1 in E.
    unfold bind at 1, modify at 1 in E. fold w2 in E.
    rewrite E3 in E. inversion E; subst w'.
    assert (F : forall o, strip (nodes w3 o) = strip (nodes w2 o))
      by (intros o; apply N3).
    split; [rewrite B3; reflexivity|]. split; [rewrite O3; reflexivity|].
    split.
    + intros o.
      assert (D : disposed (nodes w3 o) = disposed (nodes w2 o))
        by exact (f_equal disposed (F o)).
      rewrite D. unfold w2, w1. simpl.
      destruct (Nat.eqb o child), (Nat.eqb o p); reflexivity.
    + assert (C : children (nodes w3 p) = children (nodes w2 p))
        by exact (f_equal children (F p)).
      rewrite C. unfold w2, w1. simpl. rewrite Nat.eqb_refl.
      destruct (Nat.eqb p child); reflexivity.
  - inversion E; subst w'. repeat split; auto.
    symmetry. apply list_remove_absent, Hin.
Qed.

Section IdleHandlers.

(** Handlers that ignore [msg]. *)
Variable invoke : oid -> Packet -> M unit.
Variable msg : Packet.
Hypothesis ignored : forall h w, invoke h msg w = Ok w tt.

Lemma broadcast_log_idle : forall items w,
  exists ds,
    broadcast_log invoke items msg w = Ok w ds /\
    map target ds = cached_handlers items /\
    Forall (fun d => d_msg d = msg /\ d_ok d = true) ds.
Proof.
  induction items as [|[addr [h|]] items IH]; intros w.
  - exists []. repeat split; constructor.
  - destruct (IH w) as (ds & E & T & F).
    exists (mkDelivery addr h msg true :: ds). split; [|split].
    + cbn [broadcast_log]. unfold bind at 1, call_logged.
      rewrite ignored. unfold bind at 1. rewrite E. reflexivity.
    + cbn [map cached_handlers]. rewrite T. reflexivity.
    + constructor; [split; reflexivity | exact F].
  - destruct (IH w) as (ds & E & T & F). exists ds. auto.
Qed.

Lemma pump_log_idle w :
  _queue (bus w) = [msg] -> receiver msg = BROADCAST ->
  exists ds,
    pump_log invoke w = Ok (upd_bus (with_queue []) w) ds /\
    map target ds = cached_handlers (_handler_cache (bus w)) /\
    Forall (fun d => d_msg d = msg /\ d_ok d = true) ds.
Proof.
  intros Hq Hr.
  destruct (broadcast_log_idle (_handler_cache (bus w))
              (upd_bus (with_queue []) w)) as (ds & E & T & F).
  exists ds. split; [|split; assumption].
  unfold pump_log. rewrite Hq. cbn [messages_log].
  unfold bind at 1, deliver_log. rewrite Hr, Z.eqb_refl.
  change (_handler_cache (bus (upd_bus (with_queue []) w)))
    with (_handler_cache (bus w)).
  rewrite E. unfold bind, ret. rewrite app_nil_r. reflexivity.
Qed.

End IdleHandlers.

Lemma root_memo fuel self w w' rt :
  is_root_class (cls (nodes w self)) = false ->
  root fuel self w = Ok w' rt ->
  cache (nodes w' self) = Some rt /\
  is_root_class (cls (nodes w' self)) = false.
Proof.
  intros Hcls. unfold root, UIElement_root. rewrite Hcls.
  destruct (cache (nodes w self)) as [r|] eqn:Hc.
  - intros E. inversion E; subst. auto.
  - destruct (root_walk fuel self w); [|discriminate].
    intros E. inversion E; subst. simpl. rewrite Nat.eqb_refl. auto.
Qed.

(** The priority post of [R_DISPOSED] by a node that knows its root, in a
    settled world. *)
Lemma post_disposed_spec f self rt att w3 w4 :
  is_root_class (cls (nodes w3 self)) = false ->
  cache (nodes w3 self) = Some rt ->
  settled w3 ->
  post (handle_message (S f)) (S f) self BROADCAST R_DISPOSED att true w3
    = Ok w4 tt ->
  if has_bus (nodes w3 rt)
  then announced (handle_message (S f))
         (mkPacket BROADCAST (address (nodes w3 self)) R_DISPOSED att) w3 w4
  else w4 = w3.
Proof.
  intros Hcls Hc Q E. unfold post in E. unfold bind at 1 in E.
  unfold root at 1, UIElement_root in E. rewrite Hcls, Hc in E.
  cbv beta iota in E. unfold connected in E.
  destruct (has_bus (nodes w3 rt)); [|inversion E; reflexivity].
  set (packet := mkPacket BROADCAST (address (nodes w3 self)) R_DISPOSED att)
    in *.
  set (wq := bus_post packet w3) in *.
  assert (Hq : _queue (bus wq) = [packet]).
  { unfold wq. rewrite bus_post_queue. unfold settled in Q. rewrite Q.
    reflexivity. }
  destruct (@pump_log_idle (handle_message (S f)) packet
              (fun h w0 => @handle_message_disposed f h packet w0 eq_refl)
              wq Hq eq_refl) as (ds & El & T & F).
  pose proof (pump_log_spec (handle_message (S f)) wq) as Hp.
  rewrite El in Hp. destruct Hp as (w' & Ep & A).
  unfold bind at 1, modify at 1 in E. fold wq in E.
  unfold bind at 1 in E. rewrite Ep in E. unfold ret in E.
  inversion E; subst w4.
  exists (upd_bus (with_queue []) wq), ds.
  split; [exact El|]. split; [exact T|]. split; [exact F|].
  split; [exact A|].
  destruct A as (An & Ao & Aq & _).
  split; [|split].
  - rewrite <- An. reflexivity.
  - rewrite <- Ao. reflexivity.
  - unfold settled. rewrite <- Aq. reflexivity.
Qed.

(** The loop of [destroy] over the children, when each call returns and
    touches the [disposed] flags of its own branch only. *)
Lemma children_destroyed f self w :
  (forall c w1, In c (children (nodes w self)) -> later w w1 -> settled w1 ->
     exists w2, destroy f c w1 = Ok w2 tt /\ settled w2 /\ later w1 w2 /\
       disposed (nodes w2 c) = true /\
       (forall o, ~ reach w1 c o ->
                  disposed (nodes w2 o) = disposed (nodes w1 o))) ->
  forall cs, incl cs (children (nodes w self)) ->
  forall wi, later w wi -> settled wi ->
  exists w1,
    for_each cs (destroy f) wi = Ok w1 tt /\ settled w1 /\ later wi w1 /\
    (forall c, In c cs -> disposed (nodes w1 c) = true) /\
    (forall o, (forall c, In c cs -> ~ reach w c o) ->
               disposed (nodes w1 o) = disposed (nodes wi o)).
Proof.
  intros Hchild. induction cs as [|c cs IH]; intros Hin wi Li Qi.
  - exists wi. split; [reflexivity|]. split; [exact Qi|].
    split; [apply later_refl|]. split; [intros c []|reflexivity].
  - assert (Hc : In c (children (nodes w self)))
      by (apply Hin; left; reflexivity).
    destruct (Hchild c wi Hc Li Qi) as (wj & Ej & Qj & Lj & Dj & Fj).
    destruct (IH (fun x Hx => Hin x (or_intror Hx)) wj
                (@later_trans w wi wj Li Lj) Qj)
      as (w1 & E1 & Q1 & L1 & D1 & F1).
    exists w1. split; [|split; [|split; [|split]]].
    + cbn [for_each]. erewrite bind_ok by exact Ej. exact E1.
    + exact Q1.
    + eapply later_trans; eassumption.
    + intros c' [Hc'|Hc'].
      * subst c'. eapply later_disposed; eassumption.
      * apply D1, Hc'.
    + intros o Ho. rewrite F1 by (intros c' Hc'; apply Ho; right; exact Hc').
      apply Fj. intros Hr. apply (Ho c (or_introl eq_refl)).
      eapply reach_shrinks; [apply Li | exact Hr].
Qed.

(** One call of [UIElement.destroy] on a node that is not disposed, with
    what each step has done. *)
Lemma destroy_chain H f self w :
  (forall c w1, In c (children (nodes w self)) -> later w w1 -> settled w1 ->
     exists w2, destroy (S f) c w1 = Ok w2 tt /\ settled w2 /\ later w1 w2 /\
       disposed (nodes w2 c) = true /\
       (forall o, ~ reach w1 c o ->
                  disposed (nodes w2 o) = disposed (nodes w1 o))) ->
  bounded H w -> settled w ->
  is_root_class (cls (nodes w self)) = false ->
  disposed (nodes w self) = false ->
  (H <= S f)%nat ->
  exists w1 w2 rt w3 w4 w6 w',
    for_each (children (nodes w self)) (destroy (S f)) w = Ok w1 tt /\
    (forall c, In c (children (nodes w self)) ->
               disposed (nodes w1 c) = true) /\
    disposed (nodes w1 self) = false /\
    root (S f) self w1 = Ok w2 rt /\
    (if has_bus (nodes w2 rt) then taken_off self w2 w3 else w3 = w2) /\
    (if has_bus (nodes w2 rt)
     then announced (handle_message (S f))
            (mkPacket BROADCAST (address (nodes w self)) R_DISPOSED
               (VAtom (AObj self))) w3 w4
     else w4 = w3) /\
    disposed (nodes w4 self) = false /\
    match parent (nodes w4 self) with
    | Some p =>
        remove (S f) p self (upd self (with_disposed true) w4) = Ok w6 tt /\
        children (nodes w6 p) = list_remove self (children (nodes w4 p))
    | None => w6 = upd self (with_disposed true) w4
    end /\
    w' = upd self (with_parent None) (upd self (with_children []) w6) /\
    destroy (S (S f)) self w = Ok w' tt /\
    settled w' /\ later w w' /\
    (forall o, ~ reach w self o ->
               disposed (nodes w' o) = disposed (nodes w o)).
Proof.
  intros Hchild Hb Hq Hcls Hdis Hf.
  destruct (@destroy_step H (S f) self w) as
    (w1 & w2 & rt & w4 & w6 & E1 & E2 & E4 & E6 & E & Q4 & Q6 & L6 & D6 & _);
    auto; try lia.
  { intros c wi Hc Li Qi.
    destruct (Hchild c wi Hc Li Qi) as (wj & Ej & Qj & Lj & _).
    exists wj. auto. }
  (* the children *)
  destruct (@children_destroyed (S f) self w Hchild (children (nodes w self))
              (incl_refl _) w (later_refl w) Hq)
    as (w1' & E1' & Q1 & L1 & D1 & F1).
  rewrite E1 in E1'. inversion E1'; subst w1'. clear E1'.
  assert (Ds1 : disposed (nodes w1 self) = false).
  { rewrite F1; [exact Hdis|]. intros c Hc.
    apply (@no_cycle H w self c (proj1 (Hb self)) Hc). }
  (* the root *)
  assert (Cl1 : is_root_class (cls (nodes w1 self)) = false).
  { destruct (proj1 L1 self) as (C & _). rewrite C. exact Hcls. }
  destruct (@root_frame (S f) self w1 w2 rt E2) as (B2 & O2 & N2).
  destruct (@root_memo (S f) self w1 w2 rt Cl1 E2) as (M2 & Cl2).
  assert (Dp2 : forall o, disposed (nodes w2 o) = disposed (nodes w1 o))
    by (intros o; exact (f_equal disposed (N2 o))).
  assert (A2 : address (nodes w2 self) = address (nodes w self)).
  { assert (A : address (nodes w2 self) = address (nodes w1 self))
      by exact (f_equal address (N2 self)).
    rewrite A. destruct (proj1 L1 self) as (_ & A1 & _). exact A1. }
  (* the unregistration *)
  set (w3 := if connected rt w2 then unregister self w2 else w2) in *.
  assert (N3 : nodes w3 = nodes w2)
    by (unfold w3; destruct (connected rt w2); reflexivity).
  assert (Q3 : settled w3).
  { unfold w3, settled. destruct (connected rt w2); simpl; rewrite B2;
      exact Q1. }
  assert (T3 : if has_bus (nodes w2 rt) then taken_off self w2 w3
               else w3 = w2).
  { unfold w3, connected. destruct (has_bus (nodes w2 rt)); [|reflexivity].
    repeat split; reflexivity. }
  (* the announcement *)
  assert (Cl3 : is_root_class (cls (nodes w3 self)) = false)
    by (rewrite N3; exact Cl2).
  assert (M3 : cache (nodes w3 self) = Some rt) by (rewrite N3; exact M2).
  pose proof (@post_disposed_spec f self rt (VAtom (AObj self)) w3 w4
                Cl3 M3 Q3 E4) as P4.
  rewrite N3, A2 in P4.
  assert (N4 : nodes w4 = nodes w3).
  { destruct (has_bus (nodes w2 rt)).
    - destruct P4 as (wl & ds & _ & _ & _ & _ & N & _). exact N.
    - rewrite P4. reflexivity. }
  assert (Ds4 : disposed (nodes w4 self) = false)
    by (rewrite N4, N3, Dp2; exact Ds1).
  (* the flag and the parent *)
  set (w5 := upd self (with_disposed true) w4) in *.
  assert (P5 : parent (nodes w5 self) = parent (nodes w4 self)).
  { unfold w5. simpl. rewrite Nat.eqb_refl. reflexivity. }
  assert (Hb4 : bounded H w4).
  { assert (S14 : shrinks w1 w4).
    { intros o. rewrite N4, N3.
      assert (X1 : cls (nodes w2 o) = cls (nodes w1 o))
        by exact (f_equal cls (N2 o)).
      assert (X2 : address (nodes w2 o) = address (nodes w1 o))
        by exact (f_equal address (N2 o)).
      assert (X3 : has_bus (nodes w2 o) = has_bus (nodes w1 o))
        by exact (f_equal has_bus (N2 o)).
      assert (X4 : children (nodes w2 o) = children (nodes w1 o))
        by exact (f_equal children (N2 o)).
      assert (X5 : parent (nodes w2 o) = parent (nodes w1 o))
        by exact (f_equal parent (N2 o)).
      rewrite X1, X2, X3, X4, X5, Dp2. repeat split; auto. apply incl_refl. }
    eapply bounded_shrinks; [exact S14|].
    eapply bounded_shrinks; [apply L1 | exact Hb]. }
  assert (Hb5 : bounded H w5).
  { eapply bounded_shrinks; [|exact Hb4]. apply shrinks_upd; auto.
    intros n. apply incl_refl. }
  assert (R6 : (forall o, disposed (nodes w6 o) = disposed (nodes w5 o)) /\
               match parent (nodes w4 self) with
               | Some p =>
                   remove (S f) p self w5 = Ok w6 tt /\
                   children (nodes w6 p)
                     = list_remove self (children (nodes w4 p))
               | None => w6 = w5
               end).
  { rewrite P5 in E6. destruct (parent (nodes w4 self)) as [p|].
    - destruct (@remove_strip H (S f) p self w5 w6 Hb5 Hf E6)
        as (_ & _ & D & C).
      split; [exact D|]. split; [exact E6|]. rewrite C. unfold w5. simpl.
      destruct (Nat.eqb p self); reflexivity.
    - inversion E6. split; reflexivity. }
  destruct R6 as (Dp6 & R6).
  exists w1, w2, rt, w3, w4, w6.
  exists (upd self (with_parent None) (upd self (with_children []) w6)).
  split; [exact E1|]. split; [exact D1|]. split; [exact Ds1|].
  split; [exact E2|]. split; [exact T3|]. split; [exact P4|].
  split; [exact Ds4|]. split; [exact R6|]. split; [reflexivity|].
  split; [exact E|]. split; [exact Q6|]. split.
  { eapply later_trans; [exact L6|]. apply later_cleared. }
  intros o Ho.
  assert (Hos : Nat.eqb o self = false).
  { apply Nat.eqb_neq. intros ->. apply Ho. constructor. }
  simpl. rewrite Hos, Dp6. unfold w5. simpl. rewrite Hos, N4, N3, Dp2.
  apply F1. intros c Hc Hr. apply Ho. apply reach_child with c; assumption.
Qed.

(** In a settled world whose tree is bounded by [H], [destroy] on a node
    with at most [k] levels of plain elements below it returns, with the
    node disposed and no [disposed] flag changed outside its branch. *)
Lemma destroy_spares H k : forall f self w,
  bounded H w -> settled w -> plain_below w self -> height_le k w self ->
  (H + k <= f)%nat ->
  exists w', destroy (S (S f)) self w = Ok w' tt /\ settled w' /\
    later w w' /\ disposed (nodes w' self) = true /\
    (forall o, ~ reach w self o ->
               disposed (nodes w' o) = disposed (nodes w o)).
Proof.
  induction k as [|k IH]; intros f self w Hb Hq Hp Hh Hf;
    assert (Hcls : is_root_class (cls (nodes w self)) = false)
      by (apply Hp; constructor);
    (destruct (disposed (nodes w self)) eqn:Hdis;
     [ exists w; split;
         [ cbn [destroy]; unfold destroy_body; rewrite Hcls;
           unfold UIElement_destroy; rewrite Hdis; reflexivity
         | split; [exact Hq|]; split; [apply later_refl|];
           split; [exact Hdis | reflexivity] ]
     | ]).
  - destruct (@destroy_chain H f self w) as
      (w1 & w2 & rt & w3 & w4 & w6 & w' & _ & _ & _ & _ & _ & _ & _ & _ & Ew
       & E & Q & L & F); auto; try lia.
    { simpl in Hh. rewrite Hh. intros c w1 []. }
    exists w'. split; [exact E|]. split; [exact Q|]. split; [exact L|].
    split; [|exact F].
    apply (@destroy_final (S f) self w w' Hcls Hdis E).
  - destruct f as [|f0]; [lia|].
    destruct (@destroy_chain H (S f0) self w) as
      (w1 & w2 & rt & w3 & w4 & w6 & w' & _ & _ & _ & _ & _ & _ & _ & _ & Ew
       & E & Q & L & F); auto; try lia.
    { intros c w1 Hc [S1 C1] Q1.
      apply (IH f0 c w1).
      - eapply bounded_shrinks; eassumption.
      - exact Q1.
      - eapply plain_below_shrinks; eassumption.
      - eapply height_le_shrinks; [exact S1|]. apply Hh, Hc.
      - lia. }
    exists w'. split; [exact E|]. split; [exact Q|]. split; [exact L|].
    split; [|exact F].
    apply (@destroy_final (S (S f0)) self w w' Hcls Hdis E).
Qed.

(** C3, refuted as stated: the claim speaks of every node, but a [UIRoot]
    has a [destroy] of its own, which takes none of the steps.  The root
    of the demo tree is not disposed; after [destroy] it is still not
    disposed and still on the bus, and the broadcasts it has sent are
    [R_CLEAR], [R_RESET] and [R_TERMINATE], not [R_DISPOSED]. *)
Lemma root_destroy_takes_no_step :
  is_root_class (cls (nodes demo_tree 0%nat)) = true /\
  disposed (nodes demo_tree 0%nat) = false /\
  match destroy 8 0%nat demo_tree with
  | Ok w' _ =>
      disposed (nodes w' 0%nat) = false /\
      dict_get Z.eqb 1 (_elements (bus w')) = Some 0%nat /\
      dict_get Z.eqb 1 (_handler_cache (bus w')) = Some (Some 0%nat) /\
      flat_map (fun l => match l with
                         | LBroadcast from kind =>
                             if from =? 1 then [kind] else []
                         | _ => []
                         end) (stdout w')
        = [R_CLEAR; R_RESET; R_TERMINATE]
  | _ => False
  end.
Proof. vm_compute. repeat split. Qed.

(** C3, amended: [UIElement.destroy], the method of every node that is
    not a [UIRoot], on a node that is not disposed.  The call lets no
    exception out, and whenever it returns the node is disposed, without
    parent and without children.  In a world where no message is waiting,
    the tree is bounded and no [UIRoot] is below the node, the call does
    return, and it has taken these steps in this order, each starting in
    the world the one before has left: (1) [destroy] on every child: in
    [w1] the children are disposed and the node is not; (2) [root()], and
    when the root found carries the bus, the unregistration: in [w3] both
    tables of the bus have lost the entry at the node's address; (3) when
    that root carries the bus, the broadcast of [R_DISPOSED] with the node
    as payload, delivered inside the post to every handler left in the
    cache: in [w4] the line is printed, the handlers have been called and
    have returned, and the node is still not disposed; (4) the flag; (5)
    [remove] from the parent, if there is one: in [w6] the parent lists
    the node once less; (6) the node's children and parent are cleared. *)
Theorem destroy_tears_down_in_order (f : nat) (self : oid) (w : World) :
  is_root_class (cls (nodes w self)) = false ->
  disposed (nodes w self) = false ->
  match destroy (S (S f)) self w with Raise _ _ => False | _ => True end /\
  (forall w', destroy (S (S f)) self w = Ok w' tt ->
     disposed (nodes w' self) = true /\
     parent (nodes w' self) = None /\
     children (nodes w' self) = []) /\
  (forall H k,
     bounded H w -> settled w -> plain_below w self -> height_le k w self ->
     (H + k <= f)%nat ->
     exists w1 w2 rt w3 w4 w6 w',
       for_each (children (nodes w self)) (destroy (S f)) w = Ok w1 tt /\
       (forall c, In c (children (nodes w self)) ->
                  disposed (nodes w1 c) = true) /\
       disposed (nodes w1 self) = false /\
       root (S f) self w1 = Ok w2 rt /\
       (if has_bus (nodes w2 rt) then taken_off self w2 w3 else w3 = w2) /\
       (if has_bus (nodes w2 rt)
        then announced (handle_message (S f))
               (mkPacket BROADCAST (address (nodes w self)) R_DISPOSED
                  (VAtom (AObj self))) w3 w4
        else w4 = w3) /\
       disposed (nodes w4 self) = false /\
       match parent (nodes w4 self) with
       | Some p =>
           remove (S f) p self (upd self (with_disposed true) w4)
             = Ok w6 tt /\
           children (nodes w6 p) = list_remove self (children (nodes w4 p))
       | None => w6 = upd self (with_disposed true) w4
       end /\
       w' = upd self (with_parent None) (upd self (with_children []) w6) /\
       destroy (S (S f)) self w = Ok w' tt /\
       settled w').
Proof.
  intros Hcls Hdis. split; [apply quiet_destroy|]. split.
  - intros w' E. apply destroy_final with (S f) w; assumption.
  - intros H k Hb Hq Hp Hh Hf.
    destruct (@destroy_chain H f self w) as
      (w1 & w2 & rt & w3 & w4 & w6 & w' & E1 & D1 & Ds1 & E2 & T3 & P4 & Ds4
       & R6 & Ew & E & Q & _); auto; try lia.
    { intros c w1 Hc [S1 C1] Q1.
      destruct k as [|k].
      { simpl in Hh. rewrite Hh in Hc. destruct Hc. }
      destruct f as [|f0]; [lia|].
      apply (@destroy_spares H k f0 c w1).
      - eapply bounded_shrinks; eassumption.
      - exact Q1.
      - eapply plain_below_shrinks; eassumption.
      - eapply height_le_shrinks; [exact S1|]. apply Hh, Hc.
      - lia. }
    exists w1, w2, rt, w3, w4, w6, w'.
    repeat (split; [assumption|]). exact Q.
Qed.

Lemma destroy_tears_down_in_order_witness :
  exists w',
    destroy 5 1%nat demo_tree = Ok w' tt /\
    settled w' /\
    disposed (nodes w' 1%nat) = true /\
    parent (nodes w' 1%nat) = None /\
    children (nodes w' 1%nat) = [].
Proof.
  destruct (@destroy_tears_down_in_order 3 1%nat demo_tree)
    as (_ & Hfinal & Hret).
  - vm_compute. reflexivity.
  - vm_compute. reflexivity.
  - destruct (Hret 2%nat 1%nat)
      as (w1 & w2 & rt & w3 & w4 & w6 & w' & _ & _ & _ & _ & _ & _ & _ & _ & _
          & E & Q).
    + exact demo_tree_bounded.
    + vm_compute. reflexivity.
    + apply plain_belowb_sound with 1%nat;
        [apply height_leb_sound|]; vm_compute; reflexivity.
    + apply height_leb_sound. vm_compute. reflexivity.
    + lia.
    + destruct (Hfinal w' E) as (D & P & C).
      exists w'. auto.
Defined.
